(** * maxGraph: layout manager, undoable changes, outline and the
      transactional change log

    A shallow embedding of
      - [packages/core/src/view/graph/mxLayoutManager.ts]
      - [packages/core/src/view/undoable_changes/StyleChange.ts]
        (the [StyleChange] class and the [Outline] class that shares the file)
    together with the parts of the transaction engine and of the codec
    registry that these files call but that live elsewhere in the
    repository. *)

From stdpp Require Import base option list gmap strings.
From Stdlib Require Import Permutation.
From Stdlib Require QArith Qminmax.

Set Warnings "-register-all".

(** ** Effects: JavaScript calls that mutate a state and may throw *)

Module JsEffects.

(** The completion of a call: it returns a value or throws. *)
Inductive Outcome (A : Type) : Type :=
| Returned (a : A)
| Threw (e : string).
Arguments Returned {A} a.
Arguments Threw {A} e.

(** A call over a mutable state [S]. *)
Definition Eff (S A : Type) : Type := S -> Outcome A * S.

Definition ret {S A} (a : A) : Eff S A := fun s => (Returned a, s).

Definition bind {S A B} (m : Eff S A) (k : A -> Eff S B) : Eff S B :=
  fun s =>
    match m s with
    | (Returned a, s1) => k a s1
    | (Threw e, s1) => (Threw e, s1)
    end.

Definition throw {S A} (e : string) : Eff S A := fun s => (Threw e, s).

Definition gets {S A} (f : S -> A) : Eff S A := fun s => (Returned (f s), s).

Definition modify {S} (f : S -> S) : Eff S unit := fun s => (Returned tt, f s).

(** [try { body } finally { fin }]: [fin] always runs; when it throws, its
    exception replaces the completion of [body], otherwise the completion
    of [body] stands. *)
Definition try_finally {S A} (body : Eff S A) (fin : Eff S unit) : Eff S A :=
  fun s =>
    match body s with
    | (r, s1) =>
        match fin s1 with
        | (Returned _, s2) => (r, s2)
        | (Threw e, s2) => (Threw e, s2)
        end
    end.

(** Values as far as the comparison [v != null] can tell them apart. *)
Inductive JsValue : Type :=
| JsNull
| JsUndefined
| JsBoolean (b : bool)
| JsObject.

(** [v != null] (loose inequality): false for [null] and [undefined] only. *)
Definition ne_null (v : JsValue) : bool :=
  match v with
  | JsNull | JsUndefined => false
  | JsBoolean _ | JsObject => true
  end.

Module Notations.
Declare Scope eff_scope.
Delimit Scope eff_scope with eff.
Notation "'let*' x := m 'in' k" := (bind m (fun x => k))
  (at level 10, x name, m at level 100, k at level 200) : eff_scope.
Notation "m ;;; k" := (bind m (fun _ => k))
  (at level 100, k at level 200, right associativity) : eff_scope.
End Notations.

End JsEffects.

(** ** mxLayoutManager *)

Module MxLayoutManager.
Import JsEffects JsEffects.Notations.
Local Open Scope eff_scope.

(** Modelled from the spec: the class [mxCell] ([view/cell/mxCell.ts]) is
    not among the sources. A node has an identity, a parent reference and an
    ordered list of children; these are the facets the layout manager reads
    through [getParent], [getChildCount] and [getChildAt]. A value of this
    type is the finite unfolding of the object graph as seen from one cell:
    upwards along [parent], downwards along [children]. *)
Inductive mxCell : Type :=
| MxCell (id : nat) (parent : option mxCell) (children : list mxCell).

Definition getId (c : mxCell) : nat := match c with MxCell i _ _ => i end.
Definition getParent (c : mxCell) : option mxCell :=
  match c with MxCell _ p _ => p end.
Definition getChildren (c : mxCell) : list mxCell :=
  match c with MxCell _ _ ch => ch end.

(** Object identity ([===]) of two cell references, [null] included. *)
Definition same_cell (a b : option mxCell) : bool :=
  match a, b with
  | Some x, Some y => Nat.eqb (getId x) (getId y)
  | None, None => true
  | _, _ => false
  end.

(** The event names of [mxEvent] that the layout manager uses. *)
Inductive mxEvent : Type :=
| BEFORE_UNDO | MOVE_CELLS | RESIZE_CELLS
| LAYOUT_CELLS | BEGIN_UPDATE | END_UPDATE.

(** The entries of [undoableEdit.changes] as the layout manager's
    [instanceof] tests tell them apart, with the fields it reads. *)
Inductive Change : Type :=
| mxRootChange
| mxChildChange (child previous : option mxCell)
| mxTerminalChange (cell : option mxCell)
| mxGeometryChange (cell : option mxCell)
| mxVisibleChange (cell : option mxCell)
| mxStyleChange (cell : option mxCell)
| OtherChange.

Definition isRootChange (c : Change) : bool :=
  match c with mxRootChange => true | _ => false end.

(** The calls the layout manager issues on its collaborators, in order. *)
Inductive Call : Type :=
| CallBeginUpdate
| CallEndUpdate
| CallLayoutExecute (cell : mxCell) (bubble : bool)
| CallFireEvent (name : mxEvent) (cells : list mxCell).

Definition isBeginUpdate (c : Call) : bool :=
  match c with CallBeginUpdate => true | _ => false end.
Definition isEndUpdate (c : Call) : bool :=
  match c with CallEndUpdate => true | _ => false end.

Section Manager.

(** The state of the graph model the manager is attached to, and the layout
    objects [getLayout] hands out. *)
Context {Model Layout : Type}.

(** The collaborators whose code is outside [mxLayoutManager.ts]. *)
Record Collaborators : Type := {
  (** [model.beginUpdate()]; the transaction engine's contract: never fails. *)
  model_beginUpdate : Model -> Model;
  (** [model.endUpdate()]; it dispatches to listeners, which may throw. *)
  model_endUpdate : Eff Model unit;
  (** [model.getRoot()]. *)
  model_getRoot : Model -> option mxCell;
  (** [layout.execute(cell)] of a layout returned by [getLayout]. *)
  layout_execute : Layout -> mxCell -> Eff Model unit;
  (** The listeners that [fireEvent] reaches for [LAYOUT_CELLS]. *)
  layoutCells_listeners : list mxCell -> Eff Model unit;
  (** [mxUtils.sortCells(cells, ascending)]. *)
  sortCells : list mxCell -> bool -> list mxCell
}.

(** The fields and the overridable hook of a layout manager. *)
Record mxLayoutManager : Type := {
  bubbling : bool;
  enabled : bool;
  getLayout : option mxCell -> mxEvent -> option Layout
}.

Variable env : Collaborators.
Variable this : mxLayoutManager.

Definition isEnabled : bool := enabled this.
Definition isBubbling : bool := bubbling this.

(** [hasLayout(cell) = !!this.getLayout(cell, mxEvent.LAYOUT_CELLS)] *)
Definition hasLayout (cell : option mxCell) : bool :=
  match getLayout this cell LAYOUT_CELLS with
  | Some _ => true
  | None => false
  end.

(** [addAncestorsWithLayout] on a non-null cell. [result.push] mutates the
    array that the recursive call receives, so the array is threaded. *)
Fixpoint addAncestorsWithLayout_cell (cell : mxCell) (result : list mxCell)
  : list mxCell :=
  let layout := hasLayout (Some cell) in
  let result := if ne_null (JsBoolean layout) then result ++ [cell] else result in
  if isBubbling then
    match cell with
    | MxCell _ (Some p) _ => addAncestorsWithLayout_cell p result
    | MxCell _ None _ => result
    end
  else result.

Definition addAncestorsWithLayout (cell : option mxCell) (result : list mxCell)
  : list mxCell :=
  match cell with
  | Some c => addAncestorsWithLayout_cell c result
  | None => result
  end.

(** [addDescendantsWithLayout] on a non-null cell; the inner [fix] is the
    [for] loop that takes [getChildAt(i)] for [i] from 0 up to
    [getChildCount()]. *)
Fixpoint addDescendantsWithLayout_cell (cell : mxCell) (result : list mxCell)
  : list mxCell :=
  if hasLayout (Some cell) then
    match cell with
    | MxCell _ _ children =>
        (fix loop (cs : list mxCell) (result : list mxCell) : list mxCell :=
           match cs with
           | [] => result
           | child :: rest =>
               loop rest
                 (if hasLayout (Some child)
                  then addDescendantsWithLayout_cell child (result ++ [child])
                  else result)
           end) children result
    end
  else result.

Definition addDescendantsWithLayout (cell : option mxCell) (result : list mxCell)
  : list mxCell :=
  match cell with
  | Some c => addDescendantsWithLayout_cell c result
  | None => result
  end.

Definition addCellsWithLayout (cell : option mxCell) (result : list mxCell)
  : list mxCell :=
  addDescendantsWithLayout cell (addAncestorsWithLayout cell result).

Definition getCellsForChange (change : Change) : list mxCell :=
  match change with
  | mxChildChange child previous =>
      addCellsWithLayout child (addCellsWithLayout previous [])
  | mxTerminalChange cell | mxGeometryChange cell => addCellsWithLayout cell []
  | mxVisibleChange cell | mxStyleChange cell => addCellsWithLayout cell []
  | mxRootChange | OtherChange => []
  end.

(** The loop of [getCellsForChanges], from the accumulated [result] on. *)
Fixpoint getCellsForChanges_from (changes : list Change) (result : list mxCell)
  : list mxCell :=
  match changes with
  | [] => result
  | change :: rest =>
      if isRootChange change then []
      else getCellsForChanges_from rest (result ++ getCellsForChange change)
  end.

Definition getCellsForChanges (changes : list Change) : list mxCell :=
  getCellsForChanges_from changes [].

(** The argument of [beforeUndo]: the edit carried by the event. *)
Record UndoableEdit : Type := { changes : list Change }.

(** The manager runs against the model and leaves a record of the calls it
    issues itself; what the collaborators do in turn happens on the model. *)
Record World : Type := { model : Model; calls : list Call }.

Definition on_model {A} (m : Eff Model A) : Eff World A :=
  fun w =>
    match m (model w) with
    | (r, m') => (r, {| model := m'; calls := calls w |})
    end.

Definition issue (c : Call) : Eff World unit :=
  modify (fun w => {| model := model w; calls := calls w ++ [c] |}).

Definition beginUpdate : Eff World unit :=
  issue CallBeginUpdate ;;;
  modify (fun w => {| model := model_beginUpdate env (model w); calls := calls w |}).

Definition endUpdate : Eff World unit :=
  issue CallEndUpdate ;;; on_model (model_endUpdate env).

Definition fireEvent (name : mxEvent) (cells : list mxCell) : Eff World unit :=
  issue (CallFireEvent name cells) ;;; on_model (layoutCells_listeners env cells).

Definition executeLayout (cell : mxCell) (bubble : bool) : Eff World unit :=
  match getLayout this (Some cell) (if bubble then BEGIN_UPDATE else END_UPDATE) with
  | Some layout =>
      issue (CallLayoutExecute cell bubble) ;;;
      on_model (layout_execute env layout cell)
  | None => ret tt
  end.

(** The [for (const cell of cells)] loop of [layoutCells]; [model.getRoot()]
    is read anew in every round. *)
Fixpoint layoutCells_loop (cells : list mxCell) (last : option mxCell)
  (bubble : bool) : Eff World unit :=
  match cells with
  | [] => ret tt
  | cell :: rest =>
      let* root := gets (fun w => model_getRoot env (model w)) in
      if negb (same_cell (Some cell) root) && negb (same_cell (Some cell) last)
      then executeLayout cell bubble ;;; layoutCells_loop rest (Some cell) bubble
      else layoutCells_loop rest last bubble
  end.

(** The [try] block of [layoutCells]. *)
Definition layoutCells_body (cells : list mxCell) (bubble : bool) : Eff World unit :=
  layoutCells_loop cells None bubble ;;; fireEvent LAYOUT_CELLS cells.

Definition layoutCells (cells : list mxCell) (bubble : bool) : Eff World unit :=
  if 0 <? length cells then
    beginUpdate ;;; try_finally (layoutCells_body cells bubble) endUpdate
  else ret tt.

Definition executeLayoutForCells (cells : list mxCell) : Eff World unit :=
  let sorted := sortCells env cells false in
  layoutCells sorted true ;;; layoutCells (reverse sorted) false.

Definition beforeUndo (undoableEdit : UndoableEdit) : Eff World unit :=
  executeLayoutForCells (getCellsForChanges (changes undoableEdit)).

(** The listener registered for [mxEvent.BEFORE_UNDO] in [setGraph]. *)
Definition undoHandler (edit : UndoableEdit) : Eff World unit :=
  if isEnabled then beforeUndo edit else ret tt.

(** The contract of [mxUtils.sortCells]: it reorders, nothing else. *)
Definition sortCells_permutes : Prop :=
  forall cells ascending, Permutation (sortCells env cells ascending) cells.

(** The chain of parents of a cell, nearest first. *)
Fixpoint ancestors (cell : mxCell) : list mxCell :=
  match cell with
  | MxCell _ (Some p) _ => p :: ancestors p
  | MxCell _ None _ => []
  end.

(** *** Properties of the cell collection *)

(** Induction over a cell that reaches the parent and every child. *)
Lemma mxCell_nested_ind (P : mxCell -> Prop) :
  (forall id parent children,
      from_option P True parent ->
      Forall P children ->
      P (MxCell id parent children)) ->
  forall c, P c.
Proof.
  intros step.
  refine (fix IH (c : mxCell) : P c :=
            match c with
            | MxCell id parent children =>
                step id parent children
                  (match parent as o return from_option P True o with
                   | Some p => IH p
                   | None => I
                   end)
                  ((fix all (cs : list mxCell) : Forall P cs :=
                      match cs with
                      | [] => List.Forall_nil P
                      | c' :: cs' => List.Forall_cons P c' cs' (IH c') (all cs')
                      end) children)
            end).
Qed.

Lemma ne_null_boolean b : ne_null (JsBoolean b) = true.
Proof. reflexivity. Qed.

(** The body of [addAncestorsWithLayout] for a non-null cell, as written. *)
Lemma addAncestorsWithLayout_unfold cell result :
  addAncestorsWithLayout (Some cell) result =
  let layout := hasLayout (Some cell) in
  let result := if ne_null (JsBoolean layout) then result ++ [cell] else result in
  if isBubbling then addAncestorsWithLayout (getParent cell) result else result.
Proof. by destruct cell as [id [p|] children]. Qed.

Lemma addAncestorsWithLayout_cell_eq cell result :
  addAncestorsWithLayout_cell cell result =
  result ++ cell :: (if isBubbling then ancestors cell else []).
Proof.
  revert result.
  induction cell as [id parent children IHp _] using mxCell_nested_ind.
  intros result. cbn [addAncestorsWithLayout_cell ancestors ne_null].
  destruct isBubbling; [|done].
  destruct parent as [p|]; [|done].
  cbn [from_option] in IHp. rewrite IHp. by rewrite <- app_assoc.
Qed.

(** The children loop of [addDescendantsWithLayout], named for the proofs. *)
Definition descend_children :=
  fix loop (cs : list mxCell) (result : list mxCell) : list mxCell :=
    match cs with
    | [] => result
    | child :: rest =>
        loop rest
          (if hasLayout (Some child)
           then addDescendantsWithLayout_cell child (result ++ [child])
           else result)
    end.

Lemma addDescendantsWithLayout_cell_unfold cell result :
  addDescendantsWithLayout_cell cell result =
  if hasLayout (Some cell) then descend_children (getChildren cell) result
  else result.
Proof. by destruct cell. Qed.

Definition with_layout (c : mxCell) : Prop := hasLayout (Some c) = true.

Lemma addDescendantsWithLayout_cell_spec cell :
  forall result, exists added,
    addDescendantsWithLayout_cell cell result = result ++ added /\
    Forall with_layout added.
Proof.
  induction cell as [id parent children _ IHch] using mxCell_nested_ind.
  intros result. rewrite addDescendantsWithLayout_cell_unfold. simpl.
  destruct (hasLayout (Some (MxCell id parent children))).
  2: { exists []. by rewrite app_nil_r. }
  revert result.
  induction IHch as [|child rest Hchild _ IHrest]; intros result; simpl.
  { exists []. by rewrite app_nil_r. }
  destruct (hasLayout (Some child)) eqn:Hl.
  - destruct (Hchild (result ++ [child])) as (a1 & -> & Ha1).
    destruct (IHrest ((result ++ [child]) ++ a1)) as (a2 & -> & Ha2).
    exists (child :: a1 ++ a2). split.
    + by rewrite <- !app_assoc.
    + constructor; [exact Hl | by apply Forall_app].
  - apply IHrest.
Qed.

(** C10. [addAncestorsWithLayout] appends every non-null cell it is given,
    whatever [hasLayout] says of it, because the boolean that [hasLayout]
    returns is compared against [null]; with bubbling on, the whole chain of
    parents follows, and with bubbling off nothing else. By contrast
    [addDescendantsWithLayout] only ever appends cells that have a layout. *)
Theorem ancestors_added_unconditionally (cell : mxCell) (result : list mxCell) :
  ne_null (JsBoolean (hasLayout (Some cell))) = true /\
  addAncestorsWithLayout (Some cell) result =
    result ++ cell :: (if bubbling this then ancestors cell else []) /\
  exists added,
    addDescendantsWithLayout (Some cell) result = result ++ added /\
    Forall (fun c => hasLayout (Some c) = true) added.
Proof.
  split; [apply ne_null_boolean|]. split.
  - apply addAncestorsWithLayout_cell_eq.
  - apply addDescendantsWithLayout_cell_spec.
Qed.

(** *** Properties of the change scan *)

Lemma getCellsForChanges_from_root changes :
  Exists (fun c => isRootChange c = true) changes ->
  forall result, getCellsForChanges_from changes result = [].
Proof.
  induction 1 as [c rest Hc | c rest _ IH]; intros result; simpl.
  - by rewrite Hc.
  - destruct (isRootChange c); [done | apply IH].
Qed.

(** *** Properties of [layoutCells] *)

(** [m] only adds calls that satisfy [P] to the record, whether it returns
    or throws. *)
Definition adds {A} (P : Call -> Prop) (m : Eff World A) : Prop :=
  forall w, exists new,
    calls (m w).2 = calls w ++ new /\ Forall P new.

Lemma adds_ret {A} P (a : A) : adds P (ret a).
Proof. intros w. exists []. by rewrite app_nil_r. Qed.

Lemma adds_gets {A} P (f : World -> A) : adds P (gets f).
Proof. intros w. exists []. by rewrite app_nil_r. Qed.

Lemma adds_issue (P : Call -> Prop) c : P c -> adds P (issue c).
Proof. intros Hc w. exists [c]. split; [done | by constructor]. Qed.

Lemma adds_on_model {A} P (m : Eff Model A) : adds P (on_model m).
Proof.
  intros w. exists []. unfold on_model.
  destruct (m (model w)) as [r m']. by rewrite app_nil_r.
Qed.

Lemma adds_bind {A B} P (m : Eff World A) (k : A -> Eff World B) :
  adds P m -> (forall a, adds P (k a)) -> adds P (bind m k).
Proof.
  intros Hm Hk w. unfold bind.
  destruct (Hm w) as (n1 & E1 & F1).
  destruct (m w) as [[a|e] w1]; simpl in E1.
  - destruct (Hk a w1) as (n2 & E2 & F2).
    exists (n1 ++ n2). rewrite E2, E1, <- app_assoc.
    split; [done | by apply Forall_app].
  - by exists n1.
Qed.

(** Neither [beginUpdate] nor [endUpdate]. *)
Definition inner_call (c : Call) : Prop :=
  isBeginUpdate c = false /\ isEndUpdate c = false.

Lemma executeLayout_adds cell bubble : adds inner_call (executeLayout cell bubble).
Proof.
  unfold executeLayout.
  destruct (getLayout this (Some cell) _); [|apply adds_ret].
  apply adds_bind; [by apply adds_issue | intros _; apply adds_on_model].
Qed.

Lemma layoutCells_loop_adds cells :
  forall last bubble, adds inner_call (layoutCells_loop cells last bubble).
Proof.
  induction cells as [|cell rest IH]; intros last bubble; simpl.
  - apply adds_ret.
  - apply adds_bind; [apply adds_gets|]. intros root.
    destruct (_ && _); [|apply IH].
    apply adds_bind; [apply executeLayout_adds | intros _; apply IH].
Qed.

Lemma layoutCells_body_adds cells bubble :
  adds inner_call (layoutCells_body cells bubble).
Proof.
  apply adds_bind; [apply layoutCells_loop_adds|]. intros _.
  apply adds_bind; [by apply adds_issue | intros _; apply adds_on_model].
Qed.

(** The world right after the manager's [model.beginUpdate()]. *)
Definition begun (w : World) : World :=
  {| model := model_beginUpdate env (model w);
     calls := calls w ++ [CallBeginUpdate] |}.

Lemma layoutCells_nil bubble w : layoutCells [] bubble w = (Returned tt, w).
Proof. reflexivity. Qed.

Lemma layoutCells_cons cell rest bubble w :
  layoutCells (cell :: rest) bubble w =
  let '(rb, wb) := layoutCells_body (cell :: rest) bubble (begun w) in
  let '(re, me) := model_endUpdate env (model wb) in
  (match re with Threw e => Threw e | Returned _ => rb end,
   {| model := me; calls := calls wb ++ [CallEndUpdate] |}).
Proof.
  unfold layoutCells. cbn [length Nat.ltb Nat.leb].
  unfold beginUpdate, endUpdate, try_finally, bind, issue, modify, on_model.
  cbn [model calls]. fold (begun w).
  destruct (layoutCells_body (cell :: rest) bubble (begun w)) as [rb wb].
  cbn [model calls].
  by destruct (model_endUpdate env (model wb)) as [[[]|e] me].
Qed.

(** C9. With a non-empty cell list [layoutCells] calls [model.beginUpdate()]
    once, runs the layouts and the [LAYOUT_CELLS] dispatch, none of which is
    another [beginUpdate] or [endUpdate] of the manager, and then calls
    [model.endUpdate()] once on whatever model the [try] block left behind,
    also when the block threw; the block's exception is the result unless
    [endUpdate] throws itself. With an empty list nothing is called. *)
Theorem layoutCells_closes_update (cells : list mxCell) (bubble : bool) (w : World) :
  match cells with
  | [] => layoutCells cells bubble w = (Returned tt, w)
  | _ :: _ =>
      exists inner rb wb re me,
        layoutCells_body cells bubble (begun w) = (rb, wb) /\
        calls wb = calls w ++ CallBeginUpdate :: inner /\
        Forall (fun c => isBeginUpdate c = false /\ isEndUpdate c = false) inner /\
        model_endUpdate env (model wb) = (re, me) /\
        layoutCells cells bubble w =
          (match re with Threw e => Threw e | Returned _ => rb end,
           {| model := me;
              calls := calls w ++ CallBeginUpdate :: inner ++ [CallEndUpdate] |})
  end.
Proof.
  destruct cells as [|cell rest]; [apply layoutCells_nil|].
  rewrite layoutCells_cons.
  destruct (layoutCells_body_adds (cell :: rest) bubble (begun w)) as (inner & E & F).
  destruct (layoutCells_body (cell :: rest) bubble (begun w)) as [rb wb] eqn:Hb.
  destruct (model_endUpdate env (model wb)) as [re me] eqn:He.
  cbn [snd] in E. cbn [begun calls] in E. rewrite <- app_assoc in E. cbn [app] in E.
  exists inner, rb, wb, re, me. repeat split; try done.
  rewrite E, <- app_assoc. done.
Qed.

Lemma executeLayoutForCells_nil w :
  sortCells_permutes -> executeLayoutForCells [] w = (Returned tt, w).
Proof.
  intros Hs. unfold executeLayoutForCells.
  assert (sortCells env [] false = []) as ->.
  { apply Permutation_nil. symmetry. apply Hs. }
  reflexivity.
Qed.

Lemma undoHandler_without_changes w :
  sortCells_permutes ->
  beforeUndo {| changes := [] |} w = (Returned tt, w) /\
  undoHandler {| changes := [] |} w = (Returned tt, w).
Proof.
  intros Hs.
  assert (beforeUndo {| changes := [] |} w = (Returned tt, w)) as Hb.
  { unfold beforeUndo. cbn. by apply executeLayoutForCells_nil. }
  split; [exact Hb|]. unfold undoHandler. by destruct isEnabled.
Qed.

(** C5. An edit without changes yields no cells, and the manager then asks
    nothing of its collaborators: no update is opened or closed, no layout
    runs, no event fires, the model is as before and the handler returns
    normally. *)
Theorem beforeUndo_empty_edit (w : World) (bubble : bool) :
  sortCells_permutes ->
  getCellsForChanges [] = [] /\
  layoutCells [] bubble w = (Returned tt, w) /\
  beforeUndo {| changes := [] |} w = (Returned tt, w) /\
  undoHandler {| changes := [] |} w = (Returned tt, w).
Proof.
  intros Hs. split; [done|]. split; [done|].
  by apply undoHandler_without_changes.
Qed.

(** C8. One [mxRootChange] anywhere in the list makes [getCellsForChanges]
    return the empty array, so that [beforeUndo] runs no layout at all for
    the edit, whatever other changes stand before or after it. *)
Theorem root_change_suppresses_layout (edit : UndoableEdit) (w : World) :
  sortCells_permutes ->
  Exists (fun c => isRootChange c = true) (changes edit) ->
  getCellsForChanges (changes edit) = [] /\
  beforeUndo edit w = (Returned tt, w).
Proof.
  intros Hs Hroot.
  assert (getCellsForChanges (changes edit) = []) as E
    by (by apply getCellsForChanges_from_root).
  split; [exact E|]. unfold beforeUndo. rewrite E.
  by apply executeLayoutForCells_nil.
Qed.

(** *** Further properties of the cell collection and of [layoutCells] *)

Lemma addAncestorsWithLayout_cell_app cell result :
  addAncestorsWithLayout_cell cell result =
  result ++ addAncestorsWithLayout_cell cell [].
Proof. by rewrite (addAncestorsWithLayout_cell_eq cell []), addAncestorsWithLayout_cell_eq. Qed.

Lemma addDescendantsWithLayout_cell_app cell :
  forall result,
    addDescendantsWithLayout_cell cell result =
    result ++ addDescendantsWithLayout_cell cell [].
Proof.
  induction cell as [id parent children _ IHch] using mxCell_nested_ind.
  intros result. rewrite !addDescendantsWithLayout_cell_unfold. cbn [getChildren].
  destruct (hasLayout (Some (MxCell id parent children))); [|by rewrite app_nil_r].
  revert result.
  induction IHch as [|child rest Hchild _ IHrest]; intros result; cbn [descend_children].
  { by rewrite app_nil_r. }
  destruct (hasLayout (Some child)).
  - rewrite (Hchild (result ++ [child])), (Hchild ([] ++ [child])).
    rewrite (IHrest ((result ++ [child]) ++ _)), (IHrest (([] ++ [child]) ++ _)).
    cbn [app]. by rewrite <- !app_assoc.
  - rewrite (IHrest result), (IHrest []). by rewrite app_nil_l.
Qed.

(** What [addCellsWithLayout] appends does not depend on the array it is
    given; hence for a child change the cells of the previous parent come
    first and those of the child after them. *)
Theorem addCellsWithLayout_appends
  (cell child previous : option mxCell) (result : list mxCell) :
  addCellsWithLayout cell result = result ++ addCellsWithLayout cell [] /\
  getCellsForChange (mxChildChange child previous) =
    addCellsWithLayout previous [] ++ addCellsWithLayout child [].
Proof.
  assert (forall c r, addCellsWithLayout c r = r ++ addCellsWithLayout c []) as Happ.
  { intros [c|] r; cbn; [|by rewrite app_nil_r].
    unfold addCellsWithLayout. cbn.
    rewrite (addDescendantsWithLayout_cell_app c (addAncestorsWithLayout_cell c r)).
    rewrite (addDescendantsWithLayout_cell_app c (addAncestorsWithLayout_cell c [])).
    rewrite (addAncestorsWithLayout_cell_app c r). by rewrite <- !app_assoc. }
  split; [apply Happ|]. cbn [getCellsForChange]. apply Happ.
Qed.

Lemma getCellsForChanges_from_concat changes :
  forall result,
    getCellsForChanges_from changes result =
    if existsb isRootChange changes then []
    else result ++ concat (map getCellsForChange changes).
Proof.
  induction changes as [|change rest IH]; intros result; cbn.
  - by rewrite app_nil_r.
  - destruct (isRootChange change); cbn [orb]; [done|].
    rewrite IH. destruct (existsb isRootChange rest); [done|].
    by rewrite <- app_assoc.
Qed.

(** Without a root change among them, the cells of a list of changes are
    the cells of the single changes, one change after the other; with one,
    there are none. *)
Theorem getCellsForChanges_concatenates (changes : list Change) :
  getCellsForChanges changes =
  if existsb isRootChange changes then []
  else concat (map getCellsForChange changes).
Proof.
  unfold getCellsForChanges. rewrite getCellsForChanges_from_concat.
  by destruct (existsb isRootChange changes).
Qed.

(** A layout is run on the root. *)
Definition lays_out (root : option mxCell) (c : Call) : bool :=
  match c with
  | CallLayoutExecute cell _ => same_cell (Some cell) root
  | _ => false
  end.

Lemma layoutCells_loop_spares_root root cells :
  (forall m, model_getRoot env m = root) ->
  forall last bubble,
    adds (fun c => lays_out root c = false) (layoutCells_loop cells last bubble).
Proof.
  intros Hroot. induction cells as [|cell rest IH]; intros last bubble.
  - apply adds_ret.
  - intros w. cbn [layoutCells_loop]. unfold bind at 1, gets. rewrite Hroot.
    destruct (same_cell (Some cell) root) eqn:Hcell; cbn [negb andb]; [apply IH|].
    destruct (negb (same_cell (Some cell) last)); [|apply IH].
    apply adds_bind; [|intros _; apply IH].
    unfold executeLayout. destruct (getLayout this _ _); [|apply adds_ret].
    apply adds_bind; [by apply adds_issue | intros _; apply adds_on_model].
Qed.

(** As long as the model keeps its root, [layoutCells] never runs a layout
    on the root cell, however often the cell occurs in the list. *)
Theorem layoutCells_spares_root
  (root : option mxCell) (cells : list mxCell) (bubble : bool) (w : World) :
  (forall m, model_getRoot env m = root) ->
  exists new,
    calls (layoutCells cells bubble w).2 = calls w ++ new /\
    Forall (fun c => lays_out root c = false) new.
Proof.
  intros Hroot. revert w.
  change (adds (fun c => lays_out root c = false) (layoutCells cells bubble)).
  unfold layoutCells. destruct (0 <? length cells); [|apply adds_ret].
  apply adds_bind.
  { apply adds_bind; [by apply adds_issue|]. intros _ w. exists [].
    by rewrite app_nil_r. }
  intros _ w. unfold try_finally.
  assert (adds (fun c => lays_out root c = false) (layoutCells_body cells bubble)) as Hb.
  { apply adds_bind; [by apply layoutCells_loop_spares_root|]. intros _.
    apply adds_bind; [by apply adds_issue | intros _; apply adds_on_model]. }
  destruct (Hb w) as (n1 & E1 & F1).
  destruct (layoutCells_body cells bubble w) as [rb wb]. cbn [snd] in E1.
  assert (adds (fun c => lays_out root c = false) endUpdate) as He.
  { apply adds_bind; [by apply adds_issue | intros _; apply adds_on_model]. }
  destruct (He wb) as (n2 & E2 & F2).
  destruct (endUpdate wb) as [[[]|e] we]; cbn [snd] in *;
    exists (n1 ++ n2); rewrite E2, E1, <- app_assoc;
    (split; [done | by apply Forall_app]).
Qed.

Lemma layoutCells_loop_without_layouts cells :
  (forall cell event, getLayout this cell event = None) ->
  forall last bubble w, layoutCells_loop cells last bubble w = (Returned tt, w).
Proof.
  intros Hnone. induction cells as [|cell rest IH]; intros last bubble w; [done|].
  cbn [layoutCells_loop]. unfold bind at 1, gets.
  destruct (_ && _); [|apply IH].
  unfold bind, executeLayout. rewrite Hnone. cbn. apply IH.
Qed.

(** A manager whose [getLayout] returns [null] throughout, like the one of
    the class itself, still collects the cell of a change and its ancestors,
    and for a non-empty list of cells [layoutCells] still opens an update,
    fires [LAYOUT_CELLS] and closes the update, without a single layout
    being run in between. *)
Theorem manager_without_layouts
  (cell : mxCell) (rest : list mxCell) (bubble : bool) (w : World) :
  (forall c event, getLayout this c event = None) ->
  getCellsForChange (mxGeometryChange (Some cell)) =
    cell :: (if bubbling this then ancestors cell else []) /\
  calls (layoutCells (cell :: rest) bubble w).2 =
    calls w ++ [CallBeginUpdate; CallFireEvent LAYOUT_CELLS (cell :: rest);
                CallEndUpdate].
Proof.
  intros Hnone. split.
  - cbn [getCellsForChange]. unfold addCellsWithLayout. cbn.
    rewrite addDescendantsWithLayout_cell_unfold. unfold hasLayout.
    rewrite Hnone. by rewrite addAncestorsWithLayout_cell_eq.
  - rewrite layoutCells_cons. unfold layoutCells_body, bind.
    rewrite (layoutCells_loop_without_layouts _ Hnone).
    unfold fireEvent, bind, issue, modify, on_model. cbn [model calls begun].
    destruct (layoutCells_listeners env (cell :: rest) _) as [[[]|e] m1];
      cbn [model calls];
      destruct (model_endUpdate env m1) as [re me]; cbn [snd calls];
      by rewrite <- !app_assoc.
Qed.

(** The event name under which [executeLayout] asks for the layout. *)
Definition phase (bubble : bool) : mxEvent :=
  if bubble then BEGIN_UPDATE else END_UPDATE.

(** The loop of [layoutCells] when no layout throws: it returns, and every
    cell with a layout that is not the root has had that layout run, or is
    the cell the loop was started with as [last]. *)
Lemma layoutCells_loop_runs_layouts (root : option mxCell) (bubble : bool) :
  (forall m, model_getRoot env m = root) ->
  (forall layout cell m, (layout_execute env layout cell m).1 = Returned tt) ->
  (forall c d event, getId c = getId d ->
     getLayout this (Some c) event = getLayout this (Some d) event) ->
  forall cells last w,
    exists new w1,
      layoutCells_loop cells last bubble w = (Returned tt, w1) /\
      calls w1 = calls w ++ new /\
      forall cell layout,
        cell ∈ cells -> same_cell (Some cell) root = false ->
        getLayout this (Some cell) (phase bubble) = Some layout ->
        (exists c, getId c = getId cell /\ CallLayoutExecute c bubble ∈ new) \/
        same_cell (Some cell) last = true.
Proof.
  intros Hroot Hquiet Hid.
  induction cells as [|c rest IH]; intros last w.
  - exists [], w. split; [done|]. split; [by rewrite app_nil_r|].
    intros cell layout Hin. by apply elem_of_nil in Hin.
  - cbn [layoutCells_loop]. unfold bind at 1, gets. rewrite Hroot.
    destruct (same_cell (Some c) root) eqn:Hc; cbn [negb andb].
    { destruct (IH last w) as (new & w1 & Hrun & Hcalls & Hlive).
      exists new, w1. split; [done|]. split; [done|].
      intros cell layout Hin Hnr Hl.
      apply elem_of_cons in Hin as [->|Hin]; [congruence | by eapply Hlive]. }
    destruct (same_cell (Some c) last) eqn:Hlast; cbn [negb].
    { destruct (IH last w) as (new & w1 & Hrun & Hcalls & Hlive).
      exists new, w1. split; [done|]. split; [done|].
      intros cell layout Hin Hnr Hl.
      apply elem_of_cons in Hin as [->|Hin]; [by right | by eapply Hlive]. }
    unfold bind at 1, executeLayout. fold (phase bubble).
    destruct (getLayout this (Some c) (phase bubble)) as [lc|] eqn:Hlc.
    + unfold bind at 1, issue, modify, on_model. cbn [model calls].
      specialize (Hquiet lc c (model w)).
      destruct (layout_execute env lc c (model w)) as [[[]|e] m1]; [|done].
      destruct (IH (Some c) {| model := m1;
                               calls := calls w ++ [CallLayoutExecute c bubble] |})
        as (new & w1 & Hrun & Hcalls & Hlive).
      exists (CallLayoutExecute c bubble :: new), w1.
      split; [done|]. split; [by rewrite Hcalls; cbn; rewrite <- app_assoc|].
      intros cell layout Hin Hnr Hl. left.
      apply elem_of_cons in Hin as [->|Hin].
      * exists c. split; [done | apply list_elem_of_here].
      * destruct (Hlive cell layout Hin Hnr Hl) as [(c' & Hc' & Hin') | Hsame].
        -- exists c'. split; [done | by apply list_elem_of_further].
        -- exists c. split; [|apply list_elem_of_here].
           cbn in Hsame. by apply Nat.eqb_eq in Hsame.
    + destruct (IH (Some c) w) as (new & w1 & Hrun & Hcalls & Hlive).
      exists new, w1. split; [done|]. split; [done|].
      intros cell layout Hin Hnr Hl. left.
      apply elem_of_cons in Hin as [->|Hin]; [congruence|].
      destruct (Hlive cell layout Hin Hnr Hl) as [Hex | Hsame]; [done|].
      cbn in Hsame. apply Nat.eqb_eq in Hsame.
      rewrite (Hid cell c (phase bubble) Hsame) in Hl. congruence.
Qed.

(** [layoutCells] leaves no cell out. When the model keeps its root, no
    layout throws and [getLayout] goes by the identity of the cell, then
    every cell of the list that is not the root and has a layout for the
    phase gets that layout run, whatever the listeners of [LAYOUT_CELLS]
    and [endUpdate] do afterwards; leaving out a cell that equals the one
    before loses nothing. *)
Theorem layoutCells_runs_every_layout
  (root : option mxCell) (cells : list mxCell) (bubble : bool) (w : World) :
  (forall m, model_getRoot env m = root) ->
  (forall layout cell m, (layout_execute env layout cell m).1 = Returned tt) ->
  (forall c d event, getId c = getId d ->
     getLayout this (Some c) event = getLayout this (Some d) event) ->
  exists new,
    calls (layoutCells cells bubble w).2 = calls w ++ new /\
    forall cell layout,
      cell ∈ cells -> same_cell (Some cell) root = false ->
      getLayout this (Some cell) (phase bubble) = Some layout ->
      exists c, getId c = getId cell /\ CallLayoutExecute c bubble ∈ new.
Proof.
  intros Hroot Hquiet Hid.
  destruct cells as [|cell0 rest].
  { exists []. split; [by rewrite app_nil_r|].
    intros cell layout Hin. by apply elem_of_nil in Hin. }
  rewrite layoutCells_cons. unfold layoutCells_body. unfold bind at 1.
  destruct (layoutCells_loop_runs_layouts root bubble Hroot Hquiet Hid
              (cell0 :: rest) None (begun w)) as (new & w1 & -> & Hcalls & Hlive).
  unfold fireEvent, bind, issue, modify, on_model. cbn [model calls].
  exists (CallBeginUpdate :: new ++
          [CallFireEvent LAYOUT_CELLS (cell0 :: rest); CallEndUpdate]).
  split.
  - destruct (layoutCells_listeners env (cell0 :: rest) (model w1)) as [[[]|e] m1];
      cbn [model calls];
      destruct (model_endUpdate env m1) as [re me]; cbn [snd calls];
      rewrite Hcalls; cbn [begun calls]; rewrite <- !app_assoc; done.
  - intros cell layout Hin Hnr Hl.
    destruct (Hlive cell layout Hin Hnr Hl) as [(c & Hc & Hin') | Hsame]; [|done].
    exists c. split; [done|]. apply list_elem_of_further.
    apply elem_of_app. by left.
Qed.

(** A call of one phase of [executeLayoutForCells] over the cells [cells]:
    a layout run for one of the cells in that phase, or the [LAYOUT_CELLS]
    event with the cells in the order of the phase. *)
Definition in_phase (bubble : bool) (cells order : list mxCell) (c : Call) : Prop :=
  match c with
  | CallLayoutExecute cell b => b = bubble /\ cell ∈ cells
  | CallFireEvent name cs => name = LAYOUT_CELLS /\ cs = order
  | CallBeginUpdate | CallEndUpdate => True
  end.

Lemma layoutCells_loop_in_phase bubble cells order rest :
  (forall c, c ∈ rest -> c ∈ cells) ->
  forall last, adds (in_phase bubble cells order) (layoutCells_loop rest last bubble).
Proof.
  induction rest as [|c rest IH]; intros Hsub last; cbn [layoutCells_loop].
  - apply adds_ret.
  - assert (forall d, d ∈ rest -> d ∈ cells) as Hrest
      by (intros d Hd; apply Hsub; by apply list_elem_of_further).
    apply adds_bind; [apply adds_gets|]. intros root.
    destruct (_ && _); [|by apply IH].
    apply adds_bind; [|intros _; by apply IH].
    unfold executeLayout. destruct (getLayout this _ _); [|apply adds_ret].
    apply adds_bind; [|intros _; apply adds_on_model].
    apply adds_issue. split; [done|]. apply Hsub, list_elem_of_here.
Qed.

Lemma layoutCells_in_phase bubble cells order :
  (forall c, c ∈ order -> c ∈ cells) ->
  adds (in_phase bubble cells order) (layoutCells order bubble).
Proof.
  intros Hsub. unfold layoutCells. destruct (0 <? length order); [|apply adds_ret].
  apply adds_bind.
  { apply adds_bind; [by apply adds_issue|]. intros _ w. exists [].
    by rewrite app_nil_r. }
  intros _ w. unfold try_finally.
  assert (adds (in_phase bubble cells order) (layoutCells_body order bubble)) as Hb.
  { apply adds_bind; [by apply layoutCells_loop_in_phase|]. intros _.
    apply adds_bind; [by apply adds_issue | intros _; apply adds_on_model]. }
  assert (adds (in_phase bubble cells order) endUpdate) as He.
  { apply adds_bind; [by apply adds_issue | intros _; apply adds_on_model]. }
  destruct (Hb w) as (n1 & E1 & F1).
  destruct (layoutCells_body order bubble w) as [rb wb]. cbn [snd] in E1.
  destruct (He wb) as (n2 & E2 & F2).
  destruct (endUpdate wb) as [[[]|e] w2]; cbn [snd] in E2 |- *;
    exists (n1 ++ n2); rewrite E2, E1, <- app_assoc;
    (split; [done | by apply Forall_app]).
Qed.

(** One phase, on a list [order] that is not empty: the calls between the
    [beginUpdate] and the [endUpdate] belong to the phase, and when the
    phase returns, the [LAYOUT_CELLS] event is among them. *)
Lemma layoutCells_phase bubble cells order w :
  (forall c, c ∈ order -> c ∈ cells) -> order <> [] ->
  exists inner,
    calls (layoutCells order bubble w).2 =
      calls w ++ CallBeginUpdate :: inner ++ [CallEndUpdate] /\
    Forall (in_phase bubble cells order) inner /\
    ((layoutCells order bubble w).1 = Returned tt ->
     CallFireEvent LAYOUT_CELLS order ∈ inner).
Proof.
  intros Hsub Hne. destruct order as [|c rest]; [done|].
  rewrite layoutCells_cons. unfold layoutCells_body, bind.
  destruct (layoutCells_loop_in_phase bubble cells (c :: rest) (c :: rest) Hsub
              None (begun w)) as (n1 & E1 & F1).
  destruct (layoutCells_loop (c :: rest) None bubble (begun w)) as [[[]|e] wl];
    cbn [snd] in E1.
  - unfold fireEvent, bind, issue, modify, on_model. cbn [model calls].
    exists (n1 ++ [CallFireEvent LAYOUT_CELLS (c :: rest)]).
    destruct (layoutCells_listeners env (c :: rest) (model wl)) as [[[]|e] m1];
      cbn [model calls];
      destruct (model_endUpdate env m1) as [re me]; cbn [fst snd calls];
      (split; [rewrite E1; cbn [begun calls]; by rewrite <- !app_assoc|]);
      (split; [apply Forall_app; split; [done | by repeat constructor]|]);
      intros _; apply elem_of_app; right; apply list_elem_of_here.
  - exists n1. destruct (model_endUpdate env (model wl)) as [re me].
    cbn [fst snd calls]. split; [rewrite E1; cbn [begun calls];
                                  by rewrite <- !app_assoc|].
    split; [done|]. by destruct re.
Qed.

(** [executeLayoutForCells] runs two phases one after the other, each in an
    update of its own. The first asks for the layouts under [BEGIN_UPDATE]
    and fires [LAYOUT_CELLS] with the sorted cells; when it throws, that is
    the end and the exception. When it returns, the second phase runs on the
    model it left: it is [layoutCells] on the sorted cells reversed, asks for
    the layouts under [END_UPDATE], opens and closes its update also when it
    throws, and has fired [LAYOUT_CELLS] with the reversed cells when it
    returns. In both phases only cells of the argument are laid out. *)
Theorem executeLayoutForCells_two_phases (cells : list mxCell) (w : World) :
  sortCells_permutes -> cells <> [] ->
  let sorted := sortCells env cells false in
  exists first,
    calls (layoutCells sorted true w).2 =
      calls w ++ CallBeginUpdate :: first ++ [CallEndUpdate] /\
    Forall (in_phase true cells sorted) first /\
    match layoutCells sorted true w with
    | (Threw e, w1) => executeLayoutForCells cells w = (Threw e, w1)
    | (Returned _, w1) =>
        CallFireEvent LAYOUT_CELLS sorted ∈ first /\
        executeLayoutForCells cells w = layoutCells (reverse sorted) false w1 /\
        exists second,
          calls (executeLayoutForCells cells w).2 =
            calls w1 ++ CallBeginUpdate :: second ++ [CallEndUpdate] /\
          Forall (in_phase false cells (reverse sorted)) second /\
          ((executeLayoutForCells cells w).1 = Returned tt ->
           CallFireEvent LAYOUT_CELLS (reverse sorted) ∈ second)
    end.
Proof.
  intros Hs Hne sorted.
  assert (forall c, c ∈ sorted -> c ∈ cells) as Hsub.
  { intros c Hc. by rewrite <- (Hs cells false). }
  assert (forall c, c ∈ reverse sorted -> c ∈ cells) as Hrev.
  { intros c Hc. apply Hsub. by apply elem_of_reverse. }
  assert (sorted <> []) as Hsorted.
  { intros Hnil. apply Hne. apply Permutation_nil. rewrite <- Hnil.
    apply (Hs cells false). }
  assert (reverse sorted <> []) as Hreversed.
  { intros Hnil. apply Hsorted. by rewrite <- (reverse_involutive sorted), Hnil. }
  destruct (layoutCells_phase true cells sorted w Hsub Hsorted)
    as (first & E1 & F1 & Hfired).
  exists first. split; [exact E1|]. split; [exact F1|].
  unfold executeLayoutForCells. fold sorted. unfold bind.
  destruct (layoutCells sorted true w) as [[[]|e] w1]; [|done].
  split; [by apply Hfired|]. split; [done|].
  destruct (layoutCells_phase false cells (reverse sorted) w1 Hrev Hreversed)
    as (second & E2 & F2 & Hfired2).
  by exists second.
Qed.

End Manager.

Arguments Collaborators : clear implicits.
Arguments mxLayoutManager : clear implicits.
Arguments World : clear implicits.

(** *** The handlers for moved and resized cells *)

Section Gestures.

(** The model, the layouts, the mouse event of a move, the rectangles of a
    resize and the coordinates of a point. The manager is attached to a
    graph, as its constructor leaves it. *)
Context {Model Layout MouseEvent Rectangle Coordinate : Type}.

Variable this : mxLayoutManager Layout.

(** [mxUtils.convertPoint(graph.container, getClientX(evt), getClientY(evt))] *)
Variable convertPoint : MouseEvent -> Coordinate * Coordinate.
(** [layout.moveCell(cell, x, y)] and [layout.resizeCell(cell, bounds, prev)]
    of a layout returned by [getLayout]. *)
Variable layout_moveCell :
  Layout -> mxCell -> Coordinate -> Coordinate -> Eff Model unit.
Variable layout_resizeCell :
  Layout -> mxCell -> option Rectangle -> option mxCell -> Eff Model unit.

(** The calls the two handlers issue on layouts, in order. *)
Inductive LayoutCall : Type :=
| CallMoveCell (layout : Layout) (cell : mxCell) (x y : Coordinate)
| CallResizeCell (layout : Layout) (cell : mxCell)
    (bounds : option Rectangle) (prev : option mxCell).

Record Gesture : Type := { gesture_model : Model; gesture_calls : list LayoutCall }.

Definition on_layout {A} (m : Eff Model A) : Eff Gesture A :=
  fun g =>
    match m (gesture_model g) with
    | (r, m') => (r, {| gesture_model := m'; gesture_calls := gesture_calls g |})
    end.

Definition note (c : LayoutCall) : Eff Gesture unit :=
  modify (fun g => {| gesture_model := gesture_model g;
                      gesture_calls := gesture_calls g ++ [c] |}).

(** The [for] loop of [cellsMoved]. *)
Fixpoint cellsMoved_loop (cells : list mxCell) (point : Coordinate * Coordinate)
  : Eff Gesture unit :=
  match cells with
  | [] => ret tt
  | cell :: rest =>
      match getLayout this (getParent cell) MOVE_CELLS with
      | Some layout =>
          note (CallMoveCell layout cell point.1 point.2) ;;;
          on_layout (layout_moveCell layout cell point.1 point.2) ;;;
          cellsMoved_loop rest point
      | None => cellsMoved_loop rest point
      end
  end.

Definition cellsMoved (cells : option (list mxCell)) (evt : option MouseEvent)
  : Eff Gesture unit :=
  match cells, evt with
  | Some cells, Some evt => cellsMoved_loop cells (convertPoint evt)
  | _, _ => ret tt
  end.

(** The [for] loop of [cellsResized] from index [i] on; [bounds[i]] and
    [prev?.[i]] are [undefined] where the arrays end or [prev] is [null]. *)
Fixpoint cellsResized_loop (i : nat) (cells : list mxCell)
  (bounds : list Rectangle) (prev : option (list mxCell)) : Eff Gesture unit :=
  match cells with
  | [] => ret tt
  | cell :: rest =>
      match getLayout this (getParent cell) RESIZE_CELLS with
      | Some layout =>
          let b := bounds !! i in
          let p := prev ≫= (fun cs => cs !! i) in
          note (CallResizeCell layout cell b p) ;;;
          on_layout (layout_resizeCell layout cell b p) ;;;
          cellsResized_loop (S i) rest bounds prev
      | None => cellsResized_loop (S i) rest bounds prev
      end
  end.

Definition cellsResized (cells : option (list mxCell))
  (bounds : option (list Rectangle)) (prev : option (list mxCell))
  : Eff Gesture unit :=
  match cells, bounds with
  | Some cells, Some bounds => cellsResized_loop 0 cells bounds prev
  | _, _ => ret tt
  end.

(** The properties [cells] and [event] of a [MOVE_CELLS] event, and
    [cells], [bounds] and [previous] of a [RESIZE_CELLS] event. *)
Record MoveEvent : Type := {
  move_cells : option (list mxCell);
  move_event : option MouseEvent
}.

Record ResizeEvent : Type := {
  resize_cells : option (list mxCell);
  resize_bounds : option (list Rectangle);
  resize_previous : option (list mxCell)
}.

Definition moveHandler (evt : MoveEvent) : Eff Gesture unit :=
  if isEnabled this then cellsMoved (move_cells evt) (move_event evt) else ret tt.

Definition resizeHandler (evt : ResizeEvent) : Eff Gesture unit :=
  if isEnabled this
  then cellsResized (resize_cells evt) (resize_bounds evt) (resize_previous evt)
  else ret tt.

(** [m] only adds calls that satisfy [P], whether it returns or throws. *)
Definition notes {A} (P : LayoutCall -> Prop) (m : Eff Gesture A) : Prop :=
  forall g, exists new,
    gesture_calls (m g).2 = gesture_calls g ++ new /\ Forall P new.

Lemma notes_ret {A} P (a : A) : notes P (ret a).
Proof. intros g. exists []. by rewrite app_nil_r. Qed.

Lemma notes_note (P : LayoutCall -> Prop) c : P c -> notes P (note c).
Proof. intros Hc g. exists [c]. split; [done | by constructor]. Qed.

Lemma notes_on_layout {A} P (m : Eff Model A) : notes P (on_layout m).
Proof.
  intros g. exists []. unfold on_layout.
  destruct (m (gesture_model g)) as [r m']. by rewrite app_nil_r.
Qed.

Lemma notes_bind {A B} P (m : Eff Gesture A) (k : A -> Eff Gesture B) :
  notes P m -> (forall a, notes P (k a)) -> notes P (bind m k).
Proof.
  intros Hm Hk g. unfold bind.
  destruct (Hm g) as (n1 & E1 & F1).
  destruct (m g) as [[a|e] g1]; cbn in E1.
  - destruct (Hk a g1) as (n2 & E2 & F2).
    exists (n1 ++ n2). rewrite E2, E1, <- app_assoc.
    split; [done | by apply Forall_app].
  - by exists n1.
Qed.

(** A call [layout.moveCell(cell, x, y)] as [moveHandler] may issue it for
    the cells and the mouse event of a [MOVE_CELLS] event. *)
Definition move_of (evt : MoveEvent) (c : LayoutCall) : Prop :=
  match c with
  | CallMoveCell layout cell x y =>
      enabled this = true /\
      (exists cells, move_cells evt = Some cells /\ cell ∈ cells) /\
      getLayout this (getParent cell) MOVE_CELLS = Some layout /\
      (exists e, move_event evt = Some e /\ (x, y) = convertPoint e)
  | CallResizeCell _ _ _ _ => False
  end.

(** A call [layout.resizeCell(cell, bounds, prev)] as [resizeHandler] may
    issue it for the arrays of a [RESIZE_CELLS] event. *)
Definition resize_of (evt : ResizeEvent) (c : LayoutCall) : Prop :=
  match c with
  | CallResizeCell layout cell b p =>
      enabled this = true /\
      getLayout this (getParent cell) RESIZE_CELLS = Some layout /\
      exists i cells bounds,
        resize_cells evt = Some cells /\ resize_bounds evt = Some bounds /\
        cells !! i = Some cell /\
        b = bounds !! i /\
        p = resize_previous evt ≫= (fun cs => cs !! i)
  | CallMoveCell _ _ _ _ => False
  end.

Lemma cellsMoved_loop_notes (P : LayoutCall -> Prop) point cells :
  (forall layout cell,
      cell ∈ cells ->
      getLayout this (getParent cell) MOVE_CELLS = Some layout ->
      P (CallMoveCell layout cell point.1 point.2)) ->
  notes P (cellsMoved_loop cells point).
Proof.
  induction cells as [|cell rest IH]; intros HP; cbn [cellsMoved_loop].
  - apply notes_ret.
  - assert (notes P (cellsMoved_loop rest point)) as Hrest.
    { apply IH. intros layout c Hc. apply HP. by apply list_elem_of_further. }
    destruct (getLayout this (getParent cell) MOVE_CELLS) as [layout|] eqn:Hl;
      [|exact Hrest].
    apply notes_bind; [apply notes_note, HP; [apply list_elem_of_here | done]|].
    intros _. apply notes_bind; [apply notes_on_layout | intros _; exact Hrest].
Qed.

Lemma cellsResized_loop_notes (P : LayoutCall -> Prop) bounds prev cells :
  forall i,
    (forall layout cell k,
        cells !! k = Some cell ->
        getLayout this (getParent cell) RESIZE_CELLS = Some layout ->
        P (CallResizeCell layout cell (bounds !! (i + k))
             (prev ≫= (fun cs => cs !! (i + k))))) ->
    notes P (cellsResized_loop i cells bounds prev).
Proof.
  induction cells as [|cell rest IH]; intros i HP; cbn [cellsResized_loop].
  - apply notes_ret.
  - assert (notes P (cellsResized_loop (S i) rest bounds prev)) as Hrest.
    { apply IH. intros layout c k Hk Hl.
      replace (S i + k) with (i + S k) by lia. by apply HP. }
    destruct (getLayout this (getParent cell) RESIZE_CELLS) as [layout|] eqn:Hl;
      [|exact Hrest].
    apply notes_bind.
    { apply notes_note. specialize (HP layout cell 0 eq_refl Hl).
      by rewrite Nat.add_0_r in HP. }
    intros _. apply notes_bind; [apply notes_on_layout | intros _; exact Hrest].
Qed.

(** Every [moveCell] that [moveHandler] calls is for a cell of the event,
    on the layout that [getLayout] has for the parent of that cell, with
    the one point converted from the mouse event; a disabled manager, or an
    event without cells or mouse event, leads to no call at all. *)
Theorem moveHandler_calls (evt : MoveEvent) (g : Gesture) :
  exists new,
    gesture_calls (moveHandler evt g).2 = gesture_calls g ++ new /\
    Forall (move_of evt) new.
Proof.
  revert g. change (notes (move_of evt) (moveHandler evt)).
  unfold moveHandler, isEnabled.
  destruct (enabled this) eqn:He; [|apply notes_ret].
  unfold cellsMoved.
  destruct (move_cells evt) as [cells|] eqn:Hc; [|apply notes_ret].
  destruct (move_event evt) as [e|] eqn:Hevt; [|apply notes_ret].
  apply cellsMoved_loop_notes. intros layout cell Hin Hl. cbn.
  split; [done|]. split; [by exists cells|]. split; [done|].
  exists e. split; [done|]. by destruct (convertPoint e).
Qed.

(** Every [resizeCell] that [resizeHandler] calls is for a cell of the
    event, on the layout that [getLayout] has for the parent of that cell,
    with the entries of [bounds] and [previous] at the index of the cell,
    [undefined] where an array is shorter or [previous] is missing. *)
Theorem resizeHandler_calls (evt : ResizeEvent) (g : Gesture) :
  exists new,
    gesture_calls (resizeHandler evt g).2 = gesture_calls g ++ new /\
    Forall (resize_of evt) new.
Proof.
  revert g. change (notes (resize_of evt) (resizeHandler evt)).
  unfold resizeHandler, isEnabled.
  destruct (enabled this) eqn:He; [|apply notes_ret].
  unfold cellsResized.
  destruct (resize_cells evt) as [cells|] eqn:Hc; [|apply notes_ret].
  destruct (resize_bounds evt) as [bounds|] eqn:Hb; [|apply notes_ret].
  apply cellsResized_loop_notes. intros layout cell k Hk Hl. cbn.
  split; [done|]. split; [done|]. by exists k, cells, bounds.
Qed.

End Gestures.

(** *** Attaching the manager to a graph *)

(** A graph as [setGraph] sees it: its identity and the identity of the
    model that its [getModel()] returns, the same at every call. *)
Record mxGraph : Type := { graph_id : nat; graph_model : nat }.

Inductive Handler : Type := UndoHandler | MoveHandler | ResizeHandler.

Inductive Target : Type := OnModel (id : nat) | OnGraph (id : nat).

(** The calls of [setGraph] on the event sources, in order. *)
Inductive ListenerCall : Type :=
| CallAddListener (target : Target) (name : mxEvent) (handler : Handler)
| CallRemoveListener (target : Target) (handler : Handler).

Record Attachment : Type := {
  graph : option mxGraph;
  listener_calls : list ListenerCall
}.

Definition setGraph (g : option mxGraph) (this : Attachment) : Attachment :=
  let removed :=
    match graph this with
    | Some old =>
        [CallRemoveListener (OnModel (graph_model old)) UndoHandler;
         CallRemoveListener (OnGraph (graph_id old)) MoveHandler;
         CallRemoveListener (OnGraph (graph_id old)) ResizeHandler]
    | None => []
    end in
  let added :=
    match g with
    | Some new =>
        [CallAddListener (OnModel (graph_model new)) BEFORE_UNDO UndoHandler;
         CallAddListener (OnGraph (graph_id new)) MOVE_CELLS MoveHandler;
         CallAddListener (OnGraph (graph_id new)) RESIZE_CELLS ResizeHandler]
    | None => []
    end in
  {| graph := g; listener_calls := listener_calls this ++ removed ++ added |}.

Definition getGraph (this : Attachment) : option mxGraph := graph this.

Definition destroy (this : Attachment) : Attachment := setGraph None this.

(** The manager as the constructor leaves it, and after further calls of
    [setGraph]. *)
Definition constructed (g : option mxGraph) : Attachment :=
  setGraph g {| graph := None; listener_calls := [] |}.

Definition reattached (gs : list (option mxGraph)) (this : Attachment) : Attachment :=
  foldl (fun a g => setGraph g a) this gs.

Definition same_handler (a b : Handler) : bool :=
  match a, b with
  | UndoHandler, UndoHandler | MoveHandler, MoveHandler
  | ResizeHandler, ResizeHandler => true
  | _, _ => false
  end.

Definition same_target (a b : Target) : bool :=
  match a, b with
  | OnModel i, OnModel j | OnGraph i, OnGraph j => Nat.eqb i j
  | _, _ => false
  end.

(** How often [handler] is registered on [target] after the calls [cs],
    starting from [n] registrations; [None] when a registration is removed
    that is not there. *)
Fixpoint registrations (target : Target) (handler : Handler)
  (cs : list ListenerCall) (n : nat) : option nat :=
  match cs with
  | [] => Some n
  | CallAddListener t _ h :: rest =>
      registrations target handler rest
        (if same_target t target && same_handler h handler then S n else n)
  | CallRemoveListener t h :: rest =>
      if same_target t target && same_handler h handler
      then match n with
           | 0 => None
           | S k => registrations target handler rest k
           end
      else registrations target handler rest n
  end.

(** Whether a manager attached to [g] is meant to listen on [target] with
    [handler]. *)
Definition listens (g : option mxGraph) (target : Target) (handler : Handler) : bool :=
  match g with
  | Some g =>
      same_target (OnModel (graph_model g)) target && same_handler UndoHandler handler ||
      same_target (OnGraph (graph_id g)) target &&
        (same_handler MoveHandler handler || same_handler ResizeHandler handler)
  | None => false
  end.

(** A registration that [setGraph] makes: each handler for its own event. *)
Definition well_named (c : ListenerCall) : Prop :=
  match c with
  | CallAddListener (OnModel _) BEFORE_UNDO UndoHandler
  | CallAddListener (OnGraph _) MOVE_CELLS MoveHandler
  | CallAddListener (OnGraph _) RESIZE_CELLS ResizeHandler
  | CallRemoveListener _ _ => True
  | _ => False
  end.

Lemma registrations_app target handler cs cs' n :
  registrations target handler (cs ++ cs') n =
  registrations target handler cs n ≫= registrations target handler cs'.
Proof.
  revert n. induction cs as [|c cs IH]; intros n; [done|].
  destruct c as [t name h|t h]; cbn [app registrations]; [apply IH|].
  destruct (_ && _); [|apply IH]. destruct n; [done | apply IH].
Qed.

Lemma setGraph_registrations g this target handler :
  registrations target handler (listener_calls this) 0 =
    Some (if listens (graph this) target handler then 1 else 0) ->
  registrations target handler (listener_calls (setGraph g this)) 0 =
    Some (if listens g target handler then 1 else 0).
Proof.
  intros Hthis. unfold setGraph. cbn [listener_calls].
  rewrite registrations_app, Hthis. cbn [mbind option_bind].
  rewrite registrations_app.
  assert (registrations target handler
            match graph this with
            | Some old =>
                [CallRemoveListener (OnModel (graph_model old)) UndoHandler;
                 CallRemoveListener (OnGraph (graph_id old)) MoveHandler;
                 CallRemoveListener (OnGraph (graph_id old)) ResizeHandler]
            | None => []
            end (if listens (graph this) target handler then 1 else 0) = Some 0)
    as ->.
  { destruct (graph this) as [old|]; [|done]. cbn.
    destruct target as [i|i], handler; cbn; rewrite ?andb_false_r; cbn;
      try done; by destruct (_ =? _). }
  cbn [mbind option_bind].
  destruct g as [new|]; [|done]. cbn.
  destruct target as [i|i], handler; cbn; rewrite ?andb_false_r; cbn;
    try done; by destruct (_ =? _).
Qed.

Lemma setGraph_well_named g this :
  Forall well_named (listener_calls this) ->
  Forall well_named (listener_calls (setGraph g this)).
Proof.
  intros H. unfold setGraph. cbn [listener_calls].
  apply Forall_app. split; [done|]. apply Forall_app. split.
  - destruct (graph this); by repeat constructor.
  - destruct g; by repeat constructor.
Qed.

(** The manager listens to the graph it is attached to and to nothing
    else. After the constructor and any number of calls of [setGraph], each
    of its three handlers is registered exactly once, the undo handler on
    the model of the current graph for [BEFORE_UNDO], the other two on the
    graph for [MOVE_CELLS] and [RESIZE_CELLS]; no registration is left on a
    graph it was attached to before, none is removed that was not made, and
    after [destroy] none is left at all. *)
Theorem listens_to_current_graph
  (g : option mxGraph) (gs : list (option mxGraph)) (target : Target)
  (handler : Handler) :
  let this := reattached gs (constructed g) in
  graph this = last (g :: gs) ≫= id /\
  Forall well_named (listener_calls this) /\
  registrations target handler (listener_calls this) 0 =
    Some (if listens (graph this) target handler then 1 else 0) /\
  graph (destroy this) = None /\
  registrations target handler (listener_calls (destroy this)) 0 = Some 0.
Proof.
  cbv zeta.
  assert (forall gs this,
            Forall well_named (listener_calls this) ->
            registrations target handler (listener_calls this) 0 =
              Some (if listens (graph this) target handler then 1 else 0) ->
            graph (reattached gs this) = last (graph this :: gs) ≫= id /\
            Forall well_named (listener_calls (reattached gs this)) /\
            registrations target handler (listener_calls (reattached gs this)) 0 =
              Some (if listens (graph (reattached gs this)) target handler
                    then 1 else 0)) as Hinv.
  { clear gs. induction gs as [|g1 gs IH]; intros this Hn Hr.
    - cbn. split; [by destruct (graph this)|done].
    - cbn [reattached foldl]. fold (reattached gs (setGraph g1 this)).
      destruct (IH (setGraph g1 this)) as (Hg & Hn' & Hr').
      + by apply setGraph_well_named.
      + by apply setGraph_registrations.
      + split; [|done]. rewrite Hg. cbn [graph setGraph].
        by rewrite !last_cons_cons. }
  destruct (Hinv gs (constructed g)) as (Hg & Hn & Hr).
  - by apply setGraph_well_named.
  - by apply setGraph_registrations.
  - split; [exact Hg|]. split; [exact Hn|]. split; [exact Hr|]. split; [done|].
    unfold destroy. by rewrite (setGraph_registrations None _ _ _ Hr).
Qed.

(** *** A concrete manager *)

(** A model that only counts its open updates, with layouts named by a
    string; the layout named [boom] throws. *)
Definition counting_model : Collaborators nat string := {|
  model_beginUpdate := S;
  model_endUpdate := fun level => (Returned tt, Nat.pred level);
  model_getRoot := fun _ => None;
  layout_execute := fun layout _ =>
    if String.eqb layout "boom" then throw "layout failed" else ret tt;
  layoutCells_listeners := fun _ => ret tt;
  sortCells := fun cells ascending => if ascending then cells else reverse cells
|}.

Lemma counting_model_sorts : sortCells_permutes counting_model.
Proof.
  intros cells [|]; cbn; [reflexivity | apply reverse_Permutation].
Defined.

(** [getLayout] as the class defines it: it returns [null]. *)
Definition plain_manager : mxLayoutManager string :=
  {| bubbling := true; enabled := true; getLayout := fun _ _ => None |}.

(** A manager whose every cell has the throwing layout. *)
Definition failing_manager : mxLayoutManager string :=
  {| bubbling := true; enabled := true; getLayout := fun _ _ => Some "boom" |}.

Definition layer : mxCell := MxCell 1 None [].
Definition group : mxCell := MxCell 2 (Some layer) [].
Definition vertex : mxCell :=
  MxCell 3 (Some group) [MxCell 4 None []; MxCell 5 None []].

Definition idle : World nat := {| model := 0; calls := [] |}.

Example ancestors_without_layout :
  hasLayout plain_manager (Some vertex) = false /\
  addAncestorsWithLayout plain_manager (Some vertex) [] = [vertex; group; layer] /\
  addDescendantsWithLayout plain_manager (Some vertex) [] = [].
Proof. repeat split. Qed.

Example layout_throws_update_closed :
  layoutCells counting_model failing_manager [vertex] true idle =
  (Threw "layout failed",
   {| model := 0;
      calls := [CallBeginUpdate; CallLayoutExecute vertex true; CallEndUpdate] |}).
Proof. reflexivity. Qed.

Lemma beforeUndo_empty_edit_witness :
  getCellsForChanges plain_manager [] = [] /\
  layoutCells counting_model plain_manager [] true idle = (Returned tt, idle) /\
  beforeUndo counting_model plain_manager {| changes := [] |} idle = (Returned tt, idle) /\
  undoHandler counting_model plain_manager {| changes := [] |} idle = (Returned tt, idle).
Proof.
  apply (beforeUndo_empty_edit counting_model plain_manager idle true).
  exact counting_model_sorts.
Defined.

(** A move and a resize of [vertex] with a root change in between. *)
Definition edit_with_root_change : UndoableEdit :=
  {| changes := [mxChildChange (Some vertex) (Some layer);
                 mxRootChange;
                 mxGeometryChange (Some vertex)] |}.

Lemma root_change_suppresses_layout_witness :
  getCellsForChanges plain_manager (changes edit_with_root_change) = [] /\
  beforeUndo counting_model plain_manager edit_with_root_change idle =
    (Returned tt, idle).
Proof.
  apply (root_change_suppresses_layout counting_model plain_manager
           edit_with_root_change idle).
  - exact counting_model_sorts.
  - apply Exists_cons_tl, Exists_cons_hd. reflexivity.
Defined.

(** A model whose root is [layer], and a manager with a layout for every
    cell. *)
Definition rooted_model : Collaborators nat string := {|
  model_beginUpdate := S;
  model_endUpdate := fun level => (Returned tt, Nat.pred level);
  model_getRoot := fun _ => Some layer;
  layout_execute := fun _ _ => ret tt;
  layoutCells_listeners := fun _ => ret tt;
  sortCells := fun cells ascending => if ascending then cells else reverse cells
|}.

Definition stacking_manager : mxLayoutManager string :=
  {| bubbling := true; enabled := true; getLayout := fun _ _ => Some "stack" |}.

Example root_skipped :
  calls (layoutCells rooted_model stacking_manager [layer; vertex; layer; group] true
           idle).2 =
  [CallBeginUpdate; CallLayoutExecute vertex true; CallLayoutExecute group true;
   CallFireEvent LAYOUT_CELLS [layer; vertex; layer; group]; CallEndUpdate].
Proof. reflexivity. Qed.

Lemma layoutCells_spares_root_witness :
  exists new,
    calls (layoutCells rooted_model stacking_manager [layer; vertex; layer; group]
             true idle).2 = calls idle ++ new /\
    Forall (fun c => lays_out (Some layer) c = false) new.
Proof.
  apply (layoutCells_spares_root rooted_model stacking_manager (Some layer)
           [layer; vertex; layer; group] true idle).
  reflexivity.
Defined.

Lemma manager_without_layouts_witness :
  getCellsForChange plain_manager (mxGeometryChange (Some vertex)) =
    vertex :: (if bubbling plain_manager then ancestors vertex else []) /\
  calls (layoutCells counting_model plain_manager (vertex :: [group]) true idle).2 =
    calls idle ++ [CallBeginUpdate; CallFireEvent LAYOUT_CELLS (vertex :: [group]);
                   CallEndUpdate].
Proof.
  apply (manager_without_layouts counting_model plain_manager vertex [group] true idle).
  reflexivity.
Defined.

(** A manager with a layout for the cells with an even identifier. *)
Definition even_manager : mxLayoutManager string :=
  {| bubbling := true; enabled := true;
     getLayout := fun cell _ =>
       match cell with
       | Some c => if Nat.even (getId c) then Some "stack" else None
       | None => None
       end |}.

Example adjacent_duplicates_run_once :
  calls (layoutCells rooted_model even_manager [group; group; vertex; group] false
           idle).2 =
  [CallBeginUpdate; CallLayoutExecute group false; CallLayoutExecute group false;
   CallFireEvent LAYOUT_CELLS [group; group; vertex; group]; CallEndUpdate].
Proof. reflexivity. Qed.

Lemma layoutCells_runs_every_layout_witness :
  exists new,
    calls (layoutCells rooted_model even_manager [group; group; vertex; group] false
             idle).2 = calls idle ++ new /\
    forall cell layout,
      cell ∈ [group; group; vertex; group] ->
      same_cell (Some cell) (Some layer) = false ->
      getLayout even_manager (Some cell) (phase false) = Some layout ->
      exists c, getId c = getId cell /\ CallLayoutExecute c false ∈ new.
Proof.
  apply (layoutCells_runs_every_layout rooted_model even_manager (Some layer)
           [group; group; vertex; group] false idle).
  - reflexivity.
  - reflexivity.
  - intros c d event Hid. cbn. by rewrite Hid.
Defined.

(** Both phases on [vertex] and [group], the inner cell first, then the
    same cells in reverse. *)
Example two_phases_run :
  calls (executeLayoutForCells counting_model stacking_manager [group; vertex]
           idle).2 =
  [CallBeginUpdate; CallLayoutExecute vertex true; CallLayoutExecute group true;
   CallFireEvent LAYOUT_CELLS [vertex; group]; CallEndUpdate;
   CallBeginUpdate; CallLayoutExecute group false; CallLayoutExecute vertex false;
   CallFireEvent LAYOUT_CELLS [group; vertex]; CallEndUpdate].
Proof. reflexivity. Qed.

Lemma executeLayoutForCells_two_phases_witness :
  let sorted := sortCells counting_model [group; vertex] false in
  exists first,
    calls (layoutCells counting_model stacking_manager sorted true idle).2 =
      calls idle ++ CallBeginUpdate :: first ++ [CallEndUpdate] /\
    Forall (in_phase true [group; vertex] sorted) first /\
    match layoutCells counting_model stacking_manager sorted true idle with
    | (Threw e, w1) =>
        executeLayoutForCells counting_model stacking_manager [group; vertex] idle =
          (Threw e, w1)
    | (Returned _, w1) =>
        CallFireEvent LAYOUT_CELLS sorted ∈ first /\
        executeLayoutForCells counting_model stacking_manager [group; vertex] idle =
          layoutCells counting_model stacking_manager (reverse sorted) false w1 /\
        exists second,
          calls (executeLayoutForCells counting_model stacking_manager
                   [group; vertex] idle).2 =
            calls w1 ++ CallBeginUpdate :: second ++ [CallEndUpdate] /\
          Forall (in_phase false [group; vertex] (reverse sorted)) second /\
          ((executeLayoutForCells counting_model stacking_manager
              [group; vertex] idle).1 = Returned tt ->
           CallFireEvent LAYOUT_CELLS (reverse sorted) ∈ second)
    end.
Proof.
  apply (executeLayoutForCells_two_phases counting_model stacking_manager
           [group; vertex] idle).
  - exact counting_model_sorts.
  - discriminate.
Defined.

End MxLayoutManager.

(** ** mxPopupMenuHandler *)

Module MxPopupMenuHandler.
Import JsEffects.

Local Open Scope Z_scope.

Section Handler.

(** The cells of the graph and the DOM events that mouse events wrap. *)
Context {Cell DomEvent : Type}.

(** What the handler reads of an [mxMouseEvent]. *)
Record MouseEvent : Type := {
  getEvent : DomEvent;
  getGraphX : Z;
  getGraphY : Z;
  getX : Z;
  getY : Z;
  getCell : option Cell
}.

(** Functions of other files: [isMultiTouchEvent] and the screen position
    of [getMainEvent] ([util/mxEventUtils]), [isPopupTrigger] of
    [mxPopupMenu], and [mxUtils.getScrollOrigin()]. *)
Variable isMultiTouchEvent : DomEvent -> bool.
Variable mainScreenX : DomEvent -> Z.
Variable mainScreenY : DomEvent -> Z.
Variable isPopupTrigger : MouseEvent -> bool.
Variable scrollOrigin : Z * Z.

(** What the handler reads of its graph. *)
Record Graph : Type := {
  graph_isEnabled : bool;
  tolerance : Z;
  isCellSelected : Cell -> bool
}.

Variable graph : Graph.

(** The fields of the handler; [enabled] is the one of [mxPopupMenu] that
    [isEnabled()] returns. *)
Record mxPopupMenuHandler : Type := {
  enabled : bool;
  selectOnPopup : bool;
  clearSelectionOnBackground : bool;
  triggerX : option Z;
  triggerY : option Z;
  screenX : option Z;
  screenY : option Z;
  popupTrigger : bool;
  inTolerance : bool
}.

(** The calls the handler issues on the menu, the graph and the event. *)
Inductive Call : Type :=
| CallHideMenu
| CallSetSelectionCell (cell : Cell)
| CallClearSelection
| CallHideTooltip
| CallPopup (x y : Z) (cell : option Cell) (evt : DomEvent)
| CallConsume.

Record World : Type := { handler : mxPopupMenuHandler; calls : list Call }.

Definition issue (cs : list Call) (w : World) : World :=
  {| handler := handler w; calls := calls w ++ cs |}.

Definition set_tolerance (b : bool) (this : mxPopupMenuHandler) : mxPopupMenuHandler :=
  {| enabled := enabled this; selectOnPopup := selectOnPopup this;
     clearSelectionOnBackground := clearSelectionOnBackground this;
     triggerX := triggerX this; triggerY := triggerY this;
     screenX := screenX this; screenY := screenY this;
     popupTrigger := popupTrigger this; inTolerance := b |}.

(** The listener for [mxEvent.GESTURE] that the constructor installs. *)
Definition gestureHandler (w : World) : World :=
  {| handler := set_tolerance false (handler w); calls := calls w |}.

Definition isSelectOnPopup (this : mxPopupMenuHandler) (me : MouseEvent) : bool :=
  selectOnPopup this.

Definition getCellForPopupEvent (me : MouseEvent) : option Cell := getCell me.

(** [mouseDown]; [hideMenu()] of [mxPopupMenu], which takes the menu out of
    the document, is taken to return. *)
Definition mouseDown (me : MouseEvent) (w : World) : World :=
  let this := handler w in
  if enabled this && negb (isMultiTouchEvent (getEvent me)) then
    {| handler :=
         {| enabled := enabled this; selectOnPopup := selectOnPopup this;
            clearSelectionOnBackground := clearSelectionOnBackground this;
            triggerX := Some (getGraphX me); triggerY := Some (getGraphY me);
            screenX := Some (mainScreenX (getEvent me));
            screenY := Some (mainScreenY (getEvent me));
            popupTrigger := isPopupTrigger me; inTolerance := true |};
       calls := calls w ++ [CallHideMenu] |}
  else w.

Definition mouseMove (me : MouseEvent) (w : World) : World :=
  let this := handler w in
  match inTolerance this, screenX this, screenY this with
  | true, Some sx, Some sy =>
      if (Z.abs (mainScreenX (getEvent me) - sx) >? tolerance graph) ||
         (Z.abs (mainScreenY (getEvent me) - sy) >? tolerance graph)
      then {| handler := set_tolerance false this; calls := calls w |}
      else w
  | _, _, _ => w
  end.

(** The calls of [mouseUp] when the popup is shown, in order. *)
Definition popup_calls (this : mxPopupMenuHandler) (me : MouseEvent) : list Call :=
  let cell := getCellForPopupEvent me in
  (match cell with
   | Some c =>
       if graph_isEnabled graph && isSelectOnPopup this me &&
          negb (isCellSelected graph c)
       then [CallSetSelectionCell c]
       else []
   | None =>
       if clearSelectionOnBackground this then [CallClearSelection] else []
   end) ++
  [CallHideTooltip;
   CallPopup (getX me + scrollOrigin.1 + 1) (getY me + scrollOrigin.2 + 1) cell
     (getEvent me);
   CallConsume].

(** The calls of [mouseUp] go to the graph, its tooltip handler, the menu
    with its factory method, and the event; any of them may throw.
    [thrown log c] tells whether the call [c], made after the calls [log],
    throws, and what. The getters that [mouseUp] reads on the way
    ([isEnabled], [isCellSelected], [getCell], [getX], [getY],
    [getScrollOrigin]) return. *)
Variable thrown : list Call -> Call -> option string.

Definition perform (c : Call) : Eff World unit :=
  fun w =>
    (match thrown (calls w) c with
     | Some e => Threw e
     | None => Returned tt
     end,
     issue [c] w).

(** The calls one after the other, up to the first that throws. *)
Fixpoint perform_all (cs : list Call) : Eff World unit :=
  match cs with
  | [] => ret tt
  | c :: rest => bind (perform c) (fun _ => perform_all rest)
  end.

(** The condition of [mouseUp]: a popup trigger within tolerance, with
    [triggerX != null] and [triggerY != null]. *)
Definition popup_due (this : mxPopupMenuHandler) : bool :=
  match popupTrigger this && inTolerance this, triggerX this, triggerY this with
  | true, Some _, Some _ => true
  | _, _, _ => false
  end.

(** [mouseUp]: there is no [try] around the calls, so that an exception
    leaves [popupTrigger] and [inTolerance] as they are. *)
Definition mouseUp (me : MouseEvent) : Eff World unit :=
  fun w =>
    let this := handler w in
    let shown := if popup_due this then popup_calls this me else [] in
    match perform_all shown w with
    | (Returned _, w1) =>
        (Returned tt,
         {| handler :=
              {| enabled := enabled this; selectOnPopup := selectOnPopup this;
                 clearSelectionOnBackground := clearSelectionOnBackground this;
                 triggerX := triggerX this; triggerY := triggerY this;
                 screenX := screenX this; screenY := screenY this;
                 popupTrigger := false; inTolerance := false |};
            calls := calls w1 |})
    | (Threw e, w1) => (Threw e, w1)
    end.

(** What reaches the handler. *)
Inductive Input : Type :=
| Down (me : MouseEvent)
| Move (me : MouseEvent)
| Up (me : MouseEvent)
| Gesture.

Definition isDown (i : Input) : bool :=
  match i with Down _ => true | _ => false end.

Definition step (w : World) (i : Input) : World :=
  match i with
  | Down me => mouseDown me w
  | Move me => mouseMove me w
  | Up me => (mouseUp me w).2
  | Gesture => gestureHandler w
  end.

(** The handlers are called one event after the other; an exception of one
    goes to the browser and the next event finds the handler as it was
    left. *)
Definition run (inputs : list Input) (w : World) : World := foldl step w inputs.

(** *** Properties *)

Lemma mouseMove_calls me w : calls (mouseMove me w) = calls w.
Proof.
  unfold mouseMove.
  destruct (inTolerance (handler w)), (screenX (handler w)), (screenY (handler w));
    try done.
  by destruct (_ || _).
Qed.

Lemma mouseMove_out_of_tolerance me w :
  inTolerance (handler w) = false -> mouseMove me w = w.
Proof. intros H. unfold mouseMove. by rewrite H. Qed.

Lemma perform_all_done cs :
  forall w,
    handler (perform_all cs w).2 = handler w /\
    exists made,
      calls (perform_all cs w).2 = calls w ++ made /\
      (forall c, c ∈ made -> c ∈ cs) /\
      match (perform_all cs w).1 with
      | Returned _ => made = cs
      | Threw e =>
          exists before c after,
            made = before ++ [c] /\ cs = before ++ c :: after /\
            thrown (calls w ++ before) c = Some e
      end.
Proof.
  induction cs as [|c rest IH]; intros w; cbn [perform_all].
  - split; [done|]. exists []. by rewrite app_nil_r.
  - unfold bind, perform. cbn [issue calls handler].
    destruct (thrown (calls w) c) as [e|] eqn:Hc.
    + cbn [fst snd handler calls issue]. split; [done|].
      exists [c]. split; [done|]. split.
      * intros c' Hin. apply list_elem_of_singleton in Hin as ->.
        apply list_elem_of_here.
      * exists [], c, rest. by rewrite app_nil_r.
    + destruct (IH (issue [c] w)) as (Hh & made & Hcalls & Hsub & Hout).
      split; [done|]. exists (c :: made). split.
      { rewrite Hcalls. cbn [issue calls]. by rewrite <- app_assoc. }
      split.
      { intros c' Hin. apply elem_of_cons in Hin as [->|Hin];
          [apply list_elem_of_here | by apply list_elem_of_further, Hsub]. }
      destruct (perform_all rest (issue [c] w)).1 as [[]|e]; [by rewrite Hout|].
      destruct Hout as (before & c' & after & -> & -> & Hthrown).
      exists (c :: before), c', after. split; [done|]. split; [done|].
      cbn [issue calls] in Hthrown. by rewrite <- app_assoc in Hthrown.
Qed.

Lemma mouseUp_out_of_tolerance me w :
  inTolerance (handler w) = false ->
  (mouseUp me w).1 = Returned tt /\
  calls (mouseUp me w).2 = calls w /\
  inTolerance (handler (mouseUp me w).2) = false.
Proof.
  intros Hout. unfold mouseUp, popup_due. by rewrite Hout, andb_false_r.
Qed.

Lemma quiet_without_mouseDown inputs :
  forall w,
    inTolerance (handler w) = false ->
    forallb (fun i => negb (isDown i)) inputs = true ->
    calls (run inputs w) = calls w /\
    inTolerance (handler (run inputs w)) = false.
Proof.
  induction inputs as [|i rest IH]; intros w Hout Hnd; [done|].
  cbn in Hnd. apply andb_prop in Hnd as [Hi Hrest].
  unfold run. cbn [foldl]. fold (run rest (step w i)).
  destruct i as [me|me|me|]; [done| | |]; cbn [step].
  - rewrite (mouseMove_out_of_tolerance me w Hout). by apply IH.
  - destruct (mouseUp_out_of_tolerance me w Hout) as (_ & Hcalls & Hout').
    destruct (IH (mouseUp me w).2) as [Hc Ht]; [done | done |].
    by rewrite Hc, Ht.
  - destruct (IH (gestureHandler w)) as [Hc Ht]; [done | done |].
    by rewrite Hc, Ht.
Qed.

(** One [mouseDown] leads to at most one popup, as long as [mouseUp]
    returns. After a [mouseUp] that returned, or after a gesture, the
    handler makes no call at all until the next [mouseDown], whatever it is
    sent in between. A [mouseUp] that throws leaves the handler as it was,
    armed: it made at least one call, and the next [mouseUp] makes one
    again. *)
Theorem no_popup_until_next_mouseDown (me : MouseEvent) (inputs : list Input)
  (w : World) :
  forallb (fun i => negb (isDown i)) inputs = true ->
  match mouseUp me w with
  | (Returned _, w1) => calls (run inputs w1) = calls w1
  | (Threw _, w1) =>
      handler w1 = handler w /\
      popupTrigger (handler w) = true /\ inTolerance (handler w) = true /\
      forall me',
        exists c made, calls (mouseUp me' w1).2 = calls w1 ++ c :: made
  end /\
  calls (run inputs (gestureHandler w)) = calls w.
Proof.
  intros Hnd. split.
  - assert (forall me0 w0,
              popupTrigger (handler w0) && inTolerance (handler w0) = true ->
              is_Some (triggerX (handler w0)) -> is_Some (triggerY (handler w0)) ->
              exists c made, calls (mouseUp me0 w0).2 = calls w0 ++ c :: made)
      as Harmed.
    { intros me0 w0 Hpt [tx Htx] [ty Hty]. unfold mouseUp, popup_due.
      rewrite Hpt, Htx, Hty.
      destruct (perform_all_done (popup_calls (handler w0) me0) w0)
        as (_ & made & Hcalls & _ & Hout).
      assert (made <> []) as Hmade.
      { destruct (perform_all _ w0).1 as [[]|e].
        - rewrite Hout. intros E. apply (f_equal length) in E.
          unfold popup_calls in E. rewrite length_app in E. cbn in E. lia.
        - destruct Hout as (before & c & after & -> & _). by destruct before. }
      destruct made as [|c made]; [done|]. exists c, made.
      by destruct (perform_all _ w0) as [[[]|e] w1]. }
    unfold mouseUp at 1, popup_due.
    destruct (popupTrigger (handler w)) eqn:Hp, (inTolerance (handler w)) eqn:Ht;
      cbn [andb];
      try (cbn [perform_all ret]; by apply quiet_without_mouseDown).
    destruct (triggerX (handler w)) as [tx|] eqn:Htx;
      [|cbn [perform_all ret]; by apply quiet_without_mouseDown].
    destruct (triggerY (handler w)) as [ty|] eqn:Hty;
      [|cbn [perform_all ret]; by apply quiet_without_mouseDown].
    destruct (perform_all_done (popup_calls (handler w) me) w) as (Hh & _).
    destruct (perform_all (popup_calls (handler w) me) w) as [[[]|e] w1];
      cbn [fst snd] in Hh.
    + by apply quiet_without_mouseDown.
    + split; [done|]. split; [done|]. split; [done|]. intros me'.
      apply Harmed; rewrite Hh, ?Hp, ?Ht, ?Htx, ?Hty; by eauto.
  - by apply (quiet_without_mouseDown inputs (gestureHandler w)).
Qed.

(** Once the pointer has moved further than [graph.tolerance] from where it
    went down, on either axis of the screen, the popup of this press is off:
    moving back does not bring it back, and the [mouseUp] shows nothing. *)
Theorem drag_cancels_popup (down far : MouseEvent) (inputs : list Input)
  (w : World) :
  enabled (handler w) = true ->
  isMultiTouchEvent (getEvent down) = false ->
  tolerance graph < Z.abs (mainScreenX (getEvent far) - mainScreenX (getEvent down)) \/
  tolerance graph < Z.abs (mainScreenY (getEvent far) - mainScreenY (getEvent down)) ->
  forallb (fun i => negb (isDown i)) inputs = true ->
  calls (run (Down down :: Move far :: inputs) w) = calls w ++ [CallHideMenu].
Proof.
  intros He Hm Hfar Hnd.
  unfold run. cbn [foldl step]. fold (run inputs (mouseMove far (mouseDown down w))).
  assert (mouseDown down w =
          {| handler :=
               {| enabled := enabled (handler w);
                  selectOnPopup := selectOnPopup (handler w);
                  clearSelectionOnBackground := clearSelectionOnBackground (handler w);
                  triggerX := Some (getGraphX down); triggerY := Some (getGraphY down);
                  screenX := Some (mainScreenX (getEvent down));
                  screenY := Some (mainScreenY (getEvent down));
                  popupTrigger := isPopupTrigger down; inTolerance := true |};
             calls := calls w ++ [CallHideMenu] |}) as Hdown
    by (unfold mouseDown; by rewrite He, Hm).
  assert (inTolerance (handler (mouseMove far (mouseDown down w))) = false) as Hout.
  { rewrite Hdown. unfold mouseMove. cbn [handler inTolerance screenX screenY].
    assert ((Z.abs (mainScreenX (getEvent far) - mainScreenX (getEvent down))
               >? tolerance graph) ||
            (Z.abs (mainScreenY (getEvent far) - mainScreenY (getEvent down))
               >? tolerance graph) = true) as ->; [|done].
    apply orb_true_iff. destruct Hfar; [left | right]; lia. }
  destruct (quiet_without_mouseDown inputs _ Hout Hnd) as [-> _].
  by rewrite mouseMove_calls, Hdown.
Qed.

(** What [mouseUp] does to the selection and where it opens the menu. It
    only adds calls, each of them one of [popup_calls]: it selects a cell
    only if it shows the popup over that cell, the cell is not selected yet,
    the graph is enabled and [selectOnPopup] is set; it clears the selection
    only over the background with [clearSelectionOnBackground] set; and the
    popup, if any, is for the cell of the event, one pixel right of and
    below the position of the event shifted by the scroll origin, after a
    trigger within tolerance. When it returns, it has made the calls of
    [popup_calls], all of them and in their order, if the condition held and
    none otherwise, and [popupTrigger] and [inTolerance] are reset. When it throws, the call
    made last is the one that threw, the calls after it, the [consume()]
    among them unless it threw itself, were not made, and the handler is as
    it was, with [popupTrigger] and [inTolerance] still set. *)
Theorem mouseUp_calls (me : MouseEvent) (w : World) :
  exists made,
    calls (mouseUp me w).2 = calls w ++ made /\
    (forall c, CallSetSelectionCell c ∈ made ->
       getCell me = Some c /\ isCellSelected graph c = false /\
       graph_isEnabled graph = true /\ selectOnPopup (handler w) = true) /\
    (CallClearSelection ∈ made ->
       getCell me = None /\ clearSelectionOnBackground (handler w) = true) /\
    (forall x y cell evt, CallPopup x y cell evt ∈ made ->
       popupTrigger (handler w) = true /\ inTolerance (handler w) = true /\
       x = getX me + scrollOrigin.1 + 1 /\ y = getY me + scrollOrigin.2 + 1 /\
       cell = getCell me /\ evt = getEvent me) /\
    match (mouseUp me w).1 with
    | Returned _ =>
        popupTrigger (handler (mouseUp me w).2) = false /\
        inTolerance (handler (mouseUp me w).2) = false /\
        made = (if popup_due (handler w) then popup_calls (handler w) me else [])
    | Threw e =>
        handler (mouseUp me w).2 = handler w /\
        popupTrigger (handler w) = true /\ inTolerance (handler w) = true /\
        exists before c after,
          made = before ++ [c] /\
          popup_calls (handler w) me = before ++ c :: after /\
          thrown (calls w ++ before) c = Some e
    end.
Proof.
  assert (forall made : list Call,
            (forall c, c ∈ made -> c ∈ popup_calls (handler w) me) ->
            (forall c, CallSetSelectionCell c ∈ made ->
               getCell me = Some c /\ isCellSelected graph c = false /\
               graph_isEnabled graph = true /\ selectOnPopup (handler w) = true) /\
            (CallClearSelection ∈ made ->
               getCell me = None /\ clearSelectionOnBackground (handler w) = true) /\
            (forall x y cell evt, CallPopup x y cell evt ∈ made ->
               x = getX me + scrollOrigin.1 + 1 /\ y = getY me + scrollOrigin.2 + 1 /\
               cell = getCell me /\ evt = getEvent me)) as Hshape.
  { intros made Hsub. unfold popup_calls, getCellForPopupEvent, isSelectOnPopup in Hsub.
    destruct (getCell me) as [c0|] eqn:Hcell.
    - destruct (graph_isEnabled graph) eqn:Hg, (selectOnPopup (handler w)) eqn:Hs,
        (isCellSelected graph c0) eqn:Hsel; cbn [andb negb app] in Hsub;
        repeat split; intros; try done;
        repeat match goal with
        | H : _ ∈ made |- _ => apply Hsub in H
        | H : _ ∈ _ :: _ |- _ => apply elem_of_cons in H as [H|H]
        | H : _ ∈ [] |- _ => by apply elem_of_nil in H
        | H : CallSetSelectionCell _ = CallSetSelectionCell _ |- _ =>
            injection H as ->
        | H : CallPopup _ _ _ _ = CallPopup _ _ _ _ |- _ =>
            injection H as -> -> -> ->
        | H : _ = _ |- _ => discriminate H
        end; try done.
    - destruct (clearSelectionOnBackground (handler w)) eqn:Hclr; cbn [app] in Hsub;
        repeat split; intros; try done;
        repeat match goal with
        | H : _ ∈ made |- _ => apply Hsub in H
        | H : _ ∈ _ :: _ |- _ => apply elem_of_cons in H as [H|H]
        | H : _ ∈ [] |- _ => by apply elem_of_nil in H
        | H : CallPopup _ _ _ _ = CallPopup _ _ _ _ |- _ =>
            injection H as -> -> -> ->
        | H : _ = _ |- _ => discriminate H
        end; try done. }
  assert (exists made,
            calls (mouseUp me w).2 = calls w ++ made /\
            (made <> [] ->
             popupTrigger (handler w) = true /\ inTolerance (handler w) = true /\
             forall c, c ∈ made -> c ∈ popup_calls (handler w) me) /\
            match (mouseUp me w).1 with
            | Returned _ =>
                popupTrigger (handler (mouseUp me w).2) = false /\
                inTolerance (handler (mouseUp me w).2) = false /\
                made = (if popup_due (handler w) then popup_calls (handler w) me
                        else [])
            | Threw e =>
                handler (mouseUp me w).2 = handler w /\
                popupTrigger (handler w) = true /\ inTolerance (handler w) = true /\
                exists before c after,
                  made = before ++ [c] /\
                  popup_calls (handler w) me = before ++ c :: after /\
                  thrown (calls w ++ before) c = Some e
            end) as (made & Hcalls & Hmade & Hout).
  { unfold mouseUp, popup_due.
    destruct (popupTrigger (handler w)) eqn:Hp, (inTolerance (handler w)) eqn:Ht;
      cbn [andb];
      try (exists []; cbn [perform_all ret fst snd calls handler popupTrigger
                             inTolerance];
           rewrite app_nil_r; by repeat split).
    destruct (triggerX (handler w)) as [tx|];
      [|exists []; cbn [perform_all ret fst snd calls handler popupTrigger
                          inTolerance];
        rewrite app_nil_r; by repeat split].
    destruct (triggerY (handler w)) as [ty|];
      [|exists []; cbn [perform_all ret fst snd calls handler popupTrigger
                          inTolerance];
        rewrite app_nil_r; by repeat split].
    destruct (perform_all_done (popup_calls (handler w) me) w)
      as (Hh & made & Hcalls & Hsub & Hout).
    exists made.
    destruct (perform_all (popup_calls (handler w) me) w) as [[[]|e] w1];
      cbn [fst snd calls handler popupTrigger inTolerance] in *.
    - split; [exact Hcalls|]. split; [intros _; by repeat split|].
      split; [done|]. split; [done|]. exact Hout.
    - split; [exact Hcalls|]. split; [intros _; by repeat split|].
      split; [exact Hh|]. split; [done|]. split; [done|].
      destruct Hout as (before & c & after & -> & Hafter & Hthrown).
      by exists before, c, after. }
  exists made. split; [exact Hcalls|].
  destruct made as [|c0 made0] eqn:Hm.
  - split; [intros c H; by apply elem_of_nil in H|].
    split; [intros H; by apply elem_of_nil in H|].
    split; [intros x y cell evt H; by apply elem_of_nil in H|]. exact Hout.
  - destruct Hmade as (Hp & Ht & Hsub); [done|].
    destruct (Hshape (c0 :: made0) Hsub) as (H1 & H2 & H3).
    split; [exact H1|]. split; [exact H2|]. split; [|exact Hout].
    intros x y cell evt Hin. destruct (H3 x y cell evt Hin) as (? & ? & ? & ?).
    done.
Qed.

End Handler.

(** *** A handler at work *)

(** DOM events that carry a screen position and the number of touches. *)
Record Pointer : Type := { atX : Z; atY : Z; touches : nat }.

Definition pointer_at (sx sy : Z) : MouseEvent (Cell := nat) :=
  {| getEvent := {| atX := sx; atY := sy; touches := 1 |};
     getGraphX := sx; getGraphY := sy; getX := sx; getY := sy;
     getCell := Some 5%nat |}.

Definition tolerant_graph : Graph (Cell := nat) :=
  {| graph_isEnabled := true; tolerance := 4; isCellSelected := fun _ => false |}.

(** A handler on which a popup trigger went down at (10, 10). *)
Definition pressed : World (Cell := nat) (DomEvent := Pointer) :=
  {| handler :=
       {| enabled := true; selectOnPopup := true; clearSelectionOnBackground := true;
          triggerX := Some 10; triggerY := Some 10;
          screenX := Some 10; screenY := Some 10;
          popupTrigger := true; inTolerance := true |};
     calls := [] |}.

Definition released : World (Cell := nat) (DomEvent := Pointer) :=
  {| handler :=
       {| enabled := true; selectOnPopup := true; clearSelectionOnBackground := true;
          triggerX := Some 10; triggerY := Some 10;
          screenX := Some 10; screenY := Some 10;
          popupTrigger := false; inTolerance := false |};
     calls := [] |}.

(** Calls that all return. *)
Definition all_return : list (Call (Cell := nat) (DomEvent := Pointer)) ->
                        Call (Cell := nat) (DomEvent := Pointer) -> option string :=
  fun _ _ => None.

(** A factory method that throws the first time the menu is opened. *)
Definition is_popup (c : Call (Cell := nat) (DomEvent := Pointer)) : bool :=
  match c with CallPopup _ _ _ _ => true | _ => false end.

Definition factory_fails_once : list (Call (Cell := nat) (DomEvent := Pointer)) ->
                                Call (Cell := nat) (DomEvent := Pointer) ->
                                option string :=
  fun log c =>
    if is_popup c && negb (existsb is_popup log) then Some "Error" else None.

Definition play_with (thrown : list Call -> Call -> option string)
  (inputs : list Input) (w : World) : World :=
  run (fun e => Nat.ltb 1 (touches e)) atX atY (fun _ => true) (0, 0)
    tolerant_graph thrown inputs w.

Definition play (inputs : list Input) (w : World) : World :=
  play_with all_return inputs w.

(** The press at (10, 10) released at (12, 11) opens the menu once, at
    (13, 12), for the cell under the pointer, which it selects. *)
Example popup_after_click :
  calls (play [Move (pointer_at 12 11); Up (pointer_at 12 11)] pressed) =
    [CallSetSelectionCell 5%nat; CallHideTooltip;
     CallPopup 13 12 (Some 5%nat) (getEvent (pointer_at 12 11)); CallConsume].
Proof. reflexivity. Qed.

(** When the factory method throws, the event is not consumed and the
    handler stays armed: a second [mouseUp], with no [mouseDown] in between,
    opens the menu. *)
Example popup_again_after_throw :
  mouseUp (0, 0) tolerant_graph factory_fails_once
    (pointer_at 12 11) pressed =
    (Threw "Error",
     {| handler := handler pressed;
        calls := [CallSetSelectionCell 5%nat; CallHideTooltip;
                  CallPopup 13 12 (Some 5%nat) (getEvent (pointer_at 12 11))] |}) /\
  calls (play_with factory_fails_once
           [Up (pointer_at 12 11); Up (pointer_at 20 20)] pressed) =
    [CallSetSelectionCell 5%nat; CallHideTooltip;
     CallPopup 13 12 (Some 5%nat) (getEvent (pointer_at 12 11));
     CallSetSelectionCell 5%nat; CallHideTooltip;
     CallPopup 21 21 (Some 5%nat) (getEvent (pointer_at 20 20)); CallConsume].
Proof. split; reflexivity. Qed.

Lemma no_popup_until_next_mouseDown_witness :
  calls (play [Move (pointer_at 11 11); Up (pointer_at 11 11); Gesture]
           (play [Up (pointer_at 12 11)] pressed)) =
    calls (play [Up (pointer_at 12 11)] pressed) /\
  calls (play [Move (pointer_at 11 11); Up (pointer_at 11 11); Gesture]
           (play [Gesture] pressed)) = calls pressed.
Proof.
  apply (no_popup_until_next_mouseDown (fun e => Nat.ltb 1 (touches e)) atX atY
           (fun _ => true) (0, 0) tolerant_graph all_return (pointer_at 12 11)
           [Move (pointer_at 11 11); Up (pointer_at 11 11); Gesture] pressed).
  reflexivity.
Defined.

Lemma drag_cancels_popup_witness :
  calls (play [Down (pointer_at 10 10); Move (pointer_at 10 15);
               Move (pointer_at 10 10); Up (pointer_at 10 10)] released) =
    calls released ++ [CallHideMenu].
Proof.
  apply (drag_cancels_popup (fun e => Nat.ltb 1 (touches e)) atX atY
           (fun _ => true) (0, 0) tolerant_graph all_return (pointer_at 10 10)
           (pointer_at 10 15)
           [Move (pointer_at 10 10); Up (pointer_at 10 10)] released).
  - reflexivity.
  - reflexivity.
  - right. cbn. lia.
  - reflexivity.
Defined.

End MxPopupMenuHandler.

(** ** StyleChange *)

Module UndoableChanges.
Import JsEffects JsEffects.Notations.
Local Open Scope eff_scope.

(** Modelled from the spec: the type [CellStyle] ([types.ts]) is not among
    the sources. A style is an ordered mapping of property name to value. *)
Definition CellStyle : Type := list (string * string).

(** A reference to a [Cell] object. *)
Abbreviation Cell := nat (only parsing).

(** Modelled from the spec: the class [GraphDataModel] is not among the
    sources. Of the document tree a style change touches one facet, the
    [style] field of the cell objects, held here per cell reference. A
    reference outside the map stands for [undefined]. *)
Abbreviation GraphDataModel := (gmap nat CellStyle) (only parsing).

(** Modelled from the spec: [GraphDataModel.styleForCellChanged] is not
    among the sources. It is the mutation a style change performs: it
    installs [style] on the cell and hands back the style the cell had.
    Reading the style of [undefined] is a [TypeError]. *)
Definition styleForCellChanged (cell : Cell) (style : CellStyle)
  : Eff GraphDataModel CellStyle :=
  fun model =>
    match model !! cell with
    | Some previous => (Returned previous, <[cell := style]> model)
    | None => (Threw "TypeError", model)
    end.

(** The fields of a [StyleChange] besides the reference to the model. *)
Record StyleChange : Type := {
  cell : Cell;
  style : CellStyle;
  previous : CellStyle
}.

(** [new StyleChange(model, cell, style)]: the constructor is a call in the
    world of the model like any other. *)
Definition new_StyleChange (cell : Cell) (style : CellStyle)
  : Eff GraphDataModel StyleChange :=
  ret {| cell := cell; style := style; previous := style |}.

(** [execute()] mutates the change object and, through the model, the cell:
    the state is the pair of both. *)
Definition set_style (v : CellStyle) : Eff (StyleChange * GraphDataModel) unit :=
  modify (fun '(c, m) => ({| cell := cell c; style := v; previous := previous c |}, m)).

Definition set_previous (v : CellStyle) : Eff (StyleChange * GraphDataModel) unit :=
  modify (fun '(c, m) => ({| cell := cell c; style := style c; previous := v |}, m)).

Definition on_document {A} (f : StyleChange -> Eff GraphDataModel A)
  : Eff (StyleChange * GraphDataModel) A :=
  fun '(c, m) => match f c m with (r, m') => (r, (c, m')) end.

Definition execute : Eff (StyleChange * GraphDataModel) unit :=
  let* this_previous := gets (fun s => previous s.1) in
  set_style this_previous ;;;
  let* returned := on_document (fun this => styleForCellChanged (cell this) (previous this)) in
  set_previous returned.

(** *** Properties *)

Lemma execute_valid (c : StyleChange) (m : GraphDataModel) (old : CellStyle) :
  m !! cell c = Some old ->
  execute (c, m) =
    (Returned tt,
     ({| cell := cell c; style := previous c; previous := old |},
      <[cell c := previous c]> m)).
Proof.
  intros Hold. unfold execute, bind, gets, set_style, set_previous, modify, on_document.
  cbn. unfold styleForCellChanged. by rewrite Hold.
Qed.

(** C2. On a style change whose cell is a cell of the document, [execute()]
    installs the stored value on the cell and keeps the value it replaced in
    [previous]; executing the change once more therefore puts the replaced
    value back: after two calls the document is what it was before the
    first. This holds for every state of the change object, hence for one
    fresh from the constructor. *)
Theorem execute_twice_restores (c : StyleChange) (m : GraphDataModel) (old : CellStyle) :
  m !! cell c = Some old ->
  exists c1 m1 c2,
    execute (c, m) = (Returned tt, (c1, m1)) /\
    m1 = <[cell c := previous c]> m /\
    style c1 = previous c /\ previous c1 = old /\
    execute (c1, m1) = (Returned tt, (c2, m)) /\
    style c2 = old /\ previous c2 = previous c.
Proof.
  intros Hold.
  exists {| cell := cell c; style := previous c; previous := old |},
         (<[cell c := previous c]> m),
         {| cell := cell c; style := old; previous := previous c |}.
  split; [by apply execute_valid|].
  split; [done|]. split; [done|]. split; [done|]. split; [|done].
  rewrite (execute_valid _ _ (previous c)); cbn; [|by rewrite lookup_insert_eq].
  by rewrite insert_insert_eq, (insert_id m (cell c) old Hold).
Qed.

Definition red : CellStyle := [("fillColor", "red")].
Definition blue : CellStyle := [("fillColor", "blue")].

(** A document with one red cell. *)
Definition one_red_cell : GraphDataModel := {[ 7 := red ]}.

Lemma execute_twice_restores_witness :
  exists c1 m1 c2,
    execute ({| cell := 7; style := blue; previous := blue |}, one_red_cell)
      = (Returned tt, (c1, m1)) /\
    m1 = <[7 := blue]> one_red_cell /\
    style c1 = blue /\ previous c1 = red /\
    execute (c1, m1) = (Returned tt, (c2, one_red_cell)) /\
    style c2 = red /\ previous c2 = blue.
Proof.
  apply (execute_twice_restores
           {| cell := 7; style := blue; previous := blue |} one_red_cell red).
  reflexivity.
Defined.

(** C3, as stated, fails: the constructor stores the requested style in
    [previous], not the style the cell has. Here the cell is red, the change
    asks for blue, and [previous] is blue right after construction. *)
Lemma constructor_does_not_capture_old_style :
  one_red_cell !! 7 = Some red /\
  exists c,
    new_StyleChange 7 blue one_red_cell = (Returned c, one_red_cell) /\
    previous c = blue /\ previous c <> red.
Proof.
  split; [reflexivity|]. eexists. split; [reflexivity|]. split; [reflexivity|].
  cbn. unfold blue, red. congruence.
Qed.

(** C3, amended. The constructor leaves the document untouched and stores
    the requested style in both [style] and [previous]; the style the cell
    had before the change is captured by the first [execute()], which leaves
    it in [previous]. *)
Theorem constructor_stores_requested_style
  (cell0 : Cell) (style0 old : CellStyle) (m : GraphDataModel) :
  m !! cell0 = Some old ->
  exists c c1 m1,
    new_StyleChange cell0 style0 m = (Returned c, m) /\
    cell c = cell0 /\ style c = style0 /\ previous c = style0 /\
    execute (c, m) = (Returned tt, (c1, m1)) /\
    previous c1 = old /\ m1 !! cell0 = Some style0.
Proof.
  intros Hold.
  exists {| cell := cell0; style := style0; previous := style0 |},
         {| cell := cell0; style := style0; previous := old |},
         (<[cell0 := style0]> m).
  split; [reflexivity|].
  split; [done|]. split; [done|]. split; [done|].
  split; [by rewrite (execute_valid _ _ old)|].
  split; [done|]. by rewrite lookup_insert_eq.
Qed.

Lemma constructor_stores_requested_style_witness :
  exists c c1 m1,
    new_StyleChange 7 blue one_red_cell = (Returned c, one_red_cell) /\
    cell c = 7 /\ style c = blue /\ previous c = blue /\
    execute (c, one_red_cell) = (Returned tt, (c1, m1)) /\
    previous c1 = red /\ m1 !! 7 = Some blue.
Proof.
  apply (constructor_stores_requested_style 7 blue red one_red_cell).
  reflexivity.
Defined.

(** *** Repeated and combined style changes *)

(** [execute()] called [n] times in a row on the same change object. *)
Fixpoint execute_times (n : nat) : Eff (StyleChange * GraphDataModel) unit :=
  match n with
  | 0 => ret tt
  | S k => execute ;;; execute_times k
  end.

(** The change object and the document after one [execute()]. *)
Definition executed (c : StyleChange) (m : GraphDataModel)
  : StyleChange * GraphDataModel :=
  (execute (c, m)).2.

(** Executing the change alternates the document between two states: after
    an even number of calls it is the document from before, after an odd
    number the cell carries the style the change was built with. *)
Theorem execute_times_parity (n : nat) (c : StyleChange) (m : GraphDataModel)
  (old : CellStyle) :
  m !! cell c = Some old ->
  (execute_times n (c, m)).1 = Returned tt /\
  (execute_times n (c, m)).2.2 =
    if Nat.even n then m else <[cell c := previous c]> m.
Proof.
  revert c m old. induction n as [|n IH]; intros c m old Hold; [done|].
  cbn [execute_times]. unfold bind at 1 2. rewrite (execute_valid c m old Hold).
  destruct (IH {| cell := cell c; style := previous c; previous := old |}
              (<[cell c := previous c]> m) (previous c)) as [Hr Hd].
  { cbn. by rewrite lookup_insert_eq. }
  split; [exact Hr|]. rewrite Hd. cbn [cell previous].
  rewrite Nat.even_succ, <- Nat.negb_even.
  destruct (Nat.even n); cbn [negb]; [done|].
  by rewrite insert_insert_eq, insert_id.
Qed.

Lemma execute_times_parity_witness :
  (execute_times 5 ({| cell := 7; style := blue; previous := blue |}, one_red_cell)).1
    = Returned tt /\
  (execute_times 5 ({| cell := 7; style := blue; previous := blue |}, one_red_cell)).2.2
    = if Nat.even 5 then one_red_cell else <[7 := blue]> one_red_cell.
Proof.
  apply (execute_times_parity 5 {| cell := 7; style := blue; previous := blue |}
           one_red_cell red).
  reflexivity.
Defined.

(** Style changes of two different cells can be executed in either order:
    the document is the same, and each change has captured the same
    previous style. *)
Theorem execute_commutes_on_distinct_cells (c1 c2 : StyleChange) (m : GraphDataModel)
  (old1 old2 : CellStyle) :
  cell c1 <> cell c2 ->
  m !! cell c1 = Some old1 -> m !! cell c2 = Some old2 ->
  (executed c2 (executed c1 m).2).2 = (executed c1 (executed c2 m).2).2 /\
  (executed c1 m).1 = (executed c1 (executed c2 m).2).1 /\
  (executed c2 m).1 = (executed c2 (executed c1 m).2).1.
Proof.
  intros Hne H1 H2. unfold executed.
  rewrite (execute_valid c1 m old1 H1), (execute_valid c2 m old2 H2). cbn [snd fst].
  rewrite (execute_valid c2 _ old2) by (by rewrite lookup_insert_ne).
  rewrite (execute_valid c1 _ old1) by (by rewrite lookup_insert_ne).
  cbn [snd fst]. split; [|done]. by apply insert_insert_ne.
Qed.

Definition two_cells : GraphDataModel := {[ 7 := red; 8 := blue ]}.

Lemma execute_commutes_on_distinct_cells_witness :
  let c1 := {| cell := 7; style := blue; previous := blue |} in
  let c2 := {| cell := 8; style := red; previous := red |} in
  (executed c2 (executed c1 two_cells).2).2 = (executed c1 (executed c2 two_cells).2).2 /\
  (executed c1 two_cells).1 = (executed c1 (executed c2 two_cells).2).1 /\
  (executed c2 two_cells).1 = (executed c2 (executed c1 two_cells).2).1.
Proof.
  apply (execute_commutes_on_distinct_cells
           {| cell := 7; style := blue; previous := blue |}
           {| cell := 8; style := red; previous := red |} two_cells red blue).
  - discriminate.
  - reflexivity.
  - reflexivity.
Defined.

(** Two changes of the same cell, made one after the other: executing them
    again last first leads back to the document from before both; executing
    them again first first leaves the cell with the style of the first
    change instead. *)
Theorem undo_order_matters (cell0 : Cell) (s1 s2 old : CellStyle) (m : GraphDataModel) :
  m !! cell0 = Some old ->
  let c1 := {| cell := cell0; style := s1; previous := s1 |} in
  let c2 := {| cell := cell0; style := s2; previous := s2 |} in
  let '(c1', m1) := executed c1 m in
  let '(c2', m2) := executed c2 m1 in
  (executed c1' (executed c2' m2).2).2 = m /\
  (executed c2' (executed c1' m2).2).2 = <[cell0 := s1]> m.
Proof.
  intros Hold. cbn zeta.
  assert (forall c m' o, m' !! cell c = Some o ->
            executed c m' =
              ({| cell := cell c; style := previous c; previous := o |},
               <[cell c := previous c]> m')) as step
    by (intros c m' o H; unfold executed; by rewrite (execute_valid c m' o H)).
  rewrite (step {| cell := cell0; style := s1; previous := s1 |} m old Hold).
  cbn [cell previous].
  rewrite (step {| cell := cell0; style := s2; previous := s2 |} _ s1)
    by (cbn; by rewrite lookup_insert_eq).
  cbn [cell previous]. split.
  - rewrite (step {| cell := cell0; style := s2; previous := s1 |} _ s2)
      by (cbn; by rewrite lookup_insert_eq).
    cbn [snd cell previous].
    rewrite (step {| cell := cell0; style := s1; previous := old |} _ s1)
      by (cbn; by rewrite lookup_insert_eq).
    cbn [snd cell previous].
    by rewrite !insert_insert_eq, insert_id.
  - rewrite (step {| cell := cell0; style := s1; previous := old |} _ s2)
      by (cbn; by rewrite lookup_insert_eq).
    cbn [snd cell previous].
    rewrite (step {| cell := cell0; style := s2; previous := s1 |} _ old)
      by (cbn; by rewrite lookup_insert_eq).
    cbn [snd cell previous].
    by rewrite !insert_insert_eq.
Qed.

Lemma undo_order_matters_witness :
  let c1 := {| cell := 7; style := blue; previous := blue |} in
  let c2 := {| cell := 7; style := [("fillColor", "green")];
               previous := [("fillColor", "green")] |} in
  let '(c1', m1) := executed c1 one_red_cell in
  let '(c2', m2) := executed c2 m1 in
  (executed c1' (executed c2' m2).2).2 = one_red_cell /\
  (executed c2' (executed c1' m2).2).2 = <[7 := blue]> one_red_cell.
Proof.
  apply (undo_order_matters 7 blue [("fillColor", "green")] red one_red_cell).
  reflexivity.
Defined.

End UndoableChanges.

(** ** The change-kind registry *)

Module ChangeKindRegistry.
Import UndoableChanges.

(** [new GenericChangeCodec(template, name)]: the codec of a change kind,
    made from a template object and the tag it is registered under. *)
Record GenericChangeCodec : Type := {
  template : StyleChange;
  name : string
}.

Inductive RegistryError : Type :=
| DuplicateRegistration (tag : string).

(** Modelled from the spec: [CodecRegistry] ([serialization/CodecRegistry.ts])
    is not among the sources. The registry maps a tag to the codec of a
    change kind; [register(tag, codec)] fails with a duplicate-registration
    error if the tag already exists, and [lookup(tag)] returns the codec or
    an absent result. *)
Definition register (tag : string) (codec : GenericChangeCodec)
  (registry : gmap string GenericChangeCodec)
  : RegistryError + gmap string GenericChangeCodec :=
  match registry !! tag with
  | Some _ => inl (DuplicateRegistration tag)
  | None => inr (<[tag := codec]> registry)
  end.

Definition lookup (tag : string) (registry : gmap string GenericChangeCodec)
  : option GenericChangeCodec :=
  registry !! tag.

(** Registrations in sequence, as the modules of the library are loaded;
    the first failure ends the sequence. *)
Fixpoint register_all (codecs : list GenericChangeCodec)
  (registry : gmap string GenericChangeCodec)
  : RegistryError + gmap string GenericChangeCodec :=
  match codecs with
  | [] => inr registry
  | codec :: rest =>
      match register (name codec) codec registry with
      | inl e => inl e
      | inr registry' => register_all rest registry'
      end
  end.

(** The codec that [StyleChange.ts] registers when it is loaded; the
    template is a change built from [undefined] arguments. *)
Definition style_codec : GenericChangeCodec :=
  {| template := {| cell := 0; style := []; previous := [] |}; name := "style" |}.

(** *** Properties *)

Lemma register_all_fresh codecs :
  forall registry registry' tag,
    register_all codecs registry = inr registry' ->
    tag ∉ name <$> codecs ->
    lookup tag registry' = lookup tag registry.
Proof.
  induction codecs as [|codec rest IH]; intros registry registry' tag; cbn.
  - by intros [= <-].
  - unfold register. destruct (registry !! name codec) eqn:Hfree; [done|].
    intros Hrest Hnot. apply not_elem_of_cons in Hnot as [Hne Hnot].
    rewrite (IH _ _ tag Hrest Hnot). unfold lookup.
    by rewrite lookup_insert_ne.
Qed.

Lemma register_all_keeps codecs :
  forall registry registry' tag,
    register_all codecs registry = inr registry' ->
    is_Some (lookup tag registry) ->
    is_Some (lookup tag registry').
Proof.
  induction codecs as [|codec rest IH]; intros registry registry' tag; cbn.
  - by intros [= <-].
  - unfold register. destruct (registry !! name codec) eqn:Hfree; [done|].
    intros Hrest Hin. apply (IH _ _ tag Hrest). unfold lookup in *.
    rewrite lookup_insert. case_decide; [by eexists | done].
Qed.

Lemma register_all_registered codecs :
  forall registry registry' tag,
    register_all codecs registry = inr registry' ->
    tag ∈ name <$> codecs ->
    is_Some (lookup tag registry').
Proof.
  induction codecs as [|codec rest IH]; intros registry registry' tag; cbn.
  - intros _ Hin. by apply elem_of_nil in Hin.
  - unfold register. destruct (registry !! name codec) eqn:Hfree; [done|].
    intros Hrest Hin. apply elem_of_cons in Hin as [->|Hin].
    + apply (register_all_keeps _ _ _ _ Hrest). unfold lookup.
      rewrite lookup_insert_eq. by eexists.
    + by apply (IH _ _ tag Hrest).
Qed.

(** C6. In a registry built by successful registrations, registering a
    codec under a tag that one of them used fails with the
    duplicate-registration error for that tag, so that [style] cannot be
    registered twice; looking up a tag that none of them used returns the
    absent result. *)
Theorem duplicate_registration_fails
  (codecs : list GenericChangeCodec) (registry : gmap string GenericChangeCodec)
  (tag unknown : string) (codec : GenericChangeCodec) :
  register_all codecs ∅ = inr registry ->
  tag ∈ name <$> codecs ->
  unknown ∉ name <$> codecs ->
  register tag codec registry = inl (DuplicateRegistration tag) /\
  lookup unknown registry = None.
Proof.
  intros Hall Hin Hnot. split.
  - destruct (register_all_registered _ _ _ _ Hall Hin) as [c Hc].
    unfold register. unfold lookup in Hc. by rewrite Hc.
  - by rewrite (register_all_fresh _ _ _ _ Hall Hnot).
Qed.

(** The registry once [StyleChange.ts] has been loaded. *)
Definition after_loading : gmap string GenericChangeCodec :=
  {[ "style" := style_codec ]}.

Lemma duplicate_registration_fails_witness :
  register "style" style_codec after_loading
    = inl (DuplicateRegistration "style") /\
  lookup "unknown" after_loading = None.
Proof.
  apply (duplicate_registration_fails [style_codec] after_loading
           "style" "unknown" style_codec).
  - reflexivity.
  - cbn. apply list_elem_of_singleton. reflexivity.
  - cbn. intros Hin. apply list_elem_of_singleton in Hin. discriminate.
Defined.

End ChangeKindRegistry.

(** ** The transaction engine *)

Module Transactions.
Import JsEffects JsEffects.Notations.
Local Open Scope eff_scope.

Section Engine.

(** The change records and the document tree they act on. *)
Context {Change Doc : Type}.

(** [change.execute()] of the interface [UndoableChange]: it mutates the
    document and the change object, whose new state it returns. *)
Variable execute_change : Change -> Doc -> Change * Doc.

(** Modelled from the spec: the notifications of the transaction engine, as
    the bus delivers them. "before-undo" and "change" carry the transaction
    under finalization, the object itself and not a copy of its records: the
    handler that [mxLayoutManager.setGraph] registers reads the edit off the
    event ([evt.getProperty('edit')]) and its [changes] off the edit. *)
Inductive Notification : Type :=
| TransactionStarted
| UpdateNestedEnd
| BeforeUndo (seq : nat)
| ChangeNotification (seq : nat)
| EndUpdateNotification
| ProtocolError.

(** Modelled from the spec: the transaction engine ([GraphDataModel], its
    [beginUpdate], [endUpdate] and [execute], and the undo history) is not
    among the sources. The engine keeps the document, the nesting counter,
    the flag that a top-level close is being finalized, the open
    transaction, the two stacks of the history and the log of the bus. A
    transaction is an object shared by the engine, the history and the
    listeners: it is held in [transactions] under its sequence number and
    referred to by that number everywhere else. [discard_empty] is the
    policy of the history towards transactions without records; no size
    bound is configured. *)
Record Engine : Type := {
  document : Doc;
  nesting : nat;
  finalizing : bool;
  current : option nat;
  transactions : gmap nat (list Change);
  next_seq : nat;
  past : list nat;
  future : list nat;
  bus : list Notification;
  discard_empty : bool
}.

Definition set_document (d : Doc) (e : Engine) : Engine :=
  {| document := d; nesting := nesting e; finalizing := finalizing e;
     current := current e; transactions := transactions e;
     next_seq := next_seq e; past := past e; future := future e;
     bus := bus e; discard_empty := discard_empty e |}.

Definition set_nesting (n : nat) (e : Engine) : Engine :=
  {| document := document e; nesting := n; finalizing := finalizing e;
     current := current e; transactions := transactions e;
     next_seq := next_seq e; past := past e; future := future e;
     bus := bus e; discard_empty := discard_empty e |}.

Definition set_finalizing (b : bool) (e : Engine) : Engine :=
  {| document := document e; nesting := nesting e; finalizing := b;
     current := current e; transactions := transactions e;
     next_seq := next_seq e; past := past e; future := future e;
     bus := bus e; discard_empty := discard_empty e |}.

Definition set_current (o : option nat) (e : Engine) : Engine :=
  {| document := document e; nesting := nesting e; finalizing := finalizing e;
     current := o; transactions := transactions e;
     next_seq := next_seq e; past := past e; future := future e;
     bus := bus e; discard_empty := discard_empty e |}.

Definition set_transactions (t : gmap nat (list Change)) (e : Engine) : Engine :=
  {| document := document e; nesting := nesting e; finalizing := finalizing e;
     current := current e; transactions := t;
     next_seq := next_seq e; past := past e; future := future e;
     bus := bus e; discard_empty := discard_empty e |}.

Definition set_next_seq (n : nat) (e : Engine) : Engine :=
  {| document := document e; nesting := nesting e; finalizing := finalizing e;
     current := current e; transactions := transactions e;
     next_seq := n; past := past e; future := future e;
     bus := bus e; discard_empty := discard_empty e |}.

Definition set_history (p f : list nat) (e : Engine) : Engine :=
  {| document := document e; nesting := nesting e; finalizing := finalizing e;
     current := current e; transactions := transactions e;
     next_seq := next_seq e; past := p; future := f;
     bus := bus e; discard_empty := discard_empty e |}.

(** Publishing on the bus. *)
Definition fire (n : Notification) (e : Engine) : Engine :=
  {| document := document e; nesting := nesting e; finalizing := finalizing e;
     current := current e; transactions := transactions e;
     next_seq := next_seq e; past := past e; future := future e;
     bus := bus e ++ [n]; discard_empty := discard_empty e |}.

(** The records of a transaction. *)
Definition records_of (seq : nat) (e : Engine) : list Change :=
  default [] (transactions e !! seq).

(** The records a notification carries: those of its transaction. *)
Definition carried (n : Notification) (e : Engine) : list Change :=
  match n with
  | BeforeUndo seq | ChangeNotification seq => records_of seq e
  | _ => []
  end.

(** A listener is called with the transaction under finalization and may
    call back into the engine; it may throw. *)
Definition Listener : Type := nat -> Eff Engine unit.

Record Listeners : Type := {
  on_before_undo : list Listener;
  on_change : list Listener
}.

Definition first_failure (r r' : Outcome unit) : Outcome unit :=
  match r with Threw x => Threw x | Returned _ => r' end.

(** Modelled from the spec: the notification bus is not among the sources.
    Delivery is synchronous and in registration order. A listener that
    throws does not keep the others from being called, and what has been
    applied stays applied; the first failure is what the caller of
    [endUpdate] gets reported. *)
Fixpoint deliver (ls : list Listener) (seq : nat) : Eff Engine unit :=
  fun e =>
    match ls with
    | [] => (Returned tt, e)
    | l :: rest =>
        match l seq e with
        | (r, e1) =>
            match deliver rest seq e1 with
            | (r', e2) => (first_failure r r', e2)
            end
        end
    end.

(** Modelled from the spec: [beginUpdate()] is not among the sources. It
    increments the nesting counter; if it was 0 a new empty transaction is
    opened and "transaction started" fires, unless a finalization is
    running, of which the call is then an extension. It never fails. *)
Definition beginUpdate (e : Engine) : Engine :=
  match nesting e with
  | 0 =>
      if finalizing e then set_nesting 1 e
      else
        fire TransactionStarted
          (set_nesting 1
             (set_current (Some (next_seq e))
                (set_transactions (<[next_seq e := []]> (transactions e))
                   (set_next_seq (S (next_seq e)) e))))
  | S n => set_nesting (S (S n)) e
  end.

(** Modelled from the spec: [push(transaction)] of the history is not among
    the sources. It appends to the past and clears the future; a
    transaction without records is dropped if the policy says so. *)
Definition push (seq : nat) (e : Engine) : Engine :=
  if discard_empty e && bool_decide (records_of seq e = [])
  then e
  else set_history (seq :: past e) [] e.

(** Modelled from the spec: the outermost close of an update is not among
    the sources. "before-undo" fires before the transaction is pushed to the
    history, then "change" fires with the transaction, then "end-update";
    the transaction stays open to the listeners of both notifications,
    which are called with the finalizing flag set. The history takes the
    transaction of an edit; it does not take the one of the update that
    [undo()] wraps around its replay ([to_history] is false there), which
    would clear the future that the undone transaction is about to join. *)
Definition finalize (L : Listeners) (to_history : bool) (seq : nat)
  : Eff Engine unit :=
  fun e =>
    let e := fire (BeforeUndo seq) (set_finalizing true e) in
    match deliver (on_before_undo L) seq e with
    | (r1, e) =>
        let e := if to_history then push seq e else e in
        let e := fire (ChangeNotification seq) e in
        match deliver (on_change L) seq e with
        | (r2, e) =>
            let e := fire EndUpdateNotification e in
            (first_failure r1 r2, set_current None (set_finalizing false e))
        end
    end.

(** Modelled from the spec: closing a level is not among the sources. With
    the counter already at 0 the call is reported and changes nothing else;
    otherwise the counter is decremented and, if it is still above 0,
    "update nested-end" fires; at 0 the open transaction is finalized,
    unless a finalization is running already, which the call then only
    extends. *)
Definition close_update (L : Listeners) (to_history : bool) : Eff Engine unit :=
  fun e =>
    match nesting e with
    | 0 => (Returned tt, fire ProtocolError e)
    | S (S n) => (Returned tt, fire UpdateNestedEnd (set_nesting (S n) e))
    | 1 =>
        let e := set_nesting 0 e in
        if finalizing e then (Returned tt, e)
        else
          match current e with
          | Some seq => finalize L to_history seq e
          | None => (Returned tt, e)
          end
    end.

(** Modelled from the spec: [endUpdate()] is not among the sources. *)
Definition endUpdate (L : Listeners) : Eff Engine unit := close_update L true.

(** Modelled from the spec: appending a record to the open transaction. *)
Definition record_change (c : Change) (e : Engine) : Engine :=
  match current e with
  | Some seq =>
      set_transactions (<[seq := records_of seq e ++ [c]]> (transactions e)) e
  | None => e
  end.

(** Modelled from the spec: [execute(change)] is not among the sources. It
    applies the change to the document and records it into the open
    transaction, opening a level around it (a top-level transaction if none
    is open) and closing that level again, and returns the change as
    applied. *)
Definition execute (L : Listeners) (c : Change) : Eff Engine Change :=
  fun e =>
    let e := beginUpdate e in
    match execute_change c (document e) with
    | (c', d') =>
        match endUpdate L (record_change c' (set_document d' e)) with
        | (Returned _, e') => (Returned c', e')
        | (Threw x, e') => (Threw x, e')
        end
    end.

(** Executing records one after the other; the records come back in the
    state their [execute()] left them in. *)
Fixpoint replay (recs : list Change) (d : Doc) : list Change * Doc :=
  match recs with
  | [] => ([], d)
  | c :: rest =>
      match execute_change c d with
      | (c', d1) =>
          match replay rest d1 with
          | (rest', d2) => (c' :: rest', d2)
          end
      end
  end.

Inductive UndoResult : Type := Undone | NothingToUndo.

(** Modelled from the spec: the replay of [undo()], the engine executing
    records one after the other; it returns them in the state their
    [execute()] left them in. *)
Fixpoint replay_on (L : Listeners) (recs : list Change) : Eff Engine (list Change) :=
  match recs with
  | [] => ret []
  | c :: rest =>
      let* c' := execute L c in
      let* rest' := replay_on L rest in
      ret (c' :: rest')
  end.

(** Modelled from the spec: [undo()] is not among the sources. It pops the
    most recent transaction from the past and executes its records in
    reverse order inside a [beginUpdate]/[endUpdate] pair of its own, so
    that the reversal is a transaction with notifications like any other,
    except that the history does not take it; the undone transaction, its
    records in the state the reversal left them in and in their first
    order, which is the one of [redo()], goes onto the future. On an empty
    past it reports that there is nothing to undo. *)
Definition undo (L : Listeners) : Eff Engine UndoResult :=
  fun e =>
    match past e with
    | [] => (Returned NothingToUndo, e)
    | seq :: rest =>
        let e := beginUpdate (set_history rest (future e) e) in
        match replay_on L (reverse (records_of seq e)) e with
        | (Returned inverted, e) =>
            let e :=
              set_transactions (<[seq := reverse inverted]> (transactions e)) e in
            match close_update L false e with
            | (r, e) =>
                (match r with Returned _ => Returned Undone | Threw x => Threw x end,
                 set_history (past e) (seq :: future e) e)
            end
        | (Threw x, e) => (Threw x, e)
        end
    end.

(** A call pattern of a client of the engine. *)
Inductive Call : Type :=
| Begin
| End_
| Execute (c : Change).

Definition call (L : Listeners) (c : Call) : Eff Engine unit :=
  match c with
  | Begin => modify beginUpdate
  | End_ => endUpdate L
  | Execute c => let* _ := execute L c in ret tt
  end.

Fixpoint run (L : Listeners) (pattern : list Call) : Eff Engine unit :=
  match pattern with
  | [] => ret tt
  | c :: rest => call L c ;;; run L rest
  end.

(** From inside [depth] open levels, the pattern closes the outermost level
    with its very last call and not before. *)
Fixpoint closes_at_end (depth : nat) (pattern : list Call) : bool :=
  match pattern with
  | [] => false
  | Begin :: rest => closes_at_end (S depth) rest
  | Execute _ :: rest => closes_at_end depth rest
  | End_ :: rest =>
      match depth with
      | 0 => match rest with [] => true | _ => false end
      | S d => closes_at_end d rest
      end
  end.

(** One top-level [beginUpdate] ... [endUpdate] pair with balanced calls in
    between, nested at will. *)
Definition one_top_level_pair (pattern : list Call) : bool :=
  match pattern with
  | Begin :: rest => closes_at_end 0 rest
  | _ => false
  end.

(** The records the [execute] calls of a pattern produce, in order. *)
Fixpoint produced (pattern : list Call) (d : Doc) : list Change :=
  match pattern with
  | [] => []
  | Execute c :: rest =>
      match execute_change c d with
      | (c', d') => c' :: produced rest d'
      end
  | _ :: rest => produced rest d
  end.

(** The document the [execute] calls of a pattern lead to. *)
Fixpoint edited (pattern : list Call) (d : Doc) : Doc :=
  match pattern with
  | [] => d
  | Execute c :: rest => edited rest (execute_change c d).2
  | _ :: rest => edited rest d
  end.

(** The engine at rest: nothing open, nothing being finalized. *)
Definition at_rest (e : Engine) : Prop :=
  nesting e = 0 /\ finalizing e = false /\ current e = None.

(** *** What a listener may do during finalization *)

(** Undoing a run of records: replaying them last to first. *)
Definition rewind (recs : list Change) (d : Doc) : Doc :=
  (replay (reverse recs) d).2.



(** Executing a change twice in a row leaves the document as it was. *)
Definition involutive : Prop :=
  forall c d,
    (execute_change (execute_change c d).1 (execute_change c d).2).2 = d.

Lemma replay_app recs1 recs2 d :
  replay (recs1 ++ recs2) d =
  let '(r1, d1) := replay recs1 d in
  let '(r2, d2) := replay recs2 d1 in
  (r1 ++ r2, d2).
Proof.
  revert d. induction recs1 as [|c rest IH]; intros d; cbn.
  - by destruct (replay recs2 d).
  - destruct (execute_change c d) as [c' d1]. rewrite IH.
    destruct (replay rest d1) as [r1 d2].
    by destruct (replay recs2 d2).
Qed.

Lemma rewind_app recs1 recs2 d :
  rewind (recs1 ++ recs2) d = rewind recs1 (rewind recs2 d).
Proof.
  unfold rewind. rewrite reverse_app, replay_app.
  destruct (replay (reverse recs2) d) as [r2 d2]. cbn.
  by destruct (replay (reverse recs1) d2).
Qed.

Lemma rewind_executed c d :
  involutive ->
  rewind [(execute_change c d).1] (execute_change c d).2 = d.
Proof.
  intros Hinv. unfold rewind. cbn.
  specialize (Hinv c d).
  destruct (execute_change c d) as [c' d']. cbn in *.
  by destruct (execute_change c' d').
Qed.





Definition nested_ends (ns : list Notification) : Prop :=
  Forall (fun n => n = UpdateNestedEnd) ns.

(** *** Calls into the engine while a finalization is running *)

Lemma beginUpdate_reentrant e :
  finalizing e = true -> beginUpdate e = set_nesting (S (nesting e)) e.
Proof. intros Hf. unfold beginUpdate. rewrite Hf. by destruct (nesting e). Qed.

Lemma endUpdate_reentrant L e n :
  finalizing e = true -> nesting e = S n ->
  endUpdate L e =
  (Returned tt,
   match n with
   | 0 => set_nesting 0 e
   | S _ => fire UpdateNestedEnd (set_nesting n e)
   end).
Proof.
  intros Hf Hn. unfold endUpdate, close_update. rewrite Hn.
  destruct n; [|done]. cbn [finalizing set_nesting]. by rewrite Hf.
Qed.

(** While a finalization is running, [execute] appends the record to the
    transaction under finalization and opens no other. *)
Lemma execute_while_finalizing L c e seq :
  finalizing e = true -> current e = Some seq ->
  is_Some (transactions e !! seq) ->
  (execute L c e).1 = Returned (execute_change c (document e)).1 /\
  transactions (execute L c e).2 =
    <[seq := records_of seq e ++ [(execute_change c (document e)).1]]>
      (transactions e) /\
  document (execute L c e).2 = (execute_change c (document e)).2 /\
  nesting (execute L c e).2 = nesting e /\
  finalizing (execute L c e).2 = true /\
  current (execute L c e).2 = Some seq /\
  next_seq (execute L c e).2 = next_seq e /\
  past (execute L c e).2 = past e /\
  future (execute L c e).2 = future e /\
  discard_empty (execute L c e).2 = discard_empty e /\
  exists extra, bus (execute L c e).2 = bus e ++ extra /\ nested_ends extra.
Proof.
  intros Hf Hc Hs. unfold execute. rewrite (beginUpdate_reentrant e Hf).
  cbn [document set_nesting].
  destruct (execute_change c (document e)) as [c' d'].
  unfold record_change. cbn [current set_document set_nesting]. rewrite Hc.
  rewrite (endUpdate_reentrant L _ (nesting e)) by done.
  cbn [fst snd].
  destruct (nesting e) as [|n]; cbn; repeat split; try done.
  - exists []. split; [by rewrite app_nil_r | constructor].
  - exists [UpdateNestedEnd]. split; [done | by constructor].
Qed.

(** *** The outermost close *)



(** *** Nested call patterns *)

Lemma bind_ret_unit {S} (m : Eff S unit) s : bind m (fun _ => ret tt) s = m s.
Proof. unfold bind, ret. by destruct (m s) as [[[]|x] s']. Qed.

(** Inside an open transaction that is not being finalized, a pattern that
    closes the outermost level with its last call first brings the engine
    to [e1], one level deep, and then makes the outermost [endUpdate]. *)
Lemma run_to_outermost_close L pattern :
  forall depth e seq recs,
    nesting e = S depth -> finalizing e = false -> current e = Some seq ->
    transactions e !! seq = Some recs ->
    closes_at_end depth pattern = true ->
    exists e1 nested,
      run L pattern e = endUpdate L e1 /\
      nesting e1 = 1 /\ finalizing e1 = false /\ current e1 = Some seq /\
      transactions e1 =
        <[seq := recs ++ produced pattern (document e)]> (transactions e) /\
      next_seq e1 = next_seq e /\ past e1 = past e /\ future e1 = future e /\
      discard_empty e1 = discard_empty e /\
      bus e1 = bus e ++ nested /\ nested_ends nested /\
      (involutive ->
       rewind (produced pattern (document e)) (document e1) = document e) /\
      document e1 = edited pattern (document e).
Proof.
  induction pattern as [|c rest IH]; intros depth e seq recs Hn Hf Hc Hrecs Hp;
    [done|].
  destruct c as [| |c]; cbn [closes_at_end] in Hp.
  - (* beginUpdate *)
    destruct (IH (S depth) (beginUpdate e) seq recs)
      as (e1 & nested & Hrun & ?); try done.
    { unfold beginUpdate. by rewrite Hn. }
    { unfold beginUpdate. by rewrite Hn. }
    { unfold beginUpdate. by rewrite Hn. }
    { unfold beginUpdate. by rewrite Hn. }
    exists e1, nested. split; [exact Hrun|].
    unfold beginUpdate in *. rewrite Hn in *. done.
  - (* endUpdate *)
    destruct depth as [|d].
    + destruct rest; [|done].
      exists e, []. cbn [run call]. rewrite bind_ret_unit.
      cbn [produced]. rewrite !app_nil_r, (insert_id _ _ _ Hrecs).
      repeat split; try done. constructor.
    + destruct (IH d (fire UpdateNestedEnd (set_nesting (S d) e)) seq recs)
        as (e1 & nested & Hrun & N1 & F1 & C1 & T1 & S1 & P1 & U1 & D1 & B1 & X1 &
            R1 & E1);
        try done.
      exists e1, (UpdateNestedEnd :: nested).
      split.
      { cbn [run call]. unfold bind at 1, endUpdate at 1, close_update at 1.
        by rewrite Hn. }
      cbn in T1, S1, P1, U1, D1, B1, R1, E1. cbn [produced edited].
      repeat split; try done.
      * by rewrite B1, <- app_assoc.
      * by constructor.
  - (* execute *)
    destruct (execute_change c (document e)) as [c' d'] eqn:Hx.
    set (e' := fire UpdateNestedEnd
                 (set_nesting (S depth)
                    (set_transactions (<[seq := recs ++ [c']]> (transactions e))
                       (set_document d' (set_nesting (S (S depth)) e))))).
    assert (call L (Execute c) e = (Returned tt, e')) as Hcall.
    { cbn [call]. unfold bind, execute, beginUpdate. rewrite Hn.
      cbn [document set_nesting]. rewrite Hx.
      unfold record_change. cbn [current set_document set_nesting]. rewrite Hc.
      unfold records_of at 1. cbn [transactions set_document set_nesting].
      rewrite Hrecs. cbn [default]. unfold endUpdate, close_update.
      cbn [nesting set_transactions].
      reflexivity. }
    destruct (IH depth e' seq (recs ++ [c']))
      as (e1 & nested & Hrun & N1 & F1 & C1 & T1 & S1 & P1 & U1 & D1 & B1 & X1 &
          R1 & E1);
      try done.
    { subst e'. cbn. by rewrite lookup_insert_eq. }
    exists e1, (UpdateNestedEnd :: nested).
    split.
    { cbn [run]. unfold bind at 1. by rewrite Hcall. }
    cbn in T1, S1, P1, U1, D1, B1, R1, E1. cbn [produced edited]. rewrite Hx.
    repeat split; try done.
    + by rewrite T1, insert_insert_eq, <- app_assoc.
    + by rewrite B1, <- app_assoc.
    + by constructor.
    + intros Hinv. change (c' :: produced rest d') with ([c'] ++ produced rest d').
      rewrite rewind_app, (R1 Hinv).
      pose proof (rewind_executed c (document e) Hinv) as Hre.
      by rewrite Hx in Hre.
Qed.









(** *** Listeners that execute changes *)

(** Modelled from the spec: the layouts and the listeners are not among the
    sources. What one of them does when it is called (4.1, 6): it calls
    back into [execute], change after change, and may throw after that.
    A [beginUpdate]/[endUpdate] pair of its own around these calls would be
    one more level inside the finalization and add nothing but a
    nested-end notification. *)
Record Reaction : Type := { requests : list Change; failure : option string }.

(** Modelled from the spec: the calls of [execute] of a reaction. *)
Fixpoint execute_all (L : Listeners) (cs : list Change) : Eff Engine unit :=
  match cs with
  | [] => ret tt
  | c :: rest => let* _ := execute L c in execute_all L rest
  end.

(** Modelled from the spec: a reaction to the document as it is found. *)
Definition react (L : Listeners) (r : Doc -> Reaction) : Eff Engine unit :=
  fun e =>
    let reaction := r (document e) in
    (execute_all L (requests reaction) ;;;
     match failure reaction with
     | Some x => throw x
     | None => ret tt
     end) e.

(** Modelled from the spec: a listener that reacts to the records of the
    transaction it is called with and to the document. *)
Definition reacting (L : Listeners) (r : list Change -> Doc -> Reaction) : Listener :=
  fun seq e => react L (r (records_of seq e)) e.

(** What has come of reactions: the records as applied, in order, the
    document they lead to, and the exception if one was thrown. *)
Record Reacted : Type := {
  applied : list Change;
  document_after : Doc;
  failed : option string
}.

Definition nothing (d : Doc) : Reacted :=
  {| applied := []; document_after := d; failed := None |}.

Definition reacted (r : Doc -> Reaction) (d : Doc) : Reacted :=
  {| applied := (replay (requests (r d)) d).1;
     document_after := (replay (requests (r d)) d).2;
     failed := failure (r d) |}.

(** One after the other, as statements in sequence: an exception of the
    first keeps the second from running. *)
Definition and_then (p q : Doc -> Reacted) (d : Doc) : Reacted :=
  match failed (p d) with
  | Some _ => p d
  | None =>
      let second := q (document_after (p d)) in
      {| applied := applied (p d) ++ applied second;
         document_after := document_after second;
         failed := failed second |}
  end.

Definition first_of (f f' : option string) : option string :=
  match f with Some x => Some x | None => f' end.

Definition outcome_of (f : option string) : Outcome unit :=
  match f with Some x => Threw x | None => Returned tt end.

(** The listeners of one notification reacting in turn, as [deliver] calls
    them: each finds the records and the document the ones before it left,
    and an exception of one does not keep the next from being called. *)
Fixpoint reactions (rs : list (list Change -> Doc -> Reaction))
  (recs : list Change) (d : Doc) : Reacted :=
  match rs with
  | [] => nothing d
  | r :: rest =>
      let first := reacted (r recs) d in
      let others := reactions rest (recs ++ applied first) (document_after first) in
      {| applied := applied first ++ applied others;
         document_after := document_after others;
         failed := first_of (failed first) (failed others) |}
  end.

(** [e'] is [e] with the records [recs] appended to transaction [seq] and
    with the document [d']; the bus has nested-end notifications more. *)
Record extended (seq : nat) (recs : list Change) (d' : Doc) (e e' : Engine)
  : Prop := {
  ext_nesting : nesting e' = nesting e;
  ext_finalizing : finalizing e' = finalizing e;
  ext_current : current e' = current e;
  ext_next_seq : next_seq e' = next_seq e;
  ext_past : past e' = past e;
  ext_future : future e' = future e;
  ext_policy : discard_empty e' = discard_empty e;
  ext_records :
    transactions e' = <[seq := records_of seq e ++ recs]> (transactions e);
  ext_document : document e' = d';
  ext_bus : exists extra, bus e' = bus e ++ extra /\ nested_ends extra
}.

(** A call that, made during a finalization, does to the engine what [p]
    says of the document it finds. *)
Definition reacts (m : Eff Engine unit) (p : Doc -> Reacted) : Prop :=
  forall seq e,
    finalizing e = true -> current e = Some seq ->
    is_Some (transactions e !! seq) ->
    (m e).1 = outcome_of (failed (p (document e))) /\
    extended seq (applied (p (document e))) (document_after (p (document e)))
      e (m e).2.

(** Undoing what was applied leads back to where it started. *)
Definition reversible (p : Doc -> Reacted) : Prop :=
  forall d, rewind (applied (p d)) (document_after (p d)) = d.

Lemma extended_refl seq e :
  is_Some (transactions e !! seq) -> extended seq [] (document e) e e.
Proof.
  intros [recs Hrecs]. split; try done.
  - rewrite app_nil_r. unfold records_of. rewrite Hrecs. cbn.
    by rewrite insert_id.
  - exists []. split; [by rewrite app_nil_r | constructor].
Qed.

Lemma extended_lookup seq recs d e e' :
  extended seq recs d e e' ->
  transactions e' !! seq = Some (records_of seq e ++ recs).
Proof. intros H. by rewrite (ext_records _ _ _ _ _ H), lookup_insert_eq. Qed.

Lemma extended_trans seq recs1 recs2 d1 d2 e1 e2 e3 :
  extended seq recs1 d1 e1 e2 -> extended seq recs2 d2 e2 e3 ->
  extended seq (recs1 ++ recs2) d2 e1 e3.
Proof.
  intros [N1 F1 C1 S1 P1 U1 Y1 T1 D1 (x1 & B1 & X1)]
         [N2 F2 C2 S2 P2 U2 Y2 T2 D2 (x2 & B2 & X2)].
  split; try congruence.
  - rewrite T2. unfold records_of at 1. rewrite T1, lookup_insert_eq. cbn.
    by rewrite insert_insert_eq, <- app_assoc.
  - exists (x1 ++ x2). rewrite B2, B1, <- app_assoc.
    split; [done | by apply Forall_app].
Qed.


Lemma rewind_replay cs d :
  involutive -> rewind (replay cs d).1 (replay cs d).2 = d.
Proof.
  intros Hinv. revert d. induction cs as [|c rest IH]; intros d; [done|].
  cbn [replay]. pose proof (rewind_executed c d Hinv) as Hc.
  destruct (execute_change c d) as [c' d1]. cbn [fst snd] in Hc.
  specialize (IH d1). destruct (replay rest d1) as [rest' d2]. cbn [fst snd] in *.
  change (c' :: rest') with ([c'] ++ rest'). by rewrite rewind_app, IH.
Qed.

Lemma reversible_nothing : reversible nothing.
Proof. by intros d. Qed.

Lemma reversible_reacted r : involutive -> reversible (reacted r).
Proof. intros Hinv d. by apply rewind_replay. Qed.

Lemma reversible_and_then p q :
  reversible p -> reversible q -> reversible (and_then p q).
Proof.
  intros Hp Hq d. unfold and_then. destruct (failed (p d)); [apply Hp|].
  cbn. by rewrite rewind_app, Hq, Hp.
Qed.

Lemma reversible_reactions rs :
  involutive -> forall recs, reversible (reactions rs recs).
Proof.
  intros Hinv. induction rs as [|r rest IH]; intros recs d; [done|].
  cbn. rewrite rewind_app, IH. by apply rewind_replay.
Qed.

Lemma execute_all_extended L cs :
  forall seq e,
    finalizing e = true -> current e = Some seq ->
    is_Some (transactions e !! seq) ->
    (execute_all L cs e).1 = Returned tt /\
    extended seq (replay cs (document e)).1 (replay cs (document e)).2
      e (execute_all L cs e).2.
Proof.
  induction cs as [|c rest IH]; intros seq e Hf Hc Hs; cbn [execute_all replay].
  - split; [done | by apply extended_refl].
  - destruct (execute_while_finalizing L c e seq Hf Hc Hs)
      as (R & T & D & N & F & C & S & P & U & Y & X).
    unfold bind. destruct (execute L c e) as [[c'|x] e1]; cbn [fst snd] in *;
      [|done].
    destruct (IH seq e1) as [R2 X2]; [done | done | |].
    { rewrite T, lookup_insert_eq. by eexists. }
    rewrite D in X2.
    destruct (execute_change c (document e)) as [c1 d1]. cbn [fst snd] in *.
    destruct (replay rest d1) as [rest' d2]. cbn [fst snd] in *.
    split; [done|].
    change (c1 :: rest') with ([c1] ++ rest').
    apply (extended_trans seq _ _ d1 _ e e1); [|done].
    split; try done; congruence.
Qed.

Lemma react_reacts L r : reacts (react L r) (reacted r).
Proof.
  intros seq e Hf Hc Hs. unfold react, bind.
  destruct (execute_all_extended L (requests (r (document e))) seq e Hf Hc Hs)
    as [R X].
  destruct (execute_all L _ e) as [[[]|x] e1]; cbn [fst snd] in *; [|done].
  unfold reacted. cbn [applied document_after failed].
  by destruct (failure (r (document e))).
Qed.

(** The listeners of a notification that react through [execute]. *)
Lemma deliver_reacting L rs :
  forall seq e recs,
    finalizing e = true -> current e = Some seq ->
    transactions e !! seq = Some recs ->
    (deliver (reacting L <$> rs) seq e).1 =
      outcome_of (failed (reactions rs recs (document e))) /\
    extended seq (applied (reactions rs recs (document e)))
      (document_after (reactions rs recs (document e)))
      e (deliver (reacting L <$> rs) seq e).2.
Proof.
  induction rs as [|r rest IH]; intros seq e recs Hf Hc Hrecs;
    cbn [fmap list_fmap deliver reactions].
  - split; [done | apply extended_refl; by eexists].
  - assert (records_of seq e = recs) as Hr
      by (unfold records_of; by rewrite Hrecs).
    destruct (react_reacts L (r recs) seq e Hf Hc) as [R1 X1]; [by eexists|].
    assert (reacting L r seq e = react L (r recs) e) as ->
      by (unfold reacting; by rewrite Hr).
    destruct (react L (r recs) e) as [r1 e1]. cbn [fst snd] in *.
    destruct (IH seq e1 (recs ++ applied (reacted (r recs) (document e))))
      as [R2 X2].
    { by rewrite (ext_finalizing _ _ _ _ _ X1). }
    { by rewrite (ext_current _ _ _ _ _ X1). }
    { by rewrite (extended_lookup _ _ _ _ _ X1), Hr. }
    rewrite (ext_document _ _ _ _ _ X1) in R2, X2.
    destruct (deliver (reacting L <$> rest) seq e1) as [r2 e2].
    cbn [fst snd applied document_after failed] in *.
    split.
    + rewrite R1, R2.
      by destruct (failed (reacted (r recs) (document e))).
    + by apply (extended_trans _ _ _ _ _ _ _ _ X1).
Qed.


(** Closing the level that a [beginUpdate] opened during a finalization. *)
Lemma extended_in_update L seq recs d e eb :
  finalizing e = true ->
  extended seq recs d (beginUpdate e) eb ->
  (endUpdate L eb).1 = Returned tt /\ extended seq recs d e (endUpdate L eb).2.
Proof.
  intros Hf [N F C Q P U Y T D (x & B & X)].
  rewrite (beginUpdate_reentrant e Hf) in *.
  cbn [nesting finalizing current next_seq past future discard_empty
       transactions bus set_nesting] in *.
  assert (records_of seq (set_nesting (S (nesting e)) e) = records_of seq e)
    as Hr by done.
  rewrite Hr in T.
  rewrite (endUpdate_reentrant L eb (nesting e)) by congruence.
  split; [done|]. cbn [snd].
  destruct (nesting e) as [|n] eqn:Hn; split; cbn; try done.
  - by exists x.
  - exists (x ++ [UpdateNestedEnd]). rewrite B, <- app_assoc.
    split; [done|]. apply Forall_app. split; [done | by constructor].
Qed.

(** The engine executing records inside an open update that is not being
    finalized. *)
Lemma replay_on_open L recs :
  forall e seq held n,
    nesting e = S n -> finalizing e = false -> current e = Some seq ->
    transactions e !! seq = Some held ->
    exists e',
      replay_on L recs e = (Returned (replay recs (document e)).1, e') /\
      nesting e' = S n /\ finalizing e' = false /\ current e' = Some seq /\
      transactions e' =
        <[seq := held ++ (replay recs (document e)).1]> (transactions e) /\
      document e' = (replay recs (document e)).2 /\
      next_seq e' = next_seq e /\ past e' = past e /\ future e' = future e /\
      discard_empty e' = discard_empty e.
Proof.
  induction recs as [|c rest IH]; intros e seq held n Hn Hf Hc Hheld;
    cbn [replay_on replay].
  - exists e. rewrite app_nil_r, (insert_id _ _ _ Hheld). by repeat split.
  - destruct (execute_change c (document e)) as [c' d'] eqn:Hx.
    set (e1 := fire UpdateNestedEnd
                 (set_nesting (S n)
                    (set_transactions (<[seq := held ++ [c']]> (transactions e))
                       (set_document d' (set_nesting (S (S n)) e))))).
    assert (execute L c e = (Returned c', e1)) as Hexec.
    { unfold execute, beginUpdate. rewrite Hn.
      cbn [document set_nesting]. rewrite Hx.
      unfold record_change. cbn [current set_document set_nesting]. rewrite Hc.
      unfold records_of at 1. cbn [transactions set_document set_nesting].
      rewrite Hheld. cbn [default]. unfold endUpdate, close_update.
      cbn [nesting set_transactions]. reflexivity. }
    destruct (IH e1 seq (held ++ [c']) n) as (e' & Hrun & H); try done.
    { subst e1. cbn. by rewrite lookup_insert_eq. }
    assert (document e1 = d') as Hd by done. rewrite Hd in *.
    destruct (replay rest d') as [rest' d2]. cbn [fst snd] in *.
    exists e'. unfold bind at 1. rewrite Hexec. unfold bind at 1. rewrite Hrun.
    split; [done|].
    destruct H as (? & ? & ? & T & ? & ? & ? & ? & ?).
    repeat split; try done.
    rewrite T. subst e1. cbn. by rewrite insert_insert_eq, <- app_assoc.
Qed.

End Engine.

Arguments Engine : clear implicits.
Arguments Notification : clear implicits.
Arguments Listener : clear implicits.
Arguments Listeners : clear implicits.
Arguments Reaction : clear implicits.
Arguments Reacted : clear implicits.

(** *** The layout manager as a listener of the engine *)

Section LayoutReaction.

Context {Change Doc Layout : Type}.
Variable execute_change : Change -> Doc -> Change * Doc.

(** What the [instanceof] tests of the manager see of a record. *)
Variable describe : Change -> MxLayoutManager.Change.
(** [model.getRoot()] reads the document. *)
Variable getRoot : Doc -> option MxLayoutManager.mxCell.
(** [layout.execute(cell)] and the listeners of [LAYOUT_CELLS]: what they
    execute on the model, given the document they find. *)
Variable layouts : Layout -> MxLayoutManager.mxCell -> Doc -> Reaction Change.
Variable cells_listeners : list MxLayoutManager.mxCell -> Doc -> Reaction Change.
Variable sortCells : list MxLayoutManager.mxCell -> bool -> list MxLayoutManager.mxCell.
(** The listeners an [endUpdate] of the model reaches. *)
Variable L0 : Listeners Change Doc.

(** The engine in the role of the manager's model. *)
Definition engine_model : MxLayoutManager.Collaborators (Engine Change Doc) Layout :=
  {| MxLayoutManager.model_beginUpdate := beginUpdate;
     MxLayoutManager.model_endUpdate := endUpdate L0;
     MxLayoutManager.model_getRoot := fun e => getRoot (document e);
     MxLayoutManager.layout_execute :=
       fun layout cell => react execute_change L0 (layouts layout cell);
     MxLayoutManager.layoutCells_listeners :=
       fun cells => react execute_change L0 (cells_listeners cells);
     MxLayoutManager.sortCells := sortCells |}.

(** The handler that [setGraph] registers for [BEFORE_UNDO]: it gets the
    edit, that is the transaction under finalization, with the event. *)
Definition layout_listener (this : MxLayoutManager.mxLayoutManager Layout)
  : Listener Change Doc :=
  fun seq e =>
    let edit := {| MxLayoutManager.changes := describe <$> records_of seq e |} in
    match MxLayoutManager.undoHandler engine_model this edit
            {| MxLayoutManager.model := e; MxLayoutManager.calls := [] |} with
    | (r, w) => (r, MxLayoutManager.model w)
    end.

(** The listeners of a model that has a layout manager attached, which
    listens for "before-undo", besides [others] that listen for "change"
    and react through [execute]. *)
Definition with_layout_manager (this : MxLayoutManager.mxLayoutManager Layout)
  (others : list (list Change -> Doc -> Reaction Change)) : Listeners Change Doc :=
  {| on_before_undo := [layout_listener this];
     on_change := reacting execute_change L0 <$> others |}.

(** *** The corrections of the manager *)

(** What the manager is to have executed on the model when its handler
    returns, told from the changes of the edit and the document alone. *)

(** [executeLayout]: the layout of the cell for the phase, if it has one. *)
Definition layout_for (this : MxLayoutManager.mxLayoutManager Layout)
  (cell : MxLayoutManager.mxCell) (bubble : bool) : Doc -> Reacted Change Doc :=
  match MxLayoutManager.getLayout this (Some cell)
          (if bubble then MxLayoutManager.BEGIN_UPDATE
           else MxLayoutManager.END_UPDATE) with
  | Some layout => reacted execute_change (layouts layout cell)
  | None => nothing
  end.

(** The loop of [layoutCells]: the layouts of the cells in turn, on the
    document the layouts before left; the root of that document and a cell
    that was laid out just before are passed over. *)
Fixpoint corrections_loop (this : MxLayoutManager.mxLayoutManager Layout)
  (cells : list MxLayoutManager.mxCell) (last : option MxLayoutManager.mxCell)
  (bubble : bool) (d : Doc) {struct cells} : Reacted Change Doc :=
  match cells with
  | [] => nothing d
  | cell :: rest =>
      if negb (MxLayoutManager.same_cell (Some cell) (getRoot d)) &&
         negb (MxLayoutManager.same_cell (Some cell) last)
      then and_then (layout_for this cell bubble)
             (corrections_loop this rest (Some cell) bubble) d
      else corrections_loop this rest last bubble d
  end.

(** [layoutCells]: the loop, then the listeners of [LAYOUT_CELLS]; nothing
    for no cells. *)
Definition corrections_pass (this : MxLayoutManager.mxLayoutManager Layout)
  (cells : list MxLayoutManager.mxCell) (bubble : bool) : Doc -> Reacted Change Doc :=
  match cells with
  | [] => nothing
  | _ :: _ =>
      and_then (corrections_loop this cells None bubble)
        (reacted execute_change (cells_listeners cells))
  end.

(** The handler of [BEFORE_UNDO]: for the cells of the changes, sorted, one
    pass down and one pass up, if the manager is enabled. *)
Definition layout_corrections (this : MxLayoutManager.mxLayoutManager Layout)
  (changes : list MxLayoutManager.Change) : Doc -> Reacted Change Doc :=
  if MxLayoutManager.enabled this then
    let sorted :=
      sortCells (MxLayoutManager.getCellsForChanges this changes) false in
    and_then (corrections_pass this sorted true)
      (corrections_pass this (reverse sorted) false)
  else nothing.

(** A call of the manager that, made during a finalization, does to the
    model what [p] says of the document it finds. *)
Definition performs (m : Eff (MxLayoutManager.World (Engine Change Doc)) unit)
  (p : Doc -> Reacted Change Doc) : Prop :=
  forall seq w,
    finalizing (MxLayoutManager.model w) = true ->
    current (MxLayoutManager.model w) = Some seq ->
    is_Some (transactions (MxLayoutManager.model w) !! seq) ->
    (m w).1 = outcome_of (failed (p (document (MxLayoutManager.model w)))) /\
    extended seq (applied (p (document (MxLayoutManager.model w))))
      (document_after (p (document (MxLayoutManager.model w))))
      (MxLayoutManager.model w) (MxLayoutManager.model (m w).2).

Lemma bind_gets {S A B} (f : S -> A) (k : A -> Eff S B) s :
  bind (gets f) k s = k (f s) s.
Proof. reflexivity. Qed.

Lemma performs_ret : performs (ret tt) nothing.
Proof. intros seq w _ _ Hs. split; [done | by apply extended_refl]. Qed.

Lemma performs_on_model m p :
  reacts m p -> performs (MxLayoutManager.on_model m) p.
Proof.
  intros Hm seq w Hf Hc Hs. unfold MxLayoutManager.on_model.
  specialize (Hm seq _ Hf Hc Hs).
  by destruct (m (MxLayoutManager.model w)) as [r e'].
Qed.

Lemma performs_issued c m p :
  reacts m p ->
  performs (bind (MxLayoutManager.issue c) (fun _ => MxLayoutManager.on_model m)) p.
Proof.
  intros Hm seq w Hf Hc Hs.
  apply (performs_on_model m p Hm seq
           {| MxLayoutManager.model := MxLayoutManager.model w;
              MxLayoutManager.calls := MxLayoutManager.calls w ++ [c] |});
    done.
Qed.

Lemma performs_bind m k p q :
  performs m p -> performs k q -> performs (bind m (fun _ => k)) (and_then p q).
Proof.
  intros Hm Hk seq w Hf Hc Hs. unfold bind, and_then.
  destruct (Hm seq w Hf Hc Hs) as [R1 X1].
  set (d := document (MxLayoutManager.model w)) in *.
  destruct (m w) as [[[]|x] w1]; cbn [fst snd] in *;
    destruct (failed (p d)) as [y|] eqn:Hy; try done;
    [|by rewrite Hy].
  destruct (Hk seq w1) as [R2 X2].
  { by rewrite (ext_finalizing _ _ _ _ _ X1). }
  { by rewrite (ext_current _ _ _ _ _ X1). }
  { rewrite (extended_lookup _ _ _ _ _ X1). by eexists. }
  rewrite (ext_document _ _ _ _ _ X1) in R2, X2. cbn.
  split; [done | by apply (extended_trans _ _ _ _ _ _ _ _ X1)].
Qed.

Lemma executeLayout_performs this cell bubble :
  performs (MxLayoutManager.executeLayout engine_model this cell bubble)
    (layout_for this cell bubble).
Proof.
  unfold MxLayoutManager.executeLayout, layout_for.
  destruct (MxLayoutManager.getLayout this _ _); [|apply performs_ret].
  apply performs_issued, react_reacts.
Qed.

Lemma layoutCells_loop_performs this cells :
  forall last bubble,
    performs (MxLayoutManager.layoutCells_loop engine_model this cells last bubble)
      (corrections_loop this cells last bubble).
Proof.
  induction cells as [|cell rest IH]; intros last bubble seq w Hf Hc Hs;
    cbn [MxLayoutManager.layoutCells_loop corrections_loop].
  - by apply performs_ret.
  - rewrite bind_gets.
    cbn [MxLayoutManager.model_getRoot engine_model].
    destruct (negb _ && negb _); [|by apply IH].
    by apply (performs_bind _ _ _ _ (executeLayout_performs this cell bubble)
                (IH (Some cell) bubble)).
Qed.

Lemma layoutCells_body_performs this cells bubble :
  performs (MxLayoutManager.layoutCells_body engine_model this cells bubble)
    (and_then (corrections_loop this cells None bubble)
       (reacted execute_change (cells_listeners cells))).
Proof.
  apply performs_bind; [apply layoutCells_loop_performs|].
  apply performs_issued, react_reacts.
Qed.

Lemma layoutCells_performs this cells bubble :
  performs (MxLayoutManager.layoutCells engine_model this cells bubble)
    (corrections_pass this cells bubble).
Proof.
  destruct cells as [|cell rest]; [apply performs_ret|].
  intros seq w Hf Hc Hs. rewrite MxLayoutManager.layoutCells_cons.
  cbn [corrections_pass].
  set (w0 := MxLayoutManager.begun engine_model w).
  assert (MxLayoutManager.model w0 = beginUpdate (MxLayoutManager.model w))
    as Hw0 by done.
  pose proof (beginUpdate_reentrant _ Hf) as Hb.
  destruct (layoutCells_body_performs this (cell :: rest) bubble seq w0)
    as [R X]; try (rewrite Hw0, Hb; done).
  assert (document (MxLayoutManager.model w0) =
          document (MxLayoutManager.model w)) as Hd by (by rewrite Hw0, Hb).
  rewrite Hd in R, X. rewrite Hw0 in X.
  destruct (MxLayoutManager.layoutCells_body _ _ _ _ w0) as [rb wb].
  cbn [fst snd] in R, X.
  destruct (extended_in_update L0 _ _ _ _ _ Hf X) as [Re Xe].
  cbn [MxLayoutManager.model_endUpdate engine_model].
  destruct (endUpdate L0 (MxLayoutManager.model wb)) as [re me].
  cbn [fst snd MxLayoutManager.model] in *. by rewrite Re.
Qed.

Lemma undoHandler_performs this edit :
  performs (MxLayoutManager.undoHandler engine_model this edit)
    (layout_corrections this (MxLayoutManager.changes edit)).
Proof.
  unfold MxLayoutManager.undoHandler, MxLayoutManager.isEnabled,
    layout_corrections.
  destruct (MxLayoutManager.enabled this); [|apply performs_ret].
  apply performs_bind; apply layoutCells_performs.
Qed.

(** The handler of the manager as a listener of the engine: what it has
    executed when it returns are the corrections, appended to the
    transaction it was called with. *)
Lemma layout_listener_reacts this seq e recs :
  finalizing e = true -> current e = Some seq ->
  transactions e !! seq = Some recs ->
  (layout_listener this seq e).1 =
    outcome_of (failed (layout_corrections this (describe <$> recs) (document e))) /\
  extended seq
    (applied (layout_corrections this (describe <$> recs) (document e)))
    (document_after (layout_corrections this (describe <$> recs) (document e)))
    e (layout_listener this seq e).2.
Proof.
  intros Hf Hc Hrecs. unfold layout_listener.
  assert (records_of seq e = recs) as -> by (unfold records_of; by rewrite Hrecs).
  destruct (undoHandler_performs this
              {| MxLayoutManager.changes := describe <$> recs |}
              seq {| MxLayoutManager.model := e; MxLayoutManager.calls := [] |})
    as [R X]; [done | done | by eexists |].
  by destruct (MxLayoutManager.undoHandler _ _ _ _) as [r w].
Qed.

Lemma reversible_corrections_loop this cells :
  involutive execute_change ->
  forall last bubble,
    reversible execute_change (corrections_loop this cells last bubble).
Proof.
  intros Hinv. induction cells as [|cell rest IH]; intros last bubble d;
    cbn [corrections_loop]; [done|].
  destruct (negb _ && negb _); [|apply IH].
  apply reversible_and_then; [|apply IH].
  unfold layout_for. destruct (MxLayoutManager.getLayout this _ _);
    [by apply reversible_reacted | apply reversible_nothing].
Qed.

Lemma reversible_corrections_pass this cells bubble :
  involutive execute_change ->
  reversible execute_change (corrections_pass this cells bubble).
Proof.
  intros Hinv. destruct cells; [apply reversible_nothing|].
  apply reversible_and_then;
    [by apply reversible_corrections_loop | by apply reversible_reacted].
Qed.

Lemma reversible_layout_corrections this changes :
  involutive execute_change ->
  reversible execute_change (layout_corrections this changes).
Proof.
  intros Hinv. unfold layout_corrections.
  destruct (MxLayoutManager.enabled this); [|apply reversible_nothing].
  apply reversible_and_then; by apply reversible_corrections_pass.
Qed.


(** The outermost close of an update on a model with a layout manager:
    the corrections of the manager and then what the listeners of "change"
    execute join the transaction that is closed; the history takes it in
    between, if it is to take it at all. *)
Lemma close_update_with_layout_manager this others to_history e seq recs :
  nesting e = 1 -> finalizing e = false -> current e = Some seq ->
  transactions e !! seq = Some recs ->
  let corrections := layout_corrections this (describe <$> recs) (document e) in
  let by_change :=
    reactions execute_change others (recs ++ applied corrections)
      (document_after corrections) in
  let L := with_layout_manager this others in
  let e' := (close_update L to_history e).2 in
  (close_update L to_history e).1 =
    outcome_of (first_of (failed corrections) (failed by_change)) /\
  at_rest e' /\ next_seq e' = next_seq e /\
  discard_empty e' = discard_empty e /\
  transactions e' =
    <[seq := recs ++ applied corrections ++ applied by_change]> (transactions e) /\
  document e' = document_after by_change /\
  (past e', future e') =
    if to_history &&
       negb (discard_empty e && bool_decide (recs ++ applied corrections = []))
    then (seq :: past e, [])
    else (past e, future e).
Proof.
  intros Hn Hf Hc Hrecs. cbn zeta.
  set (corrections := layout_corrections this (describe <$> recs) (document e)).
  set (by_change := reactions execute_change others (recs ++ applied corrections)
                      (document_after corrections)).
  unfold close_update. rewrite Hn. cbn [finalizing set_nesting]. rewrite Hf.
  change (current (set_nesting 0 e)) with (current e). rewrite Hc.
  unfold finalize.
  set (e0 := fire (BeforeUndo seq) (set_finalizing true (set_nesting 0 e))).
  cbn [on_before_undo on_change with_layout_manager deliver].
  destruct (layout_listener_reacts this seq e0 recs) as [R1 X1]; try done.
  change (document e0) with (document e) in R1, X1.
  fold corrections in R1, X1.
  destruct (layout_listener this seq e0) as [r1 e1]. cbn [fst snd] in R1, X1.
  destruct X1 as [N1 F1 C1 Q1 P1 U1 Y1 T1 D1 _].
  assert (records_of seq e0 = recs) as Hr0
    by (unfold records_of; cbn; by rewrite Hrecs).
  rewrite Hr0 in T1.
  cbn [nesting finalizing current next_seq past future discard_empty
       transactions fire set_finalizing set_nesting e0] in N1, F1, C1, Q1, P1,
    U1, Y1, T1.
  assert (records_of seq e1 = recs ++ applied corrections) as Hr1
    by (unfold records_of; by rewrite T1, lookup_insert_eq).
  set (pushed := to_history &&
                 negb (discard_empty e &&
                       bool_decide (recs ++ applied corrections = []))).
  set (e2 := fire (ChangeNotification seq)
               (if to_history then push seq e1 else e1)).
  assert (transactions e2 = transactions e1 /\ document e2 = document e1 /\
          finalizing e2 = true /\ current e2 = Some seq /\
          next_seq e2 = next_seq e /\ discard_empty e2 = discard_empty e /\
          nesting e2 = 0 /\
          (past e2, future e2) =
            if pushed then (seq :: past e, []) else (past e, future e)) as
    (T2 & D2 & F2 & C2 & Q2 & Y2 & N2 & H2).
  { subst e2 pushed. unfold push. rewrite Hr1, Y1.
    destruct to_history; [|cbn; rewrite P1, U1; repeat split; congruence].
    destruct (discard_empty e && _); cbn; rewrite ?P1, ?U1;
      repeat split; congruence. }
  destruct (deliver_reacting execute_change L0 others seq e2
              (recs ++ applied corrections)) as [R3 X3]; [done | done | |].
  { by rewrite T2, T1, lookup_insert_eq. }
  rewrite D2, D1 in R3, X3. fold by_change in R3, X3.
  destruct (deliver (reacting execute_change L0 <$> others) seq e2) as [r3 e3].
  cbn [fst snd] in *.
  destruct X3 as [N3 F3 C3 Q3 P3 U3 Y3 T3 D3 _].
  assert (records_of seq e2 = recs ++ applied corrections) as Hr2
    by (unfold records_of; by rewrite T2, T1, lookup_insert_eq).
  rewrite Hr2 in T3.
  split.
  { rewrite R1, R3. cbn. by destruct (failed corrections). }
  split; [repeat split; cbn; congruence|].
  split; [cbn; congruence|]. split; [cbn; congruence|].
  split; [cbn; by rewrite T3, T2, T1, insert_insert_eq, <- app_assoc|].
  split; [cbn; congruence|].
  cbn. by rewrite P3, U3, <- H2.
Qed.

(** An edit on a model with a layout manager: one transaction, which the
    corrections of the manager and the reactions to "change" have joined. *)
Lemma edit_with_layout_manager this others pattern e :
  at_rest e ->
  one_top_level_pair pattern = true ->
  let L := with_layout_manager this others in
  let seq := next_seq e in
  let recs := produced execute_change pattern (document e) in
  let corrections :=
    layout_corrections this (describe <$> recs)
      (edited execute_change pattern (document e)) in
  let by_change :=
    reactions execute_change others (recs ++ applied corrections)
      (document_after corrections) in
  let e1 := (run execute_change L pattern e).2 in
  at_rest e1 /\ next_seq e1 = S seq /\ discard_empty e1 = discard_empty e /\
  transactions e1 =
    <[seq := recs ++ applied corrections ++ applied by_change]> (transactions e) /\
  document e1 = document_after by_change /\
  (past e1, future e1) =
    (if discard_empty e && bool_decide (recs ++ applied corrections = [])
     then (past e, future e)
     else (seq :: past e, [])) /\
  (involutive execute_change ->
   rewind execute_change recs (edited execute_change pattern (document e)) =
     document e).
Proof.
  intros (Hn & Hf & Hc) Hp. cbn zeta.
  destruct pattern as [|[| |c] rest]; try done. cbn [one_top_level_pair] in Hp.
  set (L := with_layout_manager this others).
  set (e0 := beginUpdate e).
  assert (run execute_change L (Begin :: rest) e = run execute_change L rest e0)
    as -> by reflexivity.
  assert (e0 = fire TransactionStarted
                 (set_nesting 1
                    (set_current (Some (next_seq e))
                       (set_transactions (<[next_seq e := []]> (transactions e))
                          (set_next_seq (S (next_seq e)) e))))) as He0
    by (subst e0; unfold beginUpdate; by rewrite Hn, Hf).
  destruct (run_to_outermost_close execute_change L rest 0 e0 (next_seq e) [])
    as (e1 & nested & -> & N1 & F1 & C1 & T1 & S1 & P1 & U1 & D1 & B1 & X1 &
        R1 & E1);
    try (rewrite He0; cbn; done).
  { rewrite He0. cbn. by rewrite lookup_insert_eq. }
  { exact Hp. }
  assert (document e0 = document e) as Hd by (by rewrite He0).
  rewrite Hd in *. cbn [produced edited app] in *.
  rewrite He0 in T1, S1, P1, U1, D1. cbn in T1, S1, P1, U1, D1.
  rewrite insert_insert_eq in T1.
  destruct (close_update_with_layout_manager this others true e1 (next_seq e)
              (produced execute_change rest (document e)))
    as (_ & Hrest & Hseq & Hpol & Htx & Hdoc & Hhist); try done.
  { by rewrite T1, lookup_insert_eq. }
  unfold endUpdate. fold L in Hrest, Hseq, Hpol, Htx, Hdoc, Hhist.
  rewrite E1 in Htx, Hdoc, Hhist.
  split; [exact Hrest|]. split; [congruence|]. split; [congruence|].
  split; [by rewrite Htx, T1, insert_insert_eq|].
  split; [exact Hdoc|].
  split.
  { rewrite Hhist, D1, P1, U1. cbn [andb].
    by destruct (discard_empty e && _). }
  intros Hinv. rewrite <- E1. by apply R1.
Qed.

(** [undo()] on a model with a layout manager: the records of the most
    recent transaction are executed last to first; they make up a
    transaction of their own, which the corrections of the manager for the
    reversal and the reactions to its "change" join and which the history
    does not take; the undone transaction moves to the future. *)
Lemma undo_with_layout_manager this others e seq rest all :
  at_rest e -> past e = seq :: rest -> seq <> next_seq e ->
  transactions e !! seq = Some all ->
  let L := with_layout_manager this others in
  let reversal := replay execute_change (reverse all) (document e) in
  let corrections :=
    layout_corrections this (describe <$> reversal.1) reversal.2 in
  let by_change :=
    reactions execute_change others (reversal.1 ++ applied corrections)
      (document_after corrections) in
  let e' := (undo execute_change L e).2 in
  (undo execute_change L e).1 =
    match first_of (failed corrections) (failed by_change) with
    | Some x => Threw x
    | None => Returned Undone
    end /\
  at_rest e' /\ next_seq e' = S (next_seq e) /\
  past e' = rest /\ future e' = seq :: future e /\
  transactions e' =
    <[next_seq e := reversal.1 ++ applied corrections ++ applied by_change]>
      (<[seq := reverse reversal.1]> (transactions e)) /\
  document e' = document_after by_change.
Proof.
  intros (Hn & Hf & Hc) Hp Hne Hall. cbn zeta.
  set (L := with_layout_manager this others).
  unfold undo. rewrite Hp.
  set (e0 := beginUpdate (set_history rest (future e) e)).
  assert (e0 = fire TransactionStarted
                 (set_nesting 1
                    (set_current (Some (next_seq e))
                       (set_transactions (<[next_seq e := []]> (transactions e))
                          (set_next_seq (S (next_seq e))
                             (set_history rest (future e) e)))))) as He0
    by (subst e0; unfold beginUpdate; cbn; by rewrite Hn, Hf).
  assert (records_of seq e0 = all) as ->.
  { rewrite He0. unfold records_of. cbn.
    by rewrite lookup_insert_ne, Hall by done. }
  destruct (replay_on_open execute_change L (reverse all) e0 (next_seq e) [] 0)
    as (e1 & -> & N1 & F1 & C1 & T1 & D1 & S1 & P1 & U1 & Y1);
    try (rewrite He0; cbn; done).
  { rewrite He0. cbn. by rewrite lookup_insert_eq. }
  assert (document e0 = document e) as Hd by (by rewrite He0).
  rewrite Hd in *. cbn [app] in T1.
  rewrite He0 in T1, S1, P1, U1, Y1. cbn in T1, S1, P1, U1, Y1.
  rewrite insert_insert_eq in T1.
  set (reversal := replay execute_change (reverse all) (document e)) in *.
  set (e2 := set_transactions (<[seq := reverse reversal.1]> (transactions e1)) e1).
  destruct (close_update_with_layout_manager this others false e2 (next_seq e)
              reversal.1)
    as (Hr & Hrest & Hseq & Hpol & Htx & Hdoc & Hhist); try done.
  { subst e2. cbn. by rewrite lookup_insert_ne, T1, lookup_insert_eq by done. }
  fold L in Hr, Hrest, Hseq, Hpol, Htx, Hdoc, Hhist.
  assert (document e2 = reversal.2) as Hd2 by done.
  rewrite Hd2 in Hr, Htx, Hdoc.
  destruct (close_update L false e2) as [r e3]. cbn [fst snd andb] in *.
  split.
  { rewrite Hr. by destruct (first_of _ _). }
  injection Hhist as Hpast Hfuture.
  assert (next_seq e2 = next_seq e1) as Hq2 by done.
  split; [by destruct Hrest|]. split; [cbn; congruence|].
  split; [cbn; congruence|]. split; [cbn; congruence|].
  split; [|exact Hdoc].
  cbn. rewrite Htx. subst e2. cbn. rewrite T1.
  rewrite (insert_insert_ne (transactions e)) by done.
  by rewrite insert_insert_eq.
Qed.

(** C1, with the proviso that the history took the transaction. While a
    finalization is running, every [execute] appends its record to the
    transaction being finalized and opens no other. So what the layouts run
    by the handler that the manager registers for [BEFORE_UNDO] execute,
    inside the manager's own [beginUpdate]/[endUpdate] pairs, lands in the
    transaction of the edit, and so does what the listeners of "change"
    execute: after the edit that transaction holds the records of the edit,
    then the corrections of the manager, then the reactions to "change",
    and undoing these records last to first leads back to the document as
    it was before the edit. The history is given the transaction between
    the two notifications. If it has no record by then and the history
    discards empty transactions, the past stays as it was and [undo()] does
    not reach what the listeners of "change" executed. Otherwise the
    transaction is the most recent of the past and one [undo()] executes
    all its records again last to first, the edit and the corrections
    together, on the document before the edit; the reversal is notified as
    a transaction of its own, which the history does not take, the
    listeners react to it as to any other, and the undone transaction moves
    to the future. *)
Theorem layout_corrections_join_transaction
  (this : MxLayoutManager.mxLayoutManager Layout)
  (others : list (list Change -> Doc -> Reaction Change))
  (pattern : list (Call (Change := Change))) (e : Engine Change Doc) :
  involutive execute_change ->
  at_rest e ->
  one_top_level_pair pattern = true ->
  let L := with_layout_manager this others in
  let seq := next_seq e in
  let recs := produced execute_change pattern (document e) in
  let corrections :=
    layout_corrections this (describe <$> recs)
      (edited execute_change pattern (document e)) in
  let by_change :=
    reactions execute_change others (recs ++ applied corrections)
      (document_after corrections) in
  let all := recs ++ applied corrections ++ applied by_change in
  let e1 := (run execute_change L pattern e).2 in
  (forall L c e' seq,
      finalizing e' = true -> current e' = Some seq ->
      is_Some (transactions e' !! seq) ->
      transactions (execute execute_change L c e').2 =
        <[seq := records_of seq e' ++ [(execute_change c (document e')).1]]>
          (transactions e') /\
      current (execute execute_change L c e').2 = Some seq /\
      next_seq (execute execute_change L c e').2 = next_seq e' /\
      past (execute execute_change L c e').2 = past e') /\
  next_seq e1 = S seq /\
  transactions e1 = <[seq := all]> (transactions e) /\
  document e1 = document_after by_change /\
  rewind execute_change all (document e1) = document e /\
  (discard_empty e = true -> recs ++ applied corrections = [] ->
   past e1 = past e) /\
  (discard_empty e = false \/ recs ++ applied corrections <> [] ->
   let inverted := (replay execute_change (reverse all) (document e1)).1 in
   let corrections' :=
     layout_corrections this (describe <$> inverted) (document e) in
   let by_change' :=
     reactions execute_change others (inverted ++ applied corrections')
       (document_after corrections') in
   let e2 := (undo execute_change L e1).2 in
   past e1 = seq :: past e /\
   (undo execute_change L e1).1 =
     match first_of (failed corrections') (failed by_change') with
     | Some x => Threw x
     | None => Returned Undone
     end /\
   past e2 = past e /\ future e2 = [seq] /\
   transactions e2 =
     <[S seq := inverted ++ applied corrections' ++ applied by_change']>
       (<[seq := reverse inverted]> (transactions e1)) /\
   document e2 = document_after by_change').
Proof.
  intros Hinv Hrest Hp. cbn zeta.
  split.
  { intros L c e' seq Hf Hc Hsome.
    destruct (execute_while_finalizing execute_change L c e' seq Hf Hc Hsome)
      as (_ & T & _ & _ & _ & C & S & P & _).
    done. }
  destruct (edit_with_layout_manager this others pattern e Hrest Hp)
    as (Hrest1 & Hseq & Hpol & Htx & Hdoc & Hhist & Hrew).
  set (recs := produced execute_change pattern (document e)) in *.
  set (corrections := layout_corrections this (describe <$> recs)
                        (edited execute_change pattern (document e))) in *.
  set (by_change := reactions execute_change others (recs ++ applied corrections)
                      (document_after corrections)) in *.
  set (e1 := (run execute_change (with_layout_manager this others) pattern e).2)
    in *.
  assert (rewind execute_change
            (recs ++ applied corrections ++ applied by_change) (document e1) =
          document e) as Hback.
  { rewrite !(rewind_app execute_change), Hdoc.
    unfold by_change. rewrite (reversible_reactions execute_change others Hinv).
    unfold corrections.
    rewrite (reversible_layout_corrections this _ Hinv). by apply Hrew. }
  split; [exact Hseq|]. split; [exact Htx|]. split; [exact Hdoc|].
  split; [exact Hback|].
  split.
  { intros Hd Hnil. rewrite Hd, Hnil in Hhist.
    rewrite bool_decide_eq_true_2 in Hhist by done. by injection Hhist. }
  intros Hkept. cbn zeta.
  assert (past e1 = next_seq e :: past e /\ future e1 = []) as [Hpast Hfuture].
  { destruct Hkept as [Hd | Hne].
    - rewrite Hd in Hhist. by injection Hhist.
    - rewrite bool_decide_eq_false_2, andb_false_r in Hhist by done.
      by injection Hhist. }
  destruct (undo_with_layout_manager this others e1 (next_seq e) (past e)
              (recs ++ applied corrections ++ applied by_change))
    as (Hr & _ & _ & Hp2 & Hf2 & Ht2 & Hd2); try done.
  { rewrite Hseq. lia. }
  { by rewrite Htx, lookup_insert_eq. }
  unfold rewind in Hback. rewrite Hback in Hr, Ht2, Hd2.
  rewrite Hseq in Ht2. rewrite Hfuture in Hf2.
  done.
Qed.

End LayoutReaction.

End Transactions.

(** ** A document of styled cells under the engine, with a layout manager *)

Module Scenario.
Import JsEffects JsEffects.Notations UndoableChanges Transactions.
Local Open Scope eff_scope.

(** [StyleChange.execute()] as the engine calls it. *)
Definition apply_style (c : StyleChange) (d : gmap nat CellStyle)
  : StyleChange * gmap nat CellStyle :=
  (UndoableChanges.execute (c, d)).2.

Lemma apply_style_involutive : involutive apply_style.
Proof.
  intros c d. unfold apply_style.
  destruct (d !! cell c) as [old|] eqn:Hd.
  - rewrite (execute_valid c d old Hd). cbn [fst snd].
    rewrite (execute_valid _ _ (previous c)); cbn; [|by rewrite lookup_insert_eq].
    by rewrite insert_insert_eq, insert_id.
  - assert (forall c', cell c' = cell c ->
              (UndoableChanges.execute (c', d)).2.2 = d) as Hthrows.
    { intros c' Hc'. unfold UndoableChanges.execute, bind, gets, set_style,
        set_previous, modify, on_document, styleForCellChanged.
      cbn. rewrite Hc'. by rewrite Hd. }
    rewrite (surjective_pairing (UndoableChanges.execute (c, d)).2).
    cbn [fst snd]. rewrite (Hthrows c eq_refl). apply Hthrows.
    unfold UndoableChanges.execute, bind, gets, set_style, set_previous,
      modify, on_document, styleForCellChanged. cbn. by rewrite Hd.
Defined.

Definition green : CellStyle := [("fillColor", "green")].
Definition bordered : CellStyle := [("fillColor", "green"); ("strokeColor", "black")].
Definition marked : CellStyle :=
  [("fillColor", "green"); ("strokeColor", "black"); ("dashed", "1")].

(** The cell object behind a cell reference, and a style change as the
    layout manager sees it. *)
Definition cell_object (ref : nat) : MxLayoutManager.mxCell :=
  MxLayoutManager.MxCell ref None [].

Definition describe (c : StyleChange) : MxLayoutManager.Change :=
  MxLayoutManager.mxStyleChange (Some (cell_object (cell c))).

Definition no_listeners : Listeners StyleChange (gmap nat CellStyle) :=
  {| on_before_undo := []; on_change := [] |}.

(** One style change, issued through [model.execute], for a cell that has
    the style [from]; nothing for a cell that has another. *)
Definition restyle (ref : nat) (from to : CellStyle) (d : gmap nat CellStyle)
  : Reaction StyleChange :=
  if bool_decide (d !! ref = Some from)
  then {| requests := [ {| cell := ref; style := to; previous := to |} ];
          failure := None |}
  else {| requests := []; failure := None |}.

(** The layouts of the manager: one corrects a blue cell to green on the
    way down, one frames a green cell on the way up. *)
Inductive Layout : Type := Tint | Frame.

Definition layouts (layout : Layout) (c : MxLayoutManager.mxCell)
  (d : gmap nat CellStyle) : Reaction StyleChange :=
  match layout with
  | Tint => restyle (MxLayoutManager.getId c) blue green d
  | Frame => restyle (MxLayoutManager.getId c) green bordered d
  end.

Definition quiet (cells : list MxLayoutManager.mxCell) (d : gmap nat CellStyle)
  : Reaction StyleChange :=
  {| requests := []; failure := None |}.

Definition by_hierarchy (cells : list MxLayoutManager.mxCell) (ascending : bool)
  : list MxLayoutManager.mxCell :=
  if ascending then cells else reverse cells.

Definition manager : MxLayoutManager.mxLayoutManager Layout :=
  {| MxLayoutManager.bubbling := true;
     MxLayoutManager.enabled := true;
     MxLayoutManager.getLayout :=
       fun _ event =>
         match event with
         | MxLayoutManager.BEGIN_UPDATE => Some Tint
         | _ => Some Frame
         end |}.

(** The engine at rest on a document with one red cell; its history
    discards empty transactions. *)
Definition red_document : Engine StyleChange (gmap nat CellStyle) :=
  {| document := one_red_cell; nesting := 0; finalizing := false;
     current := None; transactions := ∅; next_seq := 0;
     past := []; future := []; bus := []; discard_empty := true |}.

(** The edit: the cell is painted blue inside a nested update. *)
Definition paint_blue : list (Call (Change := StyleChange)) :=
  [Begin; Begin; Execute {| cell := 7; style := blue; previous := blue |}; End_; End_].

(** An update without an [execute]. *)
Definition empty_update : list (Call (Change := StyleChange)) := [Begin; End_].

(** A listener of "change" that marks the cell once it is framed. *)
Definition mark (recs : list StyleChange) (d : gmap nat CellStyle)
  : Reaction StyleChange :=
  restyle 7 bordered marked d.

(** A listener of "change" that paints the cell green whatever the
    transaction. *)
Definition stamp (recs : list StyleChange) (d : gmap nat CellStyle)
  : Reaction StyleChange :=
  {| requests := [ {| cell := 7; style := green; previous := green |} ];
     failure := None |}.

Definition managed (others : list (list StyleChange -> gmap nat CellStyle ->
                                   Reaction StyleChange))
  : Listeners StyleChange (gmap nat CellStyle) :=
  with_layout_manager apply_style describe (fun _ => None) layouts quiet
    by_hierarchy no_listeners manager others.

(** The listeners of the model: the layout manager on [BEFORE_UNDO], the
    marking listener on "change". *)
Definition listeners : Listeners StyleChange (gmap nat CellStyle) :=
  managed [mark].


Lemma red_document_at_rest : at_rest red_document.
Proof. repeat split. Defined.

(** The edit, the two corrections of the manager (one per pass of
    [executeLayoutForCells]) and the mark sit in transaction 0, the only
    one, and that is what the one "change" notification carries; [undo()]
    leaves the cell as it was, red, and moves the transaction to the
    future. *)
Example edit_and_corrections :
  let e1 := (run apply_style listeners paint_blue red_document).2 in
  let e2 := (undo apply_style listeners e1).2 in
  carried (ChangeNotification 0) e1 =
    [ {| cell := 7; style := blue; previous := red |};
      {| cell := 7; style := green; previous := blue |};
      {| cell := 7; style := bordered; previous := green |};
      {| cell := 7; style := marked; previous := bordered |} ] /\
  bus e1 =
    [TransactionStarted; UpdateNestedEnd; UpdateNestedEnd; BeforeUndo 0;
     UpdateNestedEnd; UpdateNestedEnd; ChangeNotification 0;
     EndUpdateNotification] /\
  past e1 = [0] /\ next_seq e1 = 1 /\
  document e1 = {[ 7 := marked ]} /\
  (undo apply_style listeners e1).1 = Returned Undone /\
  document e2 = one_red_cell /\ past e2 = [] /\ future e2 = [0].
Proof. vm_compute. repeat split. Qed.

(** An update without an [execute], on a model whose listener of "change"
    executes a change: the record joins the transaction of the update, but
    the history has discarded that transaction, empty as it was when it was
    pushed, and [undo()] finds nothing to undo: the cell stays green. *)
Lemma discarded_transaction_is_not_undone :
  let e1 := (run apply_style (managed [stamp]) empty_update red_document).2 in
  at_rest red_document /\
  one_top_level_pair empty_update = true /\
  transactions e1 !! 0 = Some [ {| cell := 7; style := green; previous := red |} ] /\
  next_seq e1 = 1 /\
  document red_document !! 7 = Some red /\
  document e1 !! 7 = Some green /\
  past e1 = [] /\
  undo apply_style (managed [stamp]) e1 = (Returned NothingToUndo, e1).
Proof. vm_compute. repeat split. Qed.


Lemma layout_corrections_join_transaction_witness :
  let e1 := (run apply_style listeners paint_blue red_document).2 in
  let e2 := (undo apply_style listeners e1).2 in
  let all :=
    [ {| cell := 7; style := blue; previous := red |};
      {| cell := 7; style := green; previous := blue |};
      {| cell := 7; style := bordered; previous := green |};
      {| cell := 7; style := marked; previous := bordered |} ] in
  let inverted :=
    [ {| cell := 7; style := bordered; previous := marked |};
      {| cell := 7; style := green; previous := bordered |};
      {| cell := 7; style := blue; previous := green |};
      {| cell := 7; style := red; previous := blue |} ] in
  next_seq e1 = 1 /\
  transactions e1 = <[0 := all]> ∅ /\
  document e1 = {[ 7 := marked ]} /\
  rewind apply_style all (document e1) = one_red_cell /\
  past e1 = [0] /\
  (undo apply_style listeners e1).1 = Returned Undone /\
  past e2 = [] /\ future e2 = [0] /\
  transactions e2 = <[1 := inverted]> (<[0 := reverse inverted]> (transactions e1)) /\
  document e2 = one_red_cell.
Proof.
  destruct (layout_corrections_join_transaction apply_style describe
              (fun _ => None) layouts quiet by_hierarchy no_listeners manager
              [mark] paint_blue red_document apply_style_involutive
              red_document_at_rest eq_refl)
    as (_ & H1 & H2 & H3 & H4 & _ & H5).
  destruct H5 as (H5 & H6 & H7 & H8 & H9 & H10).
  { right. vm_compute. discriminate. }
  cbn zeta.
  split; [exact H1|]. split; [exact H2|]. split; [exact H3|].
  split; [exact H4|]. split; [exact H5|]. split; [exact H6|].
  split; [exact H7|]. split; [exact H8|]. split; [exact H9 | exact H10].
Defined.

End Scenario.

(** ** Outline *)

Module OutlineView.
Import JsEffects JsEffects.Notations.
Local Open Scope eff_scope.

Section Outline.

(** JavaScript numbers, with the operations [update] uses on them. Nothing
    below depends on how they compute. *)
Context {num : Type}.

Record Numbers : Type := {
  zero : num;
  one : num;
  two : num;
  add : num -> num -> num;
  sub : num -> num -> num;
  mul : num -> num -> num;
  div : num -> num -> num;
  max : num -> num -> num;
  min : num -> num -> num;
  isNaN : num -> bool;
  (** [a > b], [a < b] and [a !== b] *)
  gt : num -> num -> bool;
  lt : num -> num -> bool;
  ne : num -> num -> bool
}.

Variable N : Numbers.

(** The document model ([GraphDataModel]) and the cells a view can have as
    its current root. *)
Context {Model Cell : Type}.
Variable same_root : option Cell -> option Cell -> bool.

Record Point : Type := { px : num; py : num }.

Record Rectangle : Type := { x : num; y : num; width : num; height : num }.

(** What [update] reads of a container element. *)
Record HTMLElement : Type := {
  clientWidth : num;
  clientHeight : num;
  scrollWidth : num;
  scrollHeight : num;
  scrollLeft : num;
  scrollTop : num
}.

(** The view of a graph; [states] stands for what a validation of the view
    computes from the model. *)
Context {ViewStates : Type}.

Record GraphView : Type := {
  scale : num;
  translate : Point;
  currentRoot : option Cell;
  graphBounds : Rectangle;
  states : ViewStates
}.

Record Graph : Type := {
  container : option HTMLElement;
  view : GraphView;
  panDx : num;
  panDy : num
}.

(** A shape: its bounds, whether its node is hidden, and what is painted. *)
Context {Painted : Type}.

Record RectangleShape : Type := {
  shape_bounds : option Rectangle;
  hidden : bool;
  painted : Painted
}.

(** The outline with the objects it refers to. [createGraph] builds the
    outline graph on the model of the source graph, so there is one model,
    held here once; each graph has a view of its own. *)
Record Outline : Type := {
  model : Model;
  source : option Graph;
  outline : option Graph;
  bounds : option Rectangle;
  selectionBorder : option RectangleShape;
  sizer : option RectangleShape;
  border : num;
  minScale : num
}.

(** Methods of the view and of the shapes whose code is in other files:
    they work on the object they are called on; a validation of the view
    reads the model. *)
Variable rectangle_add : Rectangle -> Rectangle -> Rectangle.
Variable view_setCurrentRoot : Model -> option Cell -> GraphView -> GraphView.
Variable view_revalidate : Model -> GraphView -> GraphView.
Variable shape_redraw : RectangleShape -> RectangleShape.

Definition set_outline_view (v : GraphView) (this : Outline) : Outline :=
  {| model := model this; source := source this;
     outline :=
       match outline this with
       | Some g => Some {| container := container g; view := v;
                           panDx := panDx g; panDy := panDy g |}
       | None => None
       end;
     bounds := bounds this; selectionBorder := selectionBorder this;
     sizer := sizer this; border := border this; minScale := minScale this |}.

Definition set_bounds (r : Rectangle) (this : Outline) : Outline :=
  {| model := model this; source := source this; outline := outline this;
     bounds := Some r; selectionBorder := selectionBorder this;
     sizer := sizer this; border := border this; minScale := minScale this |}.

Definition set_selectionBorder (s : RectangleShape) (this : Outline) : Outline :=
  {| model := model this; source := source this; outline := outline this;
     bounds := bounds this; selectionBorder := Some s;
     sizer := sizer this; border := border this; minScale := minScale this |}.

Definition set_sizer (s : RectangleShape) (this : Outline) : Outline :=
  {| model := model this; source := source this; outline := outline this;
     bounds := bounds this; selectionBorder := selectionBorder this;
     sizer := Some s; border := border this; minScale := minScale this |}.

Definition set_scale (s : num) (v : GraphView) : GraphView :=
  {| scale := s; translate := translate v; currentRoot := currentRoot v;
     graphBounds := graphBounds v; states := states v |}.

Definition set_translate (t : Point) (v : GraphView) : GraphView :=
  {| scale := scale v; translate := t; currentRoot := currentRoot v;
     graphBounds := graphBounds v; states := states v |}.

Definition set_shape_bounds (r : Rectangle) (s : RectangleShape) : RectangleShape :=
  {| shape_bounds := Some r; hidden := hidden s; painted := painted s |}.

(** The four-way comparison of two rectangles in [update]. *)
Definition differs (b b' : Rectangle) : bool :=
  ne N (x b) (x b') || ne N (y b) (y b') ||
  ne N (width b) (width b') || ne N (height b) (height b').

(** Reading a property of [null]. *)
Definition non_null {S A} (o : option A) : Eff S A :=
  match o with
  | Some a => ret a
  | None => throw "TypeError"
  end.

Definition getSourceContainerSize (sourceContainer : HTMLElement) : Rectangle :=
  {| x := zero N; y := zero N;
     width := scrollWidth sourceContainer; height := scrollHeight sourceContainer |}.

(** [getOutlineOffset] returns [null]. *)
Definition getOutlineOffset (scale : num) : option Point := None.

Definition getSourceGraphBounds (src : Graph) : Rectangle := graphBounds (view src).

(** The part of [update] under [if (scale > 0)], with the locals computed
    before it; [scale0] is the outline scale and [scale1] the value that the
    variable [scale] takes from the source view further down. *)
Definition update_scaled (src : Graph) (sourceContainer : HTMLElement)
  (unscaledGraphBounds : Rectangle) (scale0 : num) (revalidate : bool)
  : Eff Outline unit :=
  let* navView0 := gets (fun this => from_option view (view src) (outline this)) in
  let rescale := ne N (scale navView0) scale0 in
  (if rescale then modify (set_outline_view (set_scale scale0 navView0)) else ret tt) ;;;
  let revalidate := rescale || revalidate in
  let* navView1 := gets (fun this => from_option view (view src) (outline this)) in
  (if negb (same_root (currentRoot navView1) (currentRoot (view src)))
   then modify (fun this =>
          set_outline_view
            (view_setCurrentRoot (model this) (currentRoot (view src)) navView1) this)
   else ret tt) ;;;
  let* navView2 := gets (fun this => from_option view (view src) (outline this)) in
  let t := translate (view src) in
  let tx := add N (px t) (panDx src) in
  let ty := add N (py t) (panDy src) in
  let off := getOutlineOffset scale0 in
  let tx := match off with Some o => add N tx (px o) | None => tx end in
  let ty := match off with Some o => add N ty (py o) | None => ty end in
  let tx := if lt N (x unscaledGraphBounds) (zero N)
            then sub N tx (x unscaledGraphBounds) else tx in
  let ty := if lt N (y unscaledGraphBounds) (zero N)
            then sub N ty (y unscaledGraphBounds) else ty in
  let moved := ne N (px (translate navView2)) tx || ne N (py (translate navView2)) ty in
  (if moved
   then modify (set_outline_view (set_translate {| px := tx; py := ty |} navView2))
   else ret tt) ;;;
  let revalidate := moved || revalidate in
  let* navView := gets (fun this => from_option view (view src) (outline this)) in
  let t2 := translate navView in
  let scale1 := scale (view src) in
  let scale2 := div N scale1 (scale navView) in
  let scale3 := div N (one N) (scale navView) in
  let b0 :=
    {| x := div N (sub N (sub N (px t2) (px t)) (panDx src)) scale3;
       y := div N (sub N (sub N (py t2) (py t)) (panDy src)) scale3;
       width := div N (clientWidth sourceContainer) scale2;
       height := div N (clientHeight sourceContainer) scale2 |} in
  let this_bounds :=
    {| x := add N (x b0)
              (div N (mul N (scrollLeft sourceContainer) (scale navView)) scale1);
       y := add N (y b0)
              (div N (mul N (scrollTop sourceContainer) (scale navView)) scale1);
       width := width b0; height := height b0 |} in
  modify (set_bounds this_bounds) ;;;
  let* selectionBorder0 := bind (gets selectionBorder) non_null in
  let* b := non_null (shape_bounds selectionBorder0) in
  (if differs b this_bounds
   then modify (set_selectionBorder
                  (shape_redraw (set_shape_bounds this_bounds selectionBorder0)))
   else ret tt) ;;;
  let* sizer0 := bind (gets sizer) non_null in
  let* b := non_null (shape_bounds sizer0) in
  let b2 :=
    {| x := sub N (add N (x this_bounds) (width this_bounds))
              (div N (width b) (two N));
       y := sub N (add N (y this_bounds) (height this_bounds))
              (div N (height b) (two N));
       width := width b; height := height b |} in
  (if differs b b2
   then modify (set_sizer
                  ((if negb (hidden sizer0) then shape_redraw else id)
                     (set_shape_bounds b2 sizer0)))
   else ret tt) ;;;
  if revalidate
  then modify (fun this =>
         set_outline_view
           (view_revalidate (model this) (from_option view (view src) (outline this)))
           this)
  else ret tt.

Definition update (revalidate : bool) : Eff Outline unit :=
  fun this =>
    match source this, outline this with
    | Some src, Some out =>
        match container src, container out with
        | Some sourceContainer, Some outlineContainer =>
            let sourceScale := scale (view src) in
            let scaledGraphBounds := getSourceGraphBounds src in
            let unscaledGraphBounds :=
              {| x := add N (div N (x scaledGraphBounds) sourceScale) (panDx src);
                 y := add N (div N (y scaledGraphBounds) sourceScale) (panDy src);
                 width := div N (width scaledGraphBounds) sourceScale;
                 height := div N (height scaledGraphBounds) sourceScale |} in
            let unscaledFinderBounds :=
              {| x := zero N; y := zero N;
                 width := div N (clientWidth sourceContainer) sourceScale;
                 height := div N (clientHeight sourceContainer) sourceScale |} in
            let union := rectangle_add unscaledGraphBounds unscaledFinderBounds in
            let size := getSourceContainerSize sourceContainer in
            let completeWidth := max N (div N (width size) sourceScale) (width union) in
            let completeHeight := max N (div N (height size) sourceScale) (height union) in
            let availableWidth :=
              max N (zero N) (sub N (clientWidth outlineContainer) (border this)) in
            let availableHeight :=
              max N (zero N) (sub N (clientHeight outlineContainer) (border this)) in
            let outlineScale :=
              min N (div N availableWidth completeWidth)
                    (div N availableHeight completeHeight) in
            let scale0 :=
              if isNaN N outlineScale then minScale this
              else max N (minScale this) outlineScale in
            if gt N scale0 (zero N)
            then update_scaled src sourceContainer unscaledGraphBounds scale0
                   revalidate this
            else (Returned tt, this)
        | _, _ => (Returned tt, this)
        end
    | _, _ => (Returned tt, this)
    end.

(** *** The frame of [update] *)

(** The outline graph apart from its view. *)
Definition same_graph_frame (g g' : option Graph) : Prop :=
  match g, g' with
  | Some a, Some b =>
      container b = container a /\ panDx b = panDx a /\ panDy b = panDy a
  | None, None => True
  | _, _ => False
  end.

(** What [update] may not change: the model, the source graph with its
    view, container and panning, the outline's settings, and of the outline
    graph everything but its view. *)
Record frame (this this' : Outline) : Prop := {
  frame_model : model this' = model this;
  frame_source : source this' = source this;
  frame_border : border this' = border this;
  frame_minScale : minScale this' = minScale this;
  frame_outline : same_graph_frame (outline this) (outline this')
}.

Lemma same_graph_frame_refl g : same_graph_frame g g.
Proof. by destruct g. Qed.

Lemma same_graph_frame_trans g1 g2 g3 :
  same_graph_frame g1 g2 -> same_graph_frame g2 g3 -> same_graph_frame g1 g3.
Proof.
  destruct g1, g2, g3; cbn; try done.
  intros (? & ? & ?) (? & ? & ?). repeat split; congruence.
Qed.

Lemma frame_refl this : frame this this.
Proof. split; try done. apply same_graph_frame_refl. Qed.

Lemma frame_trans t1 t2 t3 : frame t1 t2 -> frame t2 t3 -> frame t1 t3.
Proof.
  intros [M1 S1 B1 N1 O1] [M2 S2 B2 N2 O2]. split; try congruence.
  by apply (same_graph_frame_trans _ (outline t2)).
Qed.

(** A call that respects the frame, whether it returns or throws. *)
Definition framed {A} (m : Eff Outline A) : Prop :=
  forall this, frame this (m this).2.

Lemma framed_ret {A} (a : A) : framed (ret a).
Proof. intros this. apply frame_refl. Qed.

Lemma framed_gets {A} (f : Outline -> A) : framed (gets f).
Proof. intros this. apply frame_refl. Qed.

Lemma framed_non_null {A} (o : option A) : framed (non_null o).
Proof. intros this. destruct o; apply frame_refl. Qed.

Lemma framed_bind {A B} (m : Eff Outline A) (k : A -> Eff Outline B) :
  framed m -> (forall a, framed (k a)) -> framed (bind m k).
Proof.
  intros Hm Hk this. unfold bind. specialize (Hm this).
  destruct (m this) as [[a|e] this1]; cbn [snd] in *; [|done].
  apply (frame_trans _ this1); [done | apply Hk].
Qed.

Lemma framed_if {A} (b : bool) (m1 m2 : Eff Outline A) :
  framed m1 -> framed m2 -> framed (if b then m1 else m2).
Proof. by destruct b. Qed.

Lemma framed_set_outline_view (v : Outline -> GraphView) :
  framed (modify (fun this => set_outline_view (v this) this)).
Proof.
  intros this. split; try done. cbn. by destruct (outline this).
Qed.

Lemma framed_set_bounds r : framed (modify (set_bounds r)).
Proof. intros this. split; try done. apply same_graph_frame_refl. Qed.

Lemma framed_set_selectionBorder s : framed (modify (set_selectionBorder s)).
Proof. intros this. split; try done. apply same_graph_frame_refl. Qed.

Lemma framed_set_sizer s : framed (modify (set_sizer s)).
Proof. intros this. split; try done. apply same_graph_frame_refl. Qed.

Ltac framed_step :=
  first
    [ apply framed_ret
    | apply framed_gets
    | apply framed_non_null
    | apply framed_set_bounds
    | apply framed_set_selectionBorder
    | apply framed_set_sizer
    | apply (framed_set_outline_view (fun _ => _))
    | apply framed_set_outline_view
    | apply framed_if
    | apply framed_bind; [|intros ?] ].

Lemma update_scaled_framed src sourceContainer unscaledGraphBounds scale0 revalidate :
  framed (update_scaled src sourceContainer unscaledGraphBounds scale0 revalidate).
Proof. unfold update_scaled. repeat framed_step. Qed.

(** C7. [update] leaves the document model that the source graph and the
    outline graph share as it is, and the source graph as well: it reads the
    scale, translate, panning, bounds and container of the source and
    writes to the view of the outline graph, to the outline's [bounds] and
    to its two shapes, and to nothing else, whether it returns or throws. *)
Theorem update_mutates_only_outline (revalidate : bool) (this : Outline) :
  model (update revalidate this).2 = model this /\
  source (update revalidate this).2 = source this /\
  border (update revalidate this).2 = border this /\
  minScale (update revalidate this).2 = minScale this /\
  match outline this, outline (update revalidate this).2 with
  | Some g, Some g' =>
      container g' = container g /\ panDx g' = panDx g /\ panDy g' = panDy g
  | None, None => True
  | _, _ => False
  end.
Proof.
  assert (frame this (update revalidate this).2) as [? ? ? ? ?]; [|done].
  unfold update.
  destruct (source this) as [src|]; [|exact (frame_refl this)].
  destruct (outline this) as [out|] eqn:Hout; [|exact (frame_refl this)].
  destruct (container src) as [sc|]; [|exact (frame_refl this)].
  destruct (container out) as [oc|]; [|exact (frame_refl this)].
  destruct (gt N _ _); [|exact (frame_refl this)].
  apply update_scaled_framed.
Qed.

(** *** A second [update] *)

(** What a second [update] relies on in the methods the first one called:
    [setCurrentRoot] sets the current root of the view and keeps its scale,
    a validation of the view keeps its current root, scale and translate,
    and repainting a shape keeps its bounds. *)
Definition view_methods_keep_settings : Prop :=
  (forall m r v,
      currentRoot (view_setCurrentRoot m r v) = r /\
      scale (view_setCurrentRoot m r v) = scale v) /\
  (forall m v,
      currentRoot (view_revalidate m v) = currentRoot v /\
      scale (view_revalidate m v) = scale v /\
      translate (view_revalidate m v) = translate v) /\
  (forall s, shape_bounds (shape_redraw s) = shape_bounds s).

(** No number is unequal to itself (none is [NaN]) and no root differs
    from itself. *)
Definition comparisons_reflexive : Prop :=
  (forall a, ne N a a = false) /\ (forall r, same_root r r = true).

(** The translate that [update] wants the outline view to have. *)
Definition target (src : Graph) (unscaledGraphBounds : Rectangle) : Point :=
  let t := translate (view src) in
  let tx := add N (px t) (panDx src) in
  let ty := add N (py t) (panDy src) in
  {| px := if lt N (x unscaledGraphBounds) (zero N)
           then sub N tx (x unscaledGraphBounds) else tx;
     py := if lt N (y unscaledGraphBounds) (zero N)
           then sub N ty (y unscaledGraphBounds) else ty |}.

(** The outline view after the three adjustments of scale, current root and
    translate. *)
Definition adjusted (src : Graph) (unscaledGraphBounds : Rectangle) (scale0 : num)
  (m : Model) (v0 : GraphView) : GraphView :=
  let v1 := if ne N (scale v0) scale0 then set_scale scale0 v0 else v0 in
  let v2 := if negb (same_root (currentRoot v1) (currentRoot (view src)))
            then view_setCurrentRoot m (currentRoot (view src)) v1 else v1 in
  let tgt := target src unscaledGraphBounds in
  if ne N (px (translate v2)) (px tgt) || ne N (py (translate v2)) (py tgt)
  then set_translate tgt v2 else v2.

(** Whether [update] ends with a validation of the outline view. *)
Definition validates (src : Graph) (unscaledGraphBounds : Rectangle) (scale0 : num)
  (m : Model) (v0 : GraphView) (revalidate : bool) : bool :=
  let v1 := if ne N (scale v0) scale0 then set_scale scale0 v0 else v0 in
  let v2 := if negb (same_root (currentRoot v1) (currentRoot (view src)))
            then view_setCurrentRoot m (currentRoot (view src)) v1 else v1 in
  let tgt := target src unscaledGraphBounds in
  (ne N (px (translate v2)) (px tgt) || ne N (py (translate v2)) (py tgt)) ||
  (ne N (scale v0) scale0 || revalidate).

(** The rectangle of the viewport for an outline view [v]. *)
Definition viewport (src : Graph) (sourceContainer : HTMLElement) (v : GraphView)
  : Rectangle :=
  let t := translate (view src) in
  let t2 := translate v in
  let scale1 := scale (view src) in
  let scale2 := div N scale1 (scale v) in
  let scale3 := div N (one N) (scale v) in
  {| x := add N (div N (sub N (sub N (px t2) (px t)) (panDx src)) scale3)
            (div N (mul N (scrollLeft sourceContainer) (scale v)) scale1);
     y := add N (div N (sub N (sub N (py t2) (py t)) (panDy src)) scale3)
            (div N (mul N (scrollTop sourceContainer) (scale v)) scale1);
     width := div N (clientWidth sourceContainer) scale2;
     height := div N (clientHeight sourceContainer) scale2 |}.

(** The bounds of the sizer at the lower right corner of the viewport. *)
Definition sizer_bounds (viewport b : Rectangle) : Rectangle :=
  {| x := sub N (add N (x viewport) (width viewport)) (div N (width b) (two N));
     y := sub N (add N (y viewport) (height viewport)) (div N (height b) (two N));
     width := width b; height := height b |}.

Definition fitted (r : Rectangle) (s : RectangleShape) (b : Rectangle) (redraw : bool)
  : RectangleShape :=
  if differs b r
  then (if redraw then shape_redraw else id) (set_shape_bounds r s)
  else s.

(** [update_scaled] on an outline whose two shapes are there and have
    bounds: it returns, and this is the outline it leaves. *)
Lemma update_scaled_returns src sourceContainer ugb scale0 revalidate
  m so oc vo odx ody bo sb b sz bz br ms :
  shape_bounds sb = Some b -> shape_bounds sz = Some bz ->
  let v := adjusted src ugb scale0 m vo in
  let r := viewport src sourceContainer v in
  update_scaled src sourceContainer ugb scale0 revalidate
    {| model := m; source := so;
       outline := Some {| container := oc; view := vo; panDx := odx; panDy := ody |};
       bounds := bo; selectionBorder := Some sb; sizer := Some sz;
       border := br; minScale := ms |} =
  (Returned tt,
   {| model := m; source := so;
      outline :=
        Some {| container := oc;
                view := if validates src ugb scale0 m vo revalidate
                        then view_revalidate m v else v;
                panDx := odx; panDy := ody |};
      bounds := Some r;
      selectionBorder := Some (fitted r sb b true);
      sizer := Some (fitted (sizer_bounds r bz) sz bz (negb (hidden sz)));
      border := br; minScale := ms |}).
Proof.
  intros Hb Hbz. cbv zeta.
  unfold update_scaled, adjusted, validates, fitted, bind, gets, modify, ret,
    non_null, throw, getOutlineOffset.
  cbn [outline from_option view set_outline_view container panDx panDy model
         source bounds selectionBorder sizer border minScale].
  destruct (ne N (scale vo) scale0); cbn -[viewport target sizer_bounds differs];
  destruct (negb (same_root _ _)); cbn -[viewport target sizer_bounds differs];
  (destruct (ne N (px (translate _)) _ || ne N (py (translate _)) _);
   cbn -[viewport target sizer_bounds differs]);
  rewrite ?Hb, ?Hbz; cbn -[viewport target sizer_bounds differs];
  (destruct (differs b _); cbn -[viewport target sizer_bounds differs]);
  rewrite ?Hb, ?Hbz; cbn -[viewport target sizer_bounds differs];
  (destruct (differs bz _); cbn -[viewport target sizer_bounds differs]);
  destruct revalidate; destruct (hidden sz); reflexivity.
Qed.

(** Without the two shapes and their bounds [update_scaled] does not
    return. *)
Lemma update_scaled_needs_shapes src sourceContainer ugb scale0 revalidate
  m so oc vo odx ody bo sbo szo br ms this1 :
  update_scaled src sourceContainer ugb scale0 revalidate
    {| model := m; source := so;
       outline := Some {| container := oc; view := vo; panDx := odx; panDy := ody |};
       bounds := bo; selectionBorder := sbo; sizer := szo;
       border := br; minScale := ms |} = (Returned tt, this1) ->
  exists sb b sz bz,
    sbo = Some sb /\ shape_bounds sb = Some b /\
    szo = Some sz /\ shape_bounds sz = Some bz.
Proof.
  destruct sbo as [[[b|] hb pb]|], szo as [[[bz|] hz pz]|];
    try (intros _; by eexists _, _, _, _).
  all: unfold update_scaled, bind, gets, modify, ret, non_null, throw,
         getOutlineOffset;
    cbn [outline from_option view set_outline_view container panDx panDy model
           source bounds selectionBorder sizer border minScale];
    destruct (ne N (scale vo) scale0); cbn;
    destruct (negb (same_root _ _)); cbn;
    (destruct (ne N (px (translate _)) _ || ne N (py (translate _)) _); cbn);
    try discriminate;
    (destruct (differs _ _); cbn); discriminate.
Qed.

Section Settled.
Hypothesis Hviews : view_methods_keep_settings.
Hypothesis Hcompare : comparisons_reflexive.

Lemma differs_refl r : differs r r = false.
Proof. unfold differs. destruct Hcompare as [Hne _]. by rewrite !Hne. Qed.

Lemma adjusted_settles src ugb scale0 m v0 :
  let v := adjusted src ugb scale0 m v0 in
  ne N (scale v) scale0 = false /\
  same_root (currentRoot v) (currentRoot (view src)) = true /\
  ne N (px (translate v)) (px (target src ugb)) ||
    ne N (py (translate v)) (py (target src ugb)) = false.
Proof.
  destruct Hviews as (HsetRoot & _ & _), Hcompare as [Hne Hroot].
  cbv zeta. unfold adjusted.
  set (v1 := if ne N (scale v0) scale0 then _ else _).
  assert (ne N (scale v1) scale0 = false) as H1.
  { subst v1. destruct (ne N (scale v0) scale0) eqn:E; [apply Hne | done]. }
  set (v2 := if negb (same_root (currentRoot v1) _) then _ else _).
  assert (ne N (scale v2) scale0 = false /\
          same_root (currentRoot v2) (currentRoot (view src)) = true) as [H2 H3].
  { subst v2. destruct (same_root (currentRoot v1) _) eqn:E; cbn [negb]; [done|].
    destruct (HsetRoot m (currentRoot (view src)) v1) as (-> & ->).
    by rewrite Hroot. }
  destruct (ne N (px (translate v2)) _ || ne N (py (translate v2)) _) eqn:E;
    [|done].
  cbn [set_translate scale currentRoot translate]. by rewrite !Hne.
Qed.

Lemma adjusted_settled src ugb scale0 m v :
  ne N (scale v) scale0 = false ->
  same_root (currentRoot v) (currentRoot (view src)) = true ->
  ne N (px (translate v)) (px (target src ugb)) ||
    ne N (py (translate v)) (py (target src ugb)) = false ->
  adjusted src ugb scale0 m v = v /\ validates src ugb scale0 m v false = false.
Proof.
  intros H1 H2 H3. unfold adjusted, validates.
  rewrite H1, H2. cbn [negb]. by rewrite H3.
Qed.

Lemma fitted_settled r s b redraw :
  shape_bounds s = Some b ->
  let s' := fitted r s b redraw in
  let b' := if differs b r then r else b in
  shape_bounds s' = Some b' /\ differs b' r = false.
Proof.
  destruct Hviews as (_ & _ & Hredraw).
  intros Hb. cbv zeta. unfold fitted.
  destruct (differs b r) eqn:E; [|done].
  split; [|apply differs_refl].
  destruct redraw; [|done]. by rewrite (Hredraw (set_shape_bounds r s)).
Qed.

Lemma fitted_again r s b redraw :
  shape_bounds s = Some b -> differs b r = false -> fitted r s b redraw = s.
Proof. intros _ E. unfold fitted. by rewrite E. Qed.

End Settled.

(** The viewport depends on the scale and the translate of the outline
    view only. *)
Lemma viewport_ext src sourceContainer v v' :
  scale v' = scale v -> translate v' = translate v ->
  viewport src sourceContainer v' = viewport src sourceContainer v.
Proof. intros Hs Ht. unfold viewport. by rewrite Hs, Ht. Qed.

(** [update] is idempotent. Suppose that [setCurrentRoot] sets the current
    root of the view and keeps its scale, that a validation of the view
    keeps its current root, scale and translate, that repainting a shape
    keeps its bounds, that no number is unequal to itself (none is [NaN])
    and that no root differs from itself. Then an [update] that returned has
    left the outline in a state that a second [update] finds in order: it
    returns, changes nothing and validates nothing. *)
Theorem update_twice (revalidate : bool) (this this1 : Outline) :
  view_methods_keep_settings ->
  comparisons_reflexive ->
  update revalidate this = (Returned tt, this1) ->
  update false this1 = (Returned tt, this1).
Proof.
  intros Hviews Hcompare Hfirst.
  destruct this as [m [[[sc|] vs pdx pdy]|] [[[oc|] vo odx ody]|] bo sbo szo br ms];
    try (injection Hfirst as <-; reflexivity).
  unfold update in Hfirst |- *. cbn [source outline container] in Hfirst.
  cbv zeta in Hfirst.
  match type of Hfirst with
  | (if gt N ?s _ then _ else _) = _ => set (scale0 := s) in *
  end.
  destruct (gt N scale0 (zero N)) eqn:Hgt.
  2: { injection Hfirst as <-. cbn [source outline container]. cbv zeta.
       match goal with
       | |- (if gt N ?s _ then _ else _) = _ => change s with scale0
       end.
       by rewrite Hgt. }
  match type of Hfirst with
  | update_scaled _ _ ?u _ _ _ = _ => set (ugb := u) in *
  end.
  destruct (update_scaled_needs_shapes _ _ _ _ _ _ _ _ _ _ _ _ _ _ _ _ _ Hfirst)
    as (sb & b & sz & bz & -> & Hb & -> & Hbz).
  rewrite (update_scaled_returns _ _ _ _ _ _ _ _ _ _ _ _ _ b _ bz _ _ Hb Hbz)
    in Hfirst.
  injection Hfirst as <-.
  cbn [source outline container]. cbv zeta.
  match goal with
  | |- (if gt N ?s _ then update_scaled _ _ ?u _ _ _ else _) = _ =>
      change s with scale0; change u with ugb
  end.
  rewrite Hgt.
  set (src := {| container := Some sc; view := vs; panDx := pdx; panDy := pdy |}).
  set (vA := adjusted src ugb scale0 m vo).
  set (vE := if validates src ugb scale0 m vo revalidate
             then view_revalidate m vA else vA).
  set (r := viewport src sc vA).
  destruct (adjusted_settles Hviews Hcompare src ugb scale0 m vo)
    as (A1 & A2 & A3).
  fold vA in A1, A2, A3.
  assert (currentRoot vE = currentRoot vA /\ scale vE = scale vA /\
          translate vE = translate vA) as (E1 & E2 & E3).
  { subst vE. destruct (validates _ _ _ _ _ _); [|done].
    destruct Hviews as (_ & Hreval & _). apply Hreval. }
  destruct (adjusted_settled src ugb scale0 m vE) as [S1 S2];
    [by rewrite E2 | by rewrite E1 | by rewrite E3 |].
  destruct (fitted_settled Hviews Hcompare r sb b true Hb) as [F1 F2].
  destruct (fitted_settled Hviews Hcompare (sizer_bounds r bz) sz bz
              (negb (hidden sz)) Hbz) as [G1 G2].
  assert (sizer_bounds r (if differs bz (sizer_bounds r bz)
                          then sizer_bounds r bz else bz) = sizer_bounds r bz) 
    as G3 by (by destruct (differs bz (sizer_bounds r bz))).
  rewrite (update_scaled_returns _ _ _ _ _ _ _ _ _ _ _ _ _ _ _ _ _ _ F1 G1).
  rewrite S1, S2, (viewport_ext src sc vA vE E2 E3). fold r. rewrite G3.
  by rewrite (fitted_again _ _ _ _ F1 F2), (fitted_again _ _ _ _ G1 G2).
Qed.

(** *** What [update] computes before it adjusts the outline *)

Definition unscaledGraphBounds (src : Graph) : Rectangle :=
  let sourceScale := scale (view src) in
  let scaledGraphBounds := getSourceGraphBounds src in
  {| x := add N (div N (x scaledGraphBounds) sourceScale) (panDx src);
     y := add N (div N (y scaledGraphBounds) sourceScale) (panDy src);
     width := div N (width scaledGraphBounds) sourceScale;
     height := div N (height scaledGraphBounds) sourceScale |}.

(** The scale that fits the source into the outline container. *)
Definition outlineScale (src : Graph) (sourceContainer outlineContainer : HTMLElement)
  (border0 minScale0 : num) : num :=
  let sourceScale := scale (view src) in
  let unscaledFinderBounds :=
    {| x := zero N; y := zero N;
       width := div N (clientWidth sourceContainer) sourceScale;
       height := div N (clientHeight sourceContainer) sourceScale |} in
  let union := rectangle_add (unscaledGraphBounds src) unscaledFinderBounds in
  let size := getSourceContainerSize sourceContainer in
  let completeWidth := max N (div N (width size) sourceScale) (width union) in
  let completeHeight := max N (div N (height size) sourceScale) (height union) in
  let availableWidth :=
    max N (zero N) (sub N (clientWidth outlineContainer) border0) in
  let availableHeight :=
    max N (zero N) (sub N (clientHeight outlineContainer) border0) in
  let outlineScale :=
    min N (div N availableWidth completeWidth)
          (div N availableHeight completeHeight) in
  if isNaN N outlineScale then minScale0 else max N minScale0 outlineScale.

Lemma update_with_containers revalidate this src sourceContainer out outlineContainer :
  source this = Some src -> container src = Some sourceContainer ->
  outline this = Some out -> container out = Some outlineContainer ->
  let scale0 :=
    outlineScale src sourceContainer outlineContainer (border this) (minScale this) in
  update revalidate this =
    if gt N scale0 (zero N)
    then update_scaled src sourceContainer (unscaledGraphBounds src) scale0
           revalidate this
    else (Returned tt, this).
Proof.
  intros Hs Hsc Ho Hoc. unfold update. rewrite Hs, Ho, Hsc, Hoc. reflexivity.
Qed.

(** An [update] that returns has left the outline alone or has gone through
    all of [update_scaled]. *)
Lemma update_returned revalidate this this1 :
  update revalidate this = (Returned tt, this1) ->
  this1 = this \/
  exists out sb b sz bz v r,
    outline this = Some out /\
    selectionBorder this = Some sb /\ shape_bounds sb = Some b /\
    sizer this = Some sz /\ shape_bounds sz = Some bz /\
    this1 =
      {| model := model this; source := source this;
         outline := Some {| container := container out; view := v;
                            panDx := panDx out; panDy := panDy out |};
         bounds := Some r;
         selectionBorder := Some (fitted r sb b true);
         sizer := Some (fitted (sizer_bounds r bz) sz bz (negb (hidden sz)));
         border := border this; minScale := minScale this |}.
Proof.
  intros Hfirst.
  destruct this as [m [[[sc|] vs pdx pdy]|] [[[oc|] vo odx ody]|] bo sbo szo br ms];
    try (injection Hfirst as <-; by left).
  rewrite (update_with_containers _ _ _ sc _ oc) in Hfirst by done.
  cbv zeta in Hfirst. cbn [border minScale] in Hfirst.
  destruct (gt N _ (zero N)); [|injection Hfirst as <-; by left].
  destruct (update_scaled_needs_shapes _ _ _ _ _ _ _ _ _ _ _ _ _ _ _ _ _ Hfirst)
    as (sb & b & sz & bz & -> & Hb & -> & Hbz).
  rewrite (update_scaled_returns _ _ _ _ _ _ _ _ _ _ _ _ _ b _ bz _ _ Hb Hbz)
    in Hfirst.
  injection Hfirst as <-. right. by eexists _, sb, b, sz, bz, _, _.
Qed.

(** With the outline scale above zero and one of the two shapes missing, or
    without bounds, [update] throws a [TypeError]. By then it has rescaled
    and moved the outline view and replaced [bounds]; the validation of the
    view at the end of [update] is skipped, and the sizer is as it was. *)
Theorem update_without_shapes (revalidate : bool) (this : Outline)
  (src out : Graph) (sourceContainer outlineContainer : HTMLElement) :
  source this = Some src -> container src = Some sourceContainer ->
  outline this = Some out -> container out = Some outlineContainer ->
  let scale0 :=
    outlineScale src sourceContainer outlineContainer (border this) (minScale this) in
  gt N scale0 (zero N) = true ->
  selectionBorder this ≫= shape_bounds = None \/ sizer this ≫= shape_bounds = None ->
  let v := adjusted src (unscaledGraphBounds src) scale0 (model this) (view out) in
  exists this1,
    update revalidate this = (Threw "TypeError", this1) /\
    (view <$> outline this1) = Some v /\
    bounds this1 = Some (viewport src sourceContainer v) /\
    sizer this1 = sizer this /\
    (selectionBorder this ≫= shape_bounds = None ->
     selectionBorder this1 = selectionBorder this).
Proof.
  intros Hs Hsc Ho Hoc scale0 Hgt Hmissing v.
  rewrite (update_with_containers _ _ _ _ _ _ Hs Hsc Ho Hoc). fold scale0.
  rewrite Hgt. subst v. generalize (unscaledGraphBounds src) as ugb. intros ugb.
  clear Hgt Hs Hsc Hoc. generalize scale0 as s0. clear scale0. intros s0.
  destruct this as [m so [o|] bo sbo szo br ms]; [|done].
  injection Ho as ->. destruct out as [oc vo odx ody].
  cbn [model view sizer selectionBorder] in *.
  unfold update_scaled, adjusted, bind, gets, modify, ret, non_null, throw,
    getOutlineOffset.
  cbn [outline from_option view set_outline_view container panDx panDy model
         source bounds selectionBorder sizer border minScale].
  destruct (ne N (scale vo) s0); cbn -[viewport target sizer_bounds differs];
  destruct (negb (same_root _ _)); cbn -[viewport target sizer_bounds differs];
  (destruct (ne N (px (translate _)) _ || ne N (py (translate _)) _);
   cbn -[viewport target sizer_bounds differs]);
  destruct sbo as [[[b|] hb pb]|]; cbn -[viewport target sizer_bounds differs];
  try (by eexists);
  (destruct (differs b _); cbn -[viewport target sizer_bounds differs]);
  destruct szo as [[[bz|] hz pz]|]; cbn -[viewport target sizer_bounds differs];
  try (by eexists);
  by destruct Hmissing.
Qed.

(** [setZoomEnabled]: the visibility of the node of the sizer. *)
Definition setZoomEnabled (value : bool) : Eff Outline unit :=
  let* sizer0 := bind (gets sizer) non_null in
  modify (set_sizer {| shape_bounds := shape_bounds sizer0; hidden := negb value;
                       painted := painted sizer0 |}).

(** With the zoom handle switched off [update] still moves the sizer to the
    corner of the viewport but does not repaint it, whatever a repaint
    does: what is painted of the sizer stays, and it stays hidden. *)
Theorem hidden_sizer_is_not_repainted (revalidate : bool)
  (this this0 this1 : Outline) :
  setZoomEnabled false this = (Returned tt, this0) ->
  update revalidate this0 = (Returned tt, this1) ->
  exists sz sz1,
    sizer this = Some sz /\ sizer this1 = Some sz1 /\
    painted sz1 = painted sz /\ hidden sz1 = true.
Proof.
  intros Hoff Hupdate.
  unfold setZoomEnabled, bind, gets, modify, non_null, ret, throw in Hoff.
  destruct (sizer this) as [sz|] eqn:Hsz; [|done].
  injection Hoff as <-.
  exists sz.
  destruct (update_returned _ _ _ Hupdate)
    as [-> | (out & sb & b & sz0 & bz & v & r & _ & _ & _ & Hsz0 & _ & ->)].
  - by eexists.
  - cbn [sizer set_sizer] in Hsz0 |- *. injection Hsz0 as <-.
    eexists. split; [done|]. split; [reflexivity|].
    unfold fitted. cbn [hidden negb]. by destruct (differs bz _).
Qed.

(** *** The outline as a mouse listener *)

Section Interaction.

Context {DomEvent : Type}.

(** What the handlers read of an [InternalMouseEvent]; [isSource] tells
    whether the event comes from the node of the given shape. *)
Record MouseEvent : Type := {
  getEvent : DomEvent;
  getX : num;
  getY : num;
  getGraphX : num;
  getGraphY : num;
  isSource : option RectangleShape -> bool
}.

(** [Math.abs] and the unary minus. *)
Variable abs : num -> num.
Variable neg : num -> num.

(** Functions of other files: [isMouseEvent] ([util/EventUtils]),
    [utils.intersects] and [utils.hasScrollbars]. *)
Variable isMouseEvent : DomEvent -> bool.
Variable intersects : option Rectangle -> Rectangle -> bool.
Variable hasScrollbars : option HTMLElement -> bool.

(** Two settings of the source graph, and the methods of the source graph
    and of its view that the handlers call. The events these methods fire
    reach [updateHandler] while [active] is set, where it returns at once. *)
Variable tolerance : num.
Variable useScrollbarsForPanning : bool.
Variable graph_panGraph : num -> num -> Graph -> Graph.
Variable view_setTranslate : Model -> num -> num -> GraphView -> GraphView.
Variable graph_zoomTo : Model -> num -> Graph -> Graph.

Record Settings : Type := {
  enabled : bool;
  showViewport : bool;
  suspended : bool;
  updateOnPan : bool
}.

(** The state of a drag. [active] starts as [null], which the code reads as
    false; coordinates that are [null] count as zero in the arithmetic. *)
Record Drag : Type := {
  active : bool;
  zoom : bool;
  startX : option num;
  startY : option num;
  dx0 : option num;
  dy0 : option num;
  index : option num
}.

Inductive Shape : Type := SelectionBorder | Sizer.
Inductive Handler : Type := PanHandler | RefreshHandler | UpdateHandler.
Inductive Target : Type := OnSource | OnModel | OnView | OnScroll.

(** The calls on the event, on the nodes of the shapes and, in [destroy], on
    the objects the outline listens to. *)
Inductive Call : Type :=
| CallConsume
| CallSetDisplay (shape : Shape) (shown : bool)
| CallRemoveListener (target : Target) (handler : Handler)
| CallRemoveMouseListener
| CallDestroyGraph
| CallDestroyShape (shape : Shape).

Record World : Type := {
  core : Outline;
  settings : Settings;
  drag : Drag;
  calls : list Call
}.

Definition on_core {A} (m : Eff Outline A) : Eff World A :=
  fun w =>
    let (r, o) := m (core w) in
    (r, {| core := o; settings := settings w; drag := drag w; calls := calls w |}).

Definition set_drag (f : Drag -> Drag) : Eff World unit :=
  modify (fun w =>
    {| core := core w; settings := settings w; drag := f (drag w);
       calls := calls w |}).

Definition issue (cs : list Call) : Eff World unit :=
  modify (fun w =>
    {| core := core w; settings := settings w; drag := drag w;
       calls := calls w ++ cs |}).

Definition set_source (g : option Graph) (this : Outline) : Outline :=
  {| model := model this; source := g; outline := outline this;
     bounds := bounds this; selectionBorder := selectionBorder this;
     sizer := sizer this; border := border this; minScale := minScale this |}.

Definition set_outline (g : option Graph) (this : Outline) : Outline :=
  {| model := model this; source := source this; outline := g;
     bounds := bounds this; selectionBorder := selectionBorder this;
     sizer := sizer this; border := border this; minScale := minScale this |}.

Definition set_shapes (sb sz : option RectangleShape) (this : Outline) : Outline :=
  {| model := model this; source := source this; outline := outline this;
     bounds := bounds this; selectionBorder := sb;
     sizer := sz; border := border this; minScale := minScale this |}.

Definition set_view (v : GraphView) (g : Graph) : Graph :=
  {| container := container g; view := v; panDx := panDx g; panDy := panDy g |}.

(** [this.source], [this.outline], ... read and then used as objects. *)
Definition the {A} (f : Outline -> option A) : Eff World A :=
  bind (gets (fun w => f (core w))) non_null.

Definition mouseDown (me : MouseEvent) : Eff World unit :=
  let* st := gets settings in
  (if enabled st && showViewport st
   then
     let* tol := if negb (isMouseEvent (getEvent me))
                 then (the source ;;; ret tolerance)
                 else ret (zero N) in
     let hit :=
       if gt N tol (zero N)
       then Some {| x := sub N (getGraphX me) tol; y := sub N (getGraphY me) tol;
                    width := mul N (two N) tol; height := mul N (two N) tol |}
       else None in
     let* sizer0 := gets (fun w => sizer (core w)) in
     let* zoom0 :=
       if isSource me sizer0 then ret true
       else match hit with
            | Some h =>
                let* s := non_null sizer0 in
                ret (intersects (shape_bounds s) h)
            | None => ret false
            end in
     set_drag (fun d =>
       {| active := true; zoom := zoom0;
          startX := Some (getX me); startY := Some (getY me);
          dx0 := dx0 d; dy0 := dy0 d; index := index d |}) ;;;
     let* src := the source in
     if useScrollbarsForPanning && hasScrollbars (container src)
     then
       let* sourceContainer := non_null (container src) in
       set_drag (fun d =>
         {| active := active d; zoom := zoom d;
            startX := startX d; startY := startY d;
            dx0 := Some (scrollLeft sourceContainer);
            dy0 := Some (scrollTop sourceContainer); index := index d |})
     else
       set_drag (fun d =>
         {| active := active d; zoom := zoom d;
            startX := startX d; startY := startY d;
            dx0 := Some (zero N); dy0 := Some (zero N); index := index d |})
   else ret tt) ;;;
  issue [CallConsume].

Definition getTranslateForEvent (d : Drag) (me : MouseEvent) : Point :=
  {| px := sub N (getX me) (default (zero N) (startX d));
     py := sub N (getY me) (default (zero N) (startY d)) |}.

(** Where the sizer goes for a selection border at [r]; the same corner as
    in [update]. *)
Definition move_sizer (r : Rectangle) (sizer0 : RectangleShape)
  : Eff World unit :=
  let* b := non_null (shape_bounds sizer0) in
  on_core (modify (set_sizer
    ((if negb (hidden sizer0) then shape_redraw else id)
       (set_shape_bounds (sizer_bounds r b) sizer0)))).

Definition mouseMove (me : MouseEvent) : Eff World unit :=
  let* d := gets drag in
  if active d
  then
    let* myBounds := gets (fun w => bounds (core w)) in
    let* sizer0 := the sizer in
    let* selectionBorder0 := the selectionBorder in
    let* st := gets settings in
    issue [CallSetDisplay SelectionBorder (showViewport st);
           CallSetDisplay Sizer (showViewport st)] ;;;
    let delta := getTranslateForEvent d me in
    let dx := px delta in
    let dy := py delta in
    let* bounds1 :=
      if negb (zoom d)
      then
        let* out := the outline in
        let scale0 := scale (view out) in
        let* mb := non_null myBounds in
        let bounds1 :=
          {| x := add N (x mb) dx; y := add N (y mb) dy;
             width := width mb; height := height mb |} in
        on_core (modify (set_selectionBorder
          (shape_redraw (set_shape_bounds bounds1 selectionBorder0)))) ;;;
        let* src := the source in
        let dx1 := mul N (div N dx scale0) (scale (view src)) in
        let dy1 := mul N (div N dy scale0) (scale (view src)) in
        on_core (modify (set_source (Some
          (graph_panGraph (sub N (neg dx1) (default (zero N) (dx0 d)))
                          (sub N (neg dy1) (default (zero N) (dy0 d))) src)))) ;;;
        ret bounds1
      else
        let* src := the source in
        let* sourceContainer := non_null (container src) in
        let viewRatio :=
          div N (clientWidth sourceContainer) (clientHeight sourceContainer) in
        let dy1 := div N dx viewRatio in
        let* mb := non_null myBounds in
        let bounds1 :=
          {| x := x mb; y := y mb;
             width := max N (one N) (add N (width mb) dx);
             height := max N (one N) (add N (height mb) dy1) |} in
        on_core (modify (set_selectionBorder
          (shape_redraw (set_shape_bounds bounds1 selectionBorder0)))) ;;;
        ret bounds1 in
    move_sizer bounds1 sizer0 ;;;
    issue [CallConsume]
  else ret tt.

Definition end_drag (d : Drag) : Drag :=
  {| active := false; zoom := zoom d; startX := startX d; startY := startY d;
     dx0 := dx0 d; dy0 := dy0 d; index := None |}.

Definition mouseUp (me : MouseEvent) : Eff World unit :=
  let* d := gets drag in
  if active d
  then
    let delta := getTranslateForEvent d me in
    let dx := px delta in
    let dy := py delta in
    (if gt N (abs dx) (zero N) || gt N (abs dy) (zero N)
     then
       (if negb (zoom d)
        then
          let* src := the source in
          if negb useScrollbarsForPanning || negb (hasScrollbars (container src))
          then
            on_core (modify (set_source (Some
              (graph_panGraph (zero N) (zero N) src)))) ;;;
            let* out := the outline in
            let dx1 := div N dx (scale (view out)) in
            let dy1 := div N dy (scale (view out)) in
            let* src1 := the source in
            let t := translate (view src1) in
            on_core (modify (fun this =>
              set_source (Some
                (set_view
                   (view_setTranslate (model this) (sub N (px t) dx1)
                      (sub N (py t) dy1) (view src1))
                   src1)) this))
          else ret tt
        else
          let* selectionBorder0 := the selectionBorder in
          let* b := non_null (shape_bounds selectionBorder0) in
          let w := width b in
          let* src := the source in
          let scale0 := scale (view src) in
          on_core (modify (fun this =>
            set_source (Some
              (graph_zoomTo (model this)
                 (max N (minScale this) (sub N scale0 (div N (mul N dx scale0) w)))
                 src)) this))) ;;;
       on_core (update false) ;;;
       issue [CallConsume]
     else ret tt) ;;;
    set_drag end_drag
  else ret tt.

(** The listener that [init] installs on the model, the view and the
    container of the source graph, and the one for [PAN]. *)
Definition updateHandler : Eff World unit :=
  let* st := gets settings in
  let* d := gets drag in
  if negb (suspended st) && negb (active d)
  then on_core (update false)
  else ret tt.

Definition panHandler : Eff World unit :=
  let* st := gets settings in
  if updateOnPan st then updateHandler else ret tt.

Definition refresh : Eff World unit := on_core (update true).

Definition isEnabled : Eff World bool := gets (fun w => enabled (settings w)).

Definition setEnabled (value : bool) : Eff World unit :=
  modify (fun w =>
    {| core := core w;
       settings := {| enabled := value; showViewport := showViewport (settings w);
                      suspended := suspended (settings w);
                      updateOnPan := updateOnPan (settings w) |};
       drag := drag w; calls := calls w |}).

Definition destroy : Eff World unit :=
  (let* src := gets (fun w => source (core w)) in
   match src with
   | Some _ =>
       issue [CallRemoveListener OnSource PanHandler;
              CallRemoveListener OnSource RefreshHandler;
              CallRemoveListener OnModel UpdateHandler;
              CallRemoveListener OnView UpdateHandler;
              CallRemoveListener OnScroll UpdateHandler] ;;;
       on_core (modify (set_source None))
   | None => ret tt
   end) ;;;
  (let* out := gets (fun w => outline (core w)) in
   match out with
   | Some _ =>
       issue [CallRemoveMouseListener; CallDestroyGraph] ;;;
       on_core (modify (set_outline None))
   | None => ret tt
   end) ;;;
  (let* s := gets (fun w => selectionBorder (core w)) in
   match s with
   | Some _ =>
       issue [CallDestroyShape SelectionBorder] ;;;
       on_core (modify (fun this => set_shapes None (sizer this) this))
   | None => ret tt
   end) ;;;
  (let* s := gets (fun w => sizer (core w)) in
   match s with
   | Some _ =>
       issue [CallDestroyShape Sizer] ;;;
       on_core (modify (fun this => set_shapes (selectionBorder this) None this))
   | None => ret tt
   end).

(** What reaches the outline: mouse events of the outline graph, changes of
    the source graph ([updateHandler]) and its panning ([panHandler]). *)
Inductive Input : Type :=
| Down (me : MouseEvent)
| Move (me : MouseEvent)
| Up (me : MouseEvent)
| Changed
| Panned.

Definition step (i : Input) : Eff World unit :=
  match i with
  | Down me => mouseDown me
  | Move me => mouseMove me
  | Up me => mouseUp me
  | Changed => updateHandler
  | Panned => panHandler
  end.

(** The inputs in turn, up to the first that throws. *)
Fixpoint run (inputs : list Input) : Eff World unit :=
  match inputs with
  | [] => ret tt
  | i :: rest => step i ;;; run rest
  end.

Ltac eff_unfold :=
  unfold the, move_sizer, on_core, set_drag, issue, non_null in *;
  unfold bind, gets, modify, ret, throw in *.

Ltac eff_cases :=
  repeat match goal with
  | H : (_, _) = (_, _) |- _ => injection H as <- <-
  | H : context [match ?x with _ => _ end] |- _ => destruct x eqn:?
  | H : context [if ?x then _ else _] |- _ => destruct x eqn:?
  end.

(** [destroy] is final: it returns; a second [destroy] finds nothing to
    release and issues no call; and every update of the destroyed outline,
    by a listener that still fires or by [refresh], returns at once. The
    viewport rectangle and the state of a drag are not reset. *)
Theorem destroy_is_final (w : World) :
  exists w1,
    destroy w = (Returned tt, w1) /\
    source (core w1) = None /\ outline (core w1) = None /\
    selectionBorder (core w1) = None /\ sizer (core w1) = None /\
    bounds (core w1) = bounds (core w) /\ drag w1 = drag w /\
    destroy w1 = (Returned tt, w1) /\
    updateHandler w1 = (Returned tt, w1) /\
    panHandler w1 = (Returned tt, w1) /\
    refresh w1 = (Returned tt, w1).
Proof.
  destruct w as [[m so oo bo sbo szo br ms] [en sv su up] [ac zo sx sy d0x d0y ix] cs].
  unfold destroy, panHandler, updateHandler, refresh. eff_unfold.
  destruct so, oo, sbo, szo; cbn; eexists; (split; [reflexivity|]); cbn;
    repeat split; destruct su, up, ac; reflexivity.
Qed.

(** What no handler but [mouseUp] touches during a drag. *)
Definition frozen (w w1 : World) : Prop :=
  bounds (core w1) = bounds (core w) /\
  outline (core w1) = outline (core w) /\
  model (core w1) = model (core w) /\
  settings w1 = settings w /\ drag w1 = drag w.

Lemma frozen_refl w : frozen w w.
Proof. by repeat split. Qed.

Lemma frozen_trans w1 w2 w3 : frozen w1 w2 -> frozen w2 w3 -> frozen w1 w3.
Proof.
  intros (? & ? & ? & ? & ?) (? & ? & ? & ? & ?). repeat split; congruence.
Qed.

Definition freezes {A} (m : Eff World A) : Prop :=
  forall w o w1, m w = (o, w1) -> frozen w w1.

Lemma freezes_ret {A} (a : A) : freezes (ret a).
Proof. intros w o w1 [= <- <-]. apply frozen_refl. Qed.

Lemma freezes_throw {A} e : freezes (throw (A := A) e).
Proof. intros w o w1 [= <- <-]. apply frozen_refl. Qed.

Lemma freezes_gets {A} (f : World -> A) : freezes (gets f).
Proof. intros w o w1 [= <- <-]. apply frozen_refl. Qed.

Lemma freezes_bind {A B} (m : Eff World A) (k : A -> Eff World B) :
  freezes m -> (forall a, freezes (k a)) -> freezes (bind m k).
Proof.
  intros Hm Hk w o w1. unfold bind.
  destruct (m w) as [[a|e] w0] eqn:E.
  - intros H. apply (frozen_trans _ w0); [by eapply Hm | by eapply Hk].
  - intros [= <- <-]. by eapply Hm.
Qed.

Lemma freezes_non_null {A} (o : option A) : freezes (non_null o).
Proof. destruct o; [apply freezes_ret | apply freezes_throw]. Qed.

Lemma freezes_the {A} (f : Outline -> option A) : freezes (the f).
Proof.
  apply freezes_bind; [apply freezes_gets | intros; apply freezes_non_null].
Qed.

Lemma freezes_issue cs : freezes (issue cs).
Proof. intros w o w1 [= <- <-]. by repeat split. Qed.

Lemma freezes_on_core (f : Outline -> Outline) :
  (forall this, bounds (f this) = bounds this /\ outline (f this) = outline this /\
                model (f this) = model this) ->
  freezes (on_core (modify f)).
Proof.
  intros Hf w o w1 [= <- <-]. destruct (Hf (core w)) as (? & ? & ?).
  by repeat split.
Qed.

Lemma freezes_move_sizer r s : freezes (move_sizer r s).
Proof.
  apply freezes_bind; [apply freezes_non_null | intros b].
  by apply freezes_on_core.
Qed.

Ltac freezes_steps :=
  repeat first
    [ apply freezes_ret | apply freezes_throw | apply freezes_gets
    | apply freezes_issue
    | apply freezes_non_null | apply freezes_the | apply freezes_move_sizer
    | apply freezes_on_core; by intros
    | apply freezes_bind; [|intros ?]
    | match goal with
      | |- freezes (if ?b then _ else _) => destruct b
      end ].

Lemma mouseMove_frozen me w o w1 : mouseMove me w = (o, w1) -> frozen w w1.
Proof.
  revert w o w1. change (freezes (mouseMove me)). unfold mouseMove.
  freezes_steps.
Qed.

Lemma updateHandler_during_drag w :
  active (drag w) = true -> updateHandler w = (Returned tt, w).
Proof.
  intros Ha. unfold updateHandler. eff_unfold. by rewrite Ha, andb_false_r.
Qed.

Lemma panHandler_during_drag w :
  active (drag w) = true -> panHandler w = (Returned tt, w).
Proof.
  intros Ha. unfold panHandler. eff_unfold.
  destruct (updateOnPan (settings w)); [|done].
  by apply updateHandler_during_drag.
Qed.

Definition isRelease (i : Input) : bool :=
  match i with Up _ | Down _ => true | _ => false end.

(** Between the [mouseDown] that starts a drag and the [mouseUp], the
    outline is not updated: whatever the pointer does and whatever changes or
    pans the source graph, the viewport rectangle [bounds], the outline graph
    with its view and the drag state stay as they are, also when a handler
    throws. *)
Theorem drag_freezes_viewport (inputs : list Input) (w w1 : World)
  (o : Outcome unit) :
  active (drag w) = true ->
  forallb (fun i => negb (isRelease i)) inputs = true ->
  run inputs w = (o, w1) ->
  frozen w w1.
Proof.
  revert w. induction inputs as [|i rest IH]; intros w Ha Hin Hrun.
  - injection Hrun as <- <-. apply frozen_refl.
  - cbn in Hin. apply andb_prop in Hin as [Hi Hrest].
    cbn [run] in Hrun. unfold bind in Hrun.
    destruct (step i w) as [[[]|e] w0] eqn:Hstep.
    + assert (frozen w w0) as Hf.
      { destruct i as [me|me|me| |]; try done; cbn [step] in Hstep.
        - by apply (mouseMove_frozen me w _ _ Hstep).
        - rewrite (updateHandler_during_drag w Ha) in Hstep.
          injection Hstep as <-. apply frozen_refl.
        - rewrite (panHandler_during_drag w Ha) in Hstep.
          injection Hstep as <-. apply frozen_refl. }
      apply (frozen_trans _ w0); [done|].
      apply IH; [|done|done].
      destruct Hf as (_ & _ & _ & _ & ->). done.
    + injection Hrun as <- <-.
      destruct i as [me|me|me| |]; try done; cbn [step] in Hstep.
      * by apply (mouseMove_frozen me w _ _ Hstep).
      * by rewrite (updateHandler_during_drag w Ha) in Hstep.
      * by rewrite (panHandler_during_drag w Ha) in Hstep.
Qed.

(** Only [mouseDown] and the end of [mouseUp] write the drag state. *)
Definition same_drag {A} (m : Eff World A) : Prop :=
  forall w o w1, m w = (o, w1) -> drag w1 = drag w /\ settings w1 = settings w.

Lemma same_drag_ret {A} (a : A) : same_drag (ret a).
Proof. by intros w o w1 [= <- <-]. Qed.

Lemma same_drag_throw {A} e : same_drag (throw (A := A) e).
Proof. by intros w o w1 [= <- <-]. Qed.

Lemma same_drag_gets {A} (f : World -> A) : same_drag (gets f).
Proof. by intros w o w1 [= <- <-]. Qed.

Lemma same_drag_bind {A B} (m : Eff World A) (k : A -> Eff World B) :
  same_drag m -> (forall a, same_drag (k a)) -> same_drag (bind m k).
Proof.
  intros Hm Hk w o w1. unfold bind.
  destruct (m w) as [[a|e] w0] eqn:E.
  - intros H. destruct (Hm _ _ _ E) as [<- <-]. by eapply Hk.
  - intros [= <- <-]. by eapply Hm.
Qed.

Lemma same_drag_non_null {A} (o : option A) : same_drag (non_null o).
Proof. destruct o; [apply same_drag_ret | apply same_drag_throw]. Qed.

Lemma same_drag_the {A} (f : Outline -> option A) : same_drag (the f).
Proof.
  apply same_drag_bind; [apply same_drag_gets | intros; apply same_drag_non_null].
Qed.

Lemma same_drag_issue cs : same_drag (issue cs).
Proof. by intros w o w1 [= <- <-]. Qed.

Lemma same_drag_on_core {A} (m : Eff Outline A) : same_drag (on_core m).
Proof.
  intros w o w1. unfold on_core. destruct (m (core w)). by intros [= <- <-].
Qed.

Ltac same_drag_steps :=
  repeat first
    [ apply same_drag_ret | apply same_drag_throw | apply same_drag_gets
    | apply same_drag_issue | apply same_drag_non_null | apply same_drag_the
    | apply same_drag_on_core
    | apply same_drag_bind; [|intros ?]
    | match goal with
      | |- same_drag (if ?b then _ else _) => destruct b
      end ].

Lemma inactive_mouseMove me w :
  active (drag w) = false -> mouseMove me w = (Returned tt, w).
Proof. intros Ha. unfold mouseMove. eff_unfold. by rewrite Ha. Qed.

Lemma inactive_mouseUp me w :
  active (drag w) = false -> mouseUp me w = (Returned tt, w).
Proof. intros Ha. unfold mouseUp. eff_unfold. by rewrite Ha. Qed.

(** A [mouseUp] that returns ends the drag: the outline is inactive, and
    further moves and releases of the pointer do nothing. A [mouseUp] that
    throws, as when [update] throws, leaves the drag as it was, so that
    [active] stays set and [updateHandler] keeps returning at once. *)
Theorem mouseUp_ends_drag (me : MouseEvent) (w : World) :
  match mouseUp me w with
  | (Returned _, w1) =>
      active (drag w1) = false /\
      forall me', mouseMove me' w1 = (Returned tt, w1) /\
                  mouseUp me' w1 = (Returned tt, w1)
  | (Threw _, w1) =>
      active (drag w) = true /\ drag w1 = drag w /\
      updateHandler w1 = (Returned tt, w1)
  end.
Proof.
  destruct (active (drag w)) eqn:Ha.
  2: { rewrite (inactive_mouseUp me w Ha). split; [done|]. intros me'.
       rewrite inactive_mouseMove by done.
       rewrite inactive_mouseUp by done. done. }
  unfold mouseUp at 1. unfold bind at 1. unfold gets at 1. rewrite Ha.
  unfold bind at 1.
  match goal with
  | |- match (match ?body w with _ => _ end) with _ => _ end =>
      assert (same_drag body) as Hbody by same_drag_steps;
      destruct (body w) as [[[]|e] w0] eqn:E
  end.
  - unfold set_drag, modify. cbn [drag end_drag active]. split; [done|].
    intros me'. rewrite inactive_mouseMove by done.
    rewrite inactive_mouseUp by done. done.
  - destruct (Hbody _ _ _ E) as [Hd _]. split; [done|]. split; [done|].
    apply updateHandler_during_drag. by rewrite Hd.
Qed.

(** The preview of a drag. A [mouseMove] that returns has shown both shapes
    as [showViewport] says, given the selection border a new rectangle and
    put the sizer on its lower right corner, with the same formula as
    [update], and has consumed the event. While panning the rectangle keeps
    its size; while zooming it keeps its place and the source graph is not
    touched. A [mouseMove] that throws has not consumed the event. *)
Theorem mouseMove_previews (me : MouseEvent) (w : World) :
  active (drag w) = true ->
  match mouseMove me w with
  | (Returned _, w1) =>
      exists mb sb sz bz r,
        bounds (core w) = Some mb /\ selectionBorder (core w) = Some sb /\
        sizer (core w) = Some sz /\ shape_bounds sz = Some bz /\
        selectionBorder (core w1) = Some (shape_redraw (set_shape_bounds r sb)) /\
        sizer (core w1) =
          Some ((if negb (hidden sz) then shape_redraw else id)
                  (set_shape_bounds (sizer_bounds r bz) sz)) /\
        (if zoom (drag w)
         then x r = x mb /\ y r = y mb /\ source (core w1) = source (core w)
         else width r = width mb /\ height r = height mb) /\
        calls w1 =
          calls w ++ [CallSetDisplay SelectionBorder (showViewport (settings w));
                      CallSetDisplay Sizer (showViewport (settings w));
                      CallConsume]
  | (Threw e, w1) =>
      e = "TypeError" /\
      exists new, calls w1 = calls w ++ new /\ CallConsume ∉ new
  end.
Proof.
  destruct w as [[m so oo bo sbo szo br ms] st [ac zo sx sy d0x d0y ix] cs].
  cbn [drag active]. intros ->.
  assert (forall sv : bool,
    CallConsume ∉ [CallSetDisplay SelectionBorder sv; CallSetDisplay Sizer sv])
    as Hshown.
  { intros sv H. repeat (apply elem_of_cons in H as [H|H]; [done|]).
    by apply elem_of_nil in H. }
  assert (CallConsume ∉ []) as Hnone by apply not_elem_of_nil.
  unfold mouseMove. eff_unfold.
  destruct szo as [[[bz|] hz pz]|], sbo as [sb|], zo, so as [[[sc|] vs pdx pdy]|],
    oo as [out|], bo as [mb|]; cbn;
    try (split; [done|]; first [ by exists [] ; rewrite app_nil_r
                               | by eexists; split; [reflexivity|apply Hshown] ]).
  all: eexists mb, sb, _, bz, _; repeat split; try reflexivity;
    by rewrite <- app_assoc.
Qed.

(** The drag state after a [mouseDown] that got as far as recording the
    press. *)
Definition press_recorded (me : MouseEvent) (before after : Drag) : Prop :=
  active after = true /\
  startX after = Some (getX me) /\ startY after = Some (getY me) /\
  index after = index before.

(** [mouseDown] leaves the outline and its settings alone and consumes the
    event if it returns; where it starts a drag it records the position of
    the event. Where it throws it has not consumed the event, but it may
    have recorded the press already. *)
Lemma mouseDown_result (me : MouseEvent) (w : World) :
  match mouseDown me w with
  | (Returned _, w0) =>
      core w0 = core w /\ settings w0 = settings w /\
      calls w0 = calls w ++ [CallConsume] /\
      (drag w0 = drag w \/
       press_recorded me (drag w) (drag w0) /\
       is_Some (dx0 (drag w0)) /\ is_Some (dy0 (drag w0)))
  | (Threw e, w0) =>
      e = "TypeError" /\ core w0 = core w /\ settings w0 = settings w /\
      calls w0 = calls w /\
      (drag w0 = drag w \/
       press_recorded me (drag w) (drag w0) /\
       dx0 (drag w0) = dx0 (drag w) /\ dy0 (drag w0) = dy0 (drag w))
  end.
Proof.
  destruct w as [[m so oo bo sbo szo br ms] [en sv su up0] d cs].
  unfold mouseDown, press_recorded. eff_unfold. cbn.
  assert (forall P Q : Prop, P -> P \/ Q) as Hleft by (intros; by left).
  destruct en, sv; cbn; try (repeat split; auto; fail).
  destruct (isMouseEvent (getEvent me)), so as [[[sc|] vs pdx pdy]|]; cbn;
    try (repeat split; auto; fail);
    destruct (isSource me szo); cbn;
    try (repeat split; auto; right; repeat split; fail);
    try (destruct (gt N _ (zero N)); cbn;
         try (repeat split; auto; right; repeat split; fail));
    try (destruct szo; cbn;
         try (repeat split; auto; fail);
         try (repeat split; auto; right; repeat split; fail));
    try (destruct useScrollbarsForPanning, (hasScrollbars _); cbn;
         repeat split; auto; right; repeat split; by eexists).
Qed.

Lemma mouseUp_in_place (me : MouseEvent) (w : World) :
  active (drag w) = true ->
  gt N (abs (px (getTranslateForEvent (drag w) me))) (zero N) = false ->
  gt N (abs (py (getTranslateForEvent (drag w) me))) (zero N) = false ->
  mouseUp me w =
    (Returned tt,
     {| core := core w; settings := settings w; drag := end_drag (drag w);
        calls := calls w |}).
Proof.
  intros Ha Hx Hy. unfold mouseUp. eff_unfold. by rewrite Ha, Hx, Hy.
Qed.

(** A click leaves the outline alone. When the pointer goes down on an
    inactive outline and comes up where it went down, then model, graphs,
    bounds, shapes and settings are as before, the outline is inactive
    again, [update] has not run, and only the [mouseDown] has consumed its
    event; this holds whether or not the outline is enabled. What may
    differ afterwards is the record of the drag: where the press started
    one, it keeps the position of the press and what [mouseDown] set, with
    [index] reset. A [mouseDown] that throws has consumed nothing and
    touched none of model, graphs, bounds, shapes and settings, but may
    have left the outline active with the press recorded. Of the numbers
    it needs that [|a - a| > 0] is false. *)
Theorem click_leaves_outline_alone (down up : MouseEvent) (w : World) :
  active (drag w) = false ->
  (forall a, gt N (abs (sub N a a)) (zero N) = false) ->
  getX up = getX down -> getY up = getY down ->
  match mouseDown down w with
  | (Returned _, w0) =>
      exists w1,
        mouseUp up w0 = (Returned tt, w1) /\
        core w1 = core w /\ settings w1 = settings w /\
        calls w1 = calls w ++ [CallConsume] /\
        active (drag w1) = false /\
        (drag w1 = drag w \/
         drag w1 = end_drag (drag w0) /\
         startX (drag w1) = Some (getX down) /\
         startY (drag w1) = Some (getY down) /\
         index (drag w1) = None)
  | (Threw e, w0) =>
      e = "TypeError" /\ core w0 = core w /\ settings w0 = settings w /\
      calls w0 = calls w /\
      (drag w0 = drag w \/
       press_recorded down (drag w) (drag w0) /\
       dx0 (drag w0) = dx0 (drag w) /\ dy0 (drag w0) = dy0 (drag w))
  end.
Proof.
  intros Ha Hclick Hx Hy.
  pose proof (mouseDown_result down w) as Hdown.
  destruct (mouseDown down w) as [[[]|e] w0]; [|done].
  destruct Hdown
    as (Hcore & Hset & Hcalls & [Hdrag | ((Hact & Hsx & Hsy & _) & _)]).
  - exists w0. rewrite inactive_mouseUp by (by rewrite Hdrag).
    rewrite Hdrag. repeat split; try done. by left.
  - eexists. rewrite mouseUp_in_place; [|done| |].
    + cbn [core settings drag calls end_drag active startX startY index].
      repeat split; try done. by right.
    + unfold getTranslateForEvent. cbn [px]. rewrite Hsx, Hx. apply Hclick.
    + unfold getTranslateForEvent. cbn [py]. rewrite Hsy, Hy. apply Hclick.
Qed.

Definition isMouse (i : Input) : bool :=
  match i with Down _ | Move _ | Up _ => true | _ => false end.

Fixpoint presses (inputs : list Input) : nat :=
  match inputs with
  | [] => 0
  | Down _ :: rest => S (presses rest)
  | _ :: rest => presses rest
  end.

(** An outline that is disabled, or does not show the viewport, does not
    react to the pointer: no sequence of mouse events starts a drag, throws,
    or changes the outline or the source graph. All that happens is that
    each [mouseDown] consumes its event. *)
Theorem disabled_outline_only_consumes (inputs : list Input) (w : World) :
  enabled (settings w) && showViewport (settings w) = false ->
  active (drag w) = false ->
  forallb isMouse inputs = true ->
  exists w1,
    run inputs w = (Returned tt, w1) /\
    core w1 = core w /\ settings w1 = settings w /\ drag w1 = drag w /\
    calls w1 = calls w ++ replicate (presses inputs) CallConsume.
Proof.
  revert w. induction inputs as [|i rest IH]; intros w Hoff Ha Hin.
  - exists w. cbn. by rewrite app_nil_r.
  - cbn in Hin. apply andb_prop in Hin as [Hi Hrest].
    cbn [run]. unfold bind.
    destruct i as [me|me|me| |]; try done; cbn [step presses].
    + assert (mouseDown me w =
              (Returned tt,
               {| core := core w; settings := settings w; drag := drag w;
                  calls := calls w ++ [CallConsume] |})) as ->.
      { unfold mouseDown. eff_unfold. by rewrite Hoff. }
      destruct (IH {| core := core w; settings := settings w; drag := drag w;
                      calls := calls w ++ [CallConsume] |})
        as (w1 & -> & ? & ? & ? & Hcalls); [done..|].
      exists w1. repeat split; try done.
      rewrite Hcalls. cbn [calls replicate]. by rewrite <- app_assoc.
    + rewrite inactive_mouseMove by done. by apply IH.
    + rewrite inactive_mouseUp by done. by apply IH.
Qed.

End Interaction.

End Outline.

(** *** An outline at work, on rational numbers *)

Module Sample.
Import QArith.QArith_base QArith.Qreduction Qminmax.

Definition rationals : Numbers (num := Q) :=
  {| zero := 0%Q; one := 1%Q; two := 2%Q;
     add := fun a b => Qred (a + b)%Q;
     sub := fun a b => Qred (a - b)%Q;
     mul := fun a b => Qred (a * b)%Q;
     div := fun a b => Qred (a / b)%Q;
     max := fun a b => Qred (Qmax a b);
     min := fun a b => Qred (Qmin a b);
     isNaN := fun _ => false;
     gt := fun a b => negb (Qle_bool a b);
     lt := fun a b => negb (Qle_bool b a);
     ne := fun a b => negb (Qeq_bool a b) |}.

(** The smallest rectangle around two rectangles. *)
Definition union (a b : Rectangle (num := Q)) : Rectangle (num := Q) :=
  let minX := Qmin (x a) (x b) in
  let minY := Qmin (y a) (y b) in
  let maxX := Qmax (x a + width a) (x b + width b) in
  let maxY := Qmax (y a + height a) (y b + height b) in
  {| x := Qred minX; y := Qred minY;
     width := Qred (maxX - minX); height := Qred (maxY - minY) |}.

Definition element (w h : Q) : HTMLElement (num := Q) :=
  {| clientWidth := w; clientHeight := h; scrollWidth := w; scrollHeight := h;
     scrollLeft := 0%Q; scrollTop := 0%Q |}.

(** A view counts its validations, a shape its repaints. *)
Definition fresh_view : GraphView (num := Q) (Cell := nat) (ViewStates := nat) :=
  {| scale := 1%Q; translate := {| px := 0%Q; py := 0%Q |}; currentRoot := None;
     graphBounds := {| x := 0%Q; y := 0%Q; width := 100%Q; height := 50%Q |};
     states := 0%nat |}.

Definition graph_in (e : HTMLElement (num := Q))
  : Graph (num := Q) (Cell := nat) (ViewStates := nat) :=
  {| container := Some e; view := fresh_view; panDx := 0%Q; panDy := 0%Q |}.

Definition handle : RectangleShape (num := Q) (Painted := nat) :=
  {| shape_bounds := Some {| x := 0%Q; y := 0%Q; width := 8%Q; height := 8%Q |};
     hidden := false; painted := 0%nat |}.

Definition validated (v : GraphView (num := Q) (Cell := nat) (ViewStates := nat))
  : GraphView (num := Q) (Cell := nat) (ViewStates := nat) :=
  {| scale := scale v; translate := translate v; currentRoot := currentRoot v;
     graphBounds := graphBounds v; states := S (states v) |}.

Definition repainted (s : RectangleShape (num := Q) (Painted := nat))
  : RectangleShape (num := Q) (Painted := nat) :=
  {| shape_bounds := shape_bounds s; hidden := hidden s; painted := S (painted s) |}.

(** A 200 x 100 source container shown in a 110 x 60 outline container. *)
Definition small_outline : Outline (Model := nat) :=
  {| model := 0%nat;
     source := Some (graph_in (element 200 100));
     outline := Some (graph_in (element 110 60));
     bounds := None;
     selectionBorder := Some handle; sizer := Some handle;
     border := 10%Q; minScale := (1 # 10000)%Q |}.

Definition update_small : Eff (Outline (Model := nat)) unit :=
  update (Cell := nat) rationals (fun a b => true) union
    (fun _ root v => v) (fun _ v => validated v) repainted false.

(** The outline graph is scaled to one half and validated once, the
    viewport rectangle is 100 x 50 and the sizer sits at its lower right
    corner; the source graph and the model are as before. *)
Example update_small_outline :
  let this' := (update_small small_outline).2 in
  (update_small small_outline).1 = Returned tt /\
  (view <$> outline this') =
    Some {| scale := (1 # 2)%Q; translate := {| px := 0%Q; py := 0%Q |};
            currentRoot := None;
            graphBounds := {| x := 0%Q; y := 0%Q; width := 100%Q; height := 50%Q |};
            states := 1%nat |} /\
  bounds this' = Some {| x := 0%Q; y := 0%Q; width := 100%Q; height := 50%Q |} /\
  (shape_bounds <$> sizer this') =
    Some (Some {| x := 96%Q; y := 46%Q; width := 8%Q; height := 8%Q |}) /\
  source this' = source small_outline /\ model this' = model small_outline.
Proof. vm_compute. repeat split. Qed.

(** A view that takes the current root it is given, on roots compared by
    identity. *)
Definition rooted (root : option nat)
  (v : GraphView (num := Q) (Cell := nat) (ViewStates := nat))
  : GraphView (num := Q) (Cell := nat) (ViewStates := nat) :=
  {| scale := scale v; translate := translate v; currentRoot := root;
     graphBounds := graphBounds v; states := states v |}.

Definition update_rooted (revalidate : bool) : Eff (Outline (Model := nat)) unit :=
  update (Cell := nat) rationals (fun a b => bool_decide (a = b)) union
    (fun _ root v => rooted root v) (fun _ v => validated v) repainted revalidate.

(** The source graph shows the cell 7 as its root, scrolled by (20, 10). *)
Definition drilled_outline : Outline (Model := nat) :=
  {| model := 0%nat;
     source :=
       Some {| container :=
                 Some {| clientWidth := 200%Q; clientHeight := 100%Q;
                         scrollWidth := 400%Q; scrollHeight := 200%Q;
                         scrollLeft := 20%Q; scrollTop := 10%Q |};
               view := rooted (Some 7%nat) fresh_view;
               panDx := 0%Q; panDy := 0%Q |};
     outline := Some (graph_in (element 110 60));
     bounds := None;
     selectionBorder := Some handle; sizer := Some handle;
     border := 10%Q; minScale := (1 # 10000)%Q |}.

Example update_drilled_outline :
  let this' := (update_rooted false drilled_outline).2 in
  (update_rooted false drilled_outline).1 = Returned tt /\
  (view <$> outline this') =
    Some {| scale := (1 # 4)%Q; translate := {| px := 0%Q; py := 0%Q |};
            currentRoot := Some 7%nat;
            graphBounds := {| x := 0%Q; y := 0%Q; width := 100%Q; height := 50%Q |};
            states := 1%nat |} /\
  bounds this' = Some {| x := 5%Q; y := (5 # 2)%Q; width := 50%Q; height := 25%Q |}.
Proof. vm_compute. repeat split. Qed.

Lemma update_twice_witness :
  update_rooted false (update_rooted false drilled_outline).2 =
    (Returned tt, (update_rooted false drilled_outline).2).
Proof.
  apply (update_twice rationals (fun a b => bool_decide (a = b)) union
           (fun _ root v => rooted root v) (fun _ v => validated v) repainted
           false drilled_outline).
  - repeat split.
  - split.
    + intros a. cbn. by rewrite Qeq_bool_refl.
    + intros r. by apply bool_decide_eq_true.
  - vm_compute. reflexivity.
Defined.

(** *** A drag on the sample outline *)

Definition magnitude (a : Q) : Q := if Qle_bool 0 a then a else Qred (- a).

(** Stand-ins for the methods of the source graph: panning is kept in
    [panDx] and [panDy], a translate or a zoom goes to the view and
    validates it. *)
Definition panned (dx dy : Q) (g : Graph (num := Q) (Cell := nat) (ViewStates := nat))
  : Graph (num := Q) (Cell := nat) (ViewStates := nat) :=
  {| container := container g; view := view g; panDx := dx; panDy := dy |}.

Definition translated (m : nat) (tx ty : Q)
  (v : GraphView (num := Q) (Cell := nat) (ViewStates := nat))
  : GraphView (num := Q) (Cell := nat) (ViewStates := nat) :=
  {| scale := scale v; translate := {| px := tx; py := ty |};
     currentRoot := currentRoot v; graphBounds := graphBounds v;
     states := S (states v) |}.

Definition zoomed (m : nat) (s : Q)
  (g : Graph (num := Q) (Cell := nat) (ViewStates := nat))
  : Graph (num := Q) (Cell := nat) (ViewStates := nat) :=
  {| container := container g;
     view := {| scale := s; translate := translate (view g);
                currentRoot := currentRoot (view g);
                graphBounds := graphBounds (view g);
                states := S (states (view g)) |};
     panDx := panDx g; panDy := panDy g |}.

Definition pointer (px0 py0 : Q)
  : MouseEvent (num := Q) (Painted := nat) (DomEvent := unit) :=
  {| getEvent := tt; getX := px0; getY := py0; getGraphX := px0; getGraphY := py0;
     isSource := fun _ => false |}.

Definition play (inputs : list (Input (num := Q) (Painted := nat) (DomEvent := unit)))
  : Eff (World (Model := nat)) unit :=
  run rationals (fun a b => bool_decide (a = b)) union
    (fun _ root v => rooted root v) (fun _ v => validated v) repainted
    magnitude Qopp (fun _ => true) (fun _ _ => false) (fun _ => false) 4%Q false
    panned translated zoomed inputs.

(** The sample outline after its first [update], with nothing going on. *)
Definition at_rest : World (Model := nat) :=
  {| core := (update_rooted false drilled_outline).2;
     settings := {| enabled := true; showViewport := true; suspended := false;
                    updateOnPan := true |};
     drag := {| active := false; zoom := false; startX := None; startY := None;
                dx0 := None; dy0 := None; index := None |};
     calls := [] |}.

(** The pointer goes down at (10, 10), moves to (15, 12) and is released:
    the preview pans the source graph by (-20, -8), the release moves its
    translate there instead, and the [update] that ends the drag follows with
    the outline view. *)
Example pan_by_drag :
  let preview :=
    (play [Down (pointer 10 10); Move (pointer 15 12)] at_rest).2 in
  let final :=
    (play [Down (pointer 10 10); Move (pointer 15 12); Up (pointer 15 12)]
       at_rest).2 in
  ((fun g => (panDx g, panDy g, translate (view g))) <$> source (core preview)) =
    Some (- (20), - (8), {| px := 0; py := 0 |})%Q /\
  active (drag preview) = true /\
  ((fun g => (panDx g, panDy g, translate (view g))) <$> source (core final)) =
    Some (0, 0, {| px := - (20); py := - (8) |})%Q /\
  ((fun g => translate (view g)) <$> outline (core final)) =
    Some {| px := - (20); py := - (8) |}%Q /\
  active (drag final) = false.
Proof. vm_compute. repeat split. Qed.

(** The sample outline without its selection border. *)
Definition bare_outline : Outline (Model := nat) :=
  {| model := 0%nat;
     source := source drilled_outline;
     outline := outline drilled_outline;
     bounds := None;
     selectionBorder := None; sizer := Some handle;
     border := 10%Q; minScale := (1 # 10000)%Q |}.

Lemma update_without_shapes_witness :
  exists this1,
    update_rooted true bare_outline = (Threw "TypeError", this1) /\
    bounds this1 = Some {| x := 5%Q; y := (5 # 2)%Q; width := 50%Q; height := 25%Q |} /\
    (states ∘ view <$> outline this1) = Some 0%nat /\
    sizer this1 = Some handle.
Proof.
  destruct (update_without_shapes rationals (fun a b => bool_decide (a = b)) union
              (fun _ root v => rooted root v) (fun _ v => validated v) repainted
              true bare_outline
              {| container :=
                   Some {| clientWidth := 200%Q; clientHeight := 100%Q;
                           scrollWidth := 400%Q; scrollHeight := 200%Q;
                           scrollLeft := 20%Q; scrollTop := 10%Q |};
                 view := rooted (Some 7%nat) fresh_view;
                 panDx := 0%Q; panDy := 0%Q |}
              (graph_in (element 110 60))
              {| clientWidth := 200%Q; clientHeight := 100%Q;
                 scrollWidth := 400%Q; scrollHeight := 200%Q;
                 scrollLeft := 20%Q; scrollTop := 10%Q |}
              (element 110 60))
    as (this1 & Hthrows & Hview & Hbounds & Hsizer & _);
    try reflexivity.
  - by left.
  - exists this1. split; [exact Hthrows|]. split; [|split].
    + rewrite Hbounds. vm_compute. reflexivity.
    + destruct (outline this1) as [g|]; [|discriminate Hview].
      injection Hview as Hview. cbn. rewrite Hview. vm_compute. reflexivity.
    + exact Hsizer.
Defined.

Lemma hidden_sizer_is_not_repainted_witness :
  exists sz sz1,
    sizer drilled_outline = Some sz /\
    sizer (update_rooted true (setZoomEnabled false drilled_outline).2).2 = Some sz1 /\
    painted sz1 = painted sz /\ hidden sz1 = true.
Proof.
  apply (hidden_sizer_is_not_repainted rationals (fun a b => bool_decide (a = b))
           union (fun _ root v => rooted root v) (fun _ v => validated v) repainted
           true drilled_outline (setZoomEnabled false drilled_outline).2
           (update_rooted true (setZoomEnabled false drilled_outline).2).2).
  - reflexivity.
  - vm_compute. reflexivity.
Defined.

(** The sample outline in the middle of a drag. *)
Definition dragging : World (Model := nat) :=
  (play [Down (pointer 10 10)] at_rest).2.

Lemma drag_freezes_viewport_witness :
  frozen dragging
    (play [Move (pointer 15 12); Changed; Panned; Move (pointer 30 40); Changed]
       dragging).2.
Proof.
  apply (drag_freezes_viewport rationals (fun a b => bool_decide (a = b)) union
           (fun _ root v => rooted root v) (fun _ v => validated v) repainted
           magnitude Qopp (fun _ => true) (fun _ _ => false) (fun _ => false) 4%Q
           false panned translated zoomed
           [Move (pointer 15 12); Changed; Panned; Move (pointer 30 40); Changed]
           dragging _ (Returned tt)).
  - reflexivity.
  - reflexivity.
  - vm_compute. reflexivity.
Defined.

Lemma mouseMove_previews_witness :
  match mouseMove rationals repainted Qopp panned (pointer 15 12) dragging with
  | (Returned _, w1) =>
      calls w1 = calls dragging ++
                 [CallSetDisplay SelectionBorder true; CallSetDisplay Sizer true;
                  CallConsume]
  | (Threw _, _) => False
  end.
Proof.
  pose proof (mouseMove_previews rationals repainted Qopp panned (pointer 15 12)
                dragging eq_refl) as H.
  destruct (mouseMove rationals repainted Qopp panned (pointer 15 12) dragging)
    as [[[]|e] w1] eqn:E.
  - destruct H as (mb & sb & sz & bz & r & _ & _ & _ & _ & _ & _ & _ & H).
    exact H.
  - vm_compute in E. discriminate E.
Defined.

Lemma magnitude_of_nothing (a : Q) :
  gt rationals (magnitude (sub rationals a a)) (zero rationals) = false.
Proof.
  cbn. unfold magnitude.
  assert (Qred (a - a) == 0)%Q as Hzero
    by (rewrite Qred_correct; apply Qplus_opp_r).
  assert (Qle_bool 0 (Qred (a - a)) = true) as ->
    by (apply Qle_bool_iff; rewrite Hzero; apply Qle_refl).
  apply negb_false_iff, Qle_bool_iff. rewrite Hzero. apply Qle_refl.
Qed.

Lemma click_leaves_outline_alone_witness :
  exists w1,
    play [Down (pointer 10 10); Up (pointer 10 10)] at_rest = (Returned tt, w1) /\
    core w1 = core at_rest /\ calls w1 = [CallConsume] /\
    active (drag w1) = false /\
    (drag w1 = drag at_rest \/ startX (drag w1) = Some 10%Q).
Proof.
  pose proof (click_leaves_outline_alone rationals (fun a b => bool_decide (a = b))
                union (fun _ root v => rooted root v) (fun _ v => validated v)
                repainted magnitude (fun _ => true) (fun _ _ => false)
                (fun _ => false) 4%Q false panned translated zoomed
                (pointer 10 10) (pointer 10 10) at_rest eq_refl
                magnitude_of_nothing eq_refl eq_refl) as H.
  unfold play. cbn [run step]. unfold bind at 1.
  destruct (mouseDown _ _ _ _ _ _ _ _) as [[[]|e] w0] eqn:E.
  - destruct H as (w1 & Hup & Hcore & _ & Hcalls & Hactive & Hdrag).
    exists w1. unfold bind, ret. rewrite Hup.
    split; [reflexivity|]. split; [exact Hcore|]. split; [exact Hcalls|].
    split; [exact Hactive|].
    destruct Hdrag as [Hsame | (_ & Hsx & _)]; [by left | by right].
  - vm_compute in E. discriminate E.
Defined.

Lemma disabled_outline_only_consumes_witness :
  exists w1,
    play [Down (pointer 10 10); Move (pointer 15 12); Up (pointer 15 12);
          Down (pointer 1 1)] (setEnabled false at_rest).2 = (Returned tt, w1) /\
    core w1 = core at_rest /\ calls w1 = [CallConsume; CallConsume].
Proof.
  destruct (disabled_outline_only_consumes rationals
              (fun a b => bool_decide (a = b)) union
              (fun _ root v => rooted root v) (fun _ v => validated v) repainted
              magnitude Qopp (fun _ => true) (fun _ _ => false) (fun _ => false)
              4%Q false panned translated zoomed
              [Down (pointer 10 10); Move (pointer 15 12); Up (pointer 15 12);
               Down (pointer 1 1)] (setEnabled false at_rest).2)
    as (w1 & Hrun & Hcore & _ & _ & Hcalls); try reflexivity.
  exists w1. split; [exact Hrun|]. split; [exact Hcore | exact Hcalls].
Defined.

End Sample.

End OutlineView.
